(** * CyberTool: the task execution engine

    A shallow embedding of the scanning thread ([red_team.py]), the web job
    store ([web_ui.py]), the monitoring threads ([blue_team.py]) and the parts
    of [database.py], [logger.py] and [config.py] they call, followed by the
    properties of the specification that concern them, and by further
    properties of that code, of the audit logger and of the database.

    Conventions.
    - Python [int] is [Z]; Python [float] is IEEE 754 binary64, taken from the
      Standard Library's executable specification [SpecFloat] (precision 53,
      [emax] 1024, round to nearest even).
    - Python [str] is [string]; the text handled here is ASCII.
    - A [dict] used as a map is a [gmap]; a [set] is a [gset]; a [list] is a
      [list].
    - Time stamps ([datetime.now()]) are left out of every record: no
      property below reads one, but for the [start_time] of a session in
      [Retention].
    - A thread is a record holding the object's attributes together with the
      control point of its [run] method; one step of the machine is one
      iteration of the loop in [run]. Signals emitted by a thread are kept in
      emission order. *)

From Stdlib Require Import ZArith Lia Ascii String Floats.SpecFloat.
From stdpp Require Import gmap strings list pretty sorting.

Open Scope Z_scope.

(** ** Python values shared by the modules *)

(** Building a [dict] from a literal: entries are inserted in order, so a
    later entry with the same key replaces an earlier one. *)
Definition dict_literal {V} (l : list (Z * V)) : gmap Z V :=
  foldl (fun m kv => <[kv.1 := kv.2]> m) ∅ l.

(** Exceptions are values: a computation returns [inl e] when it raises. *)
Inductive exn :=
  | ZeroDivisionError
  | OverflowError
  | ValueError.

Definition exn_str (e : exn) : string :=
  match e with
  | ZeroDivisionError => "division by zero"
  | OverflowError => "cannot convert float infinity to integer"
  | ValueError => "cannot convert float NaN to integer"
  end.

Definition bind_exn {A B} (x : exn + A) (f : A -> exn + B) : exn + B :=
  match x with
  | inl e => inl e
  | inr a => f a
  end.

(** [str.strip()] and [str.lower()] on ASCII text. *)
Definition is_space (c : ascii) : bool :=
  let n := Z.of_nat (nat_of_ascii c) in
  ((9 <=? n) && (n <=? 13)) || ((28 <=? n) && (n <=? 32)).

Fixpoint lstrip (s : string) : string :=
  match s with
  | String c s' => if is_space c then lstrip s' else s
  | EmptyString => EmptyString
  end.

Fixpoint rstrip (s : string) : string :=
  match s with
  | String c s' =>
      match rstrip s' with
      | EmptyString => if is_space c then EmptyString else String c EmptyString
      | r => String c r
      end
  | EmptyString => EmptyString
  end.

Definition strip (s : string) : string := rstrip (lstrip s).

Definition lower_ascii (c : ascii) : ascii :=
  let n := nat_of_ascii c in
  if ((65 <=? n) && (n <=? 90))%nat then ascii_of_nat (n + 32) else c.

Fixpoint lower (s : string) : string :=
  match s with
  | String c s' => String (lower_ascii c) (lower s')
  | EmptyString => EmptyString
  end.

(** [needle in haystack] for strings. *)
Fixpoint contains (needle haystack : string) : bool :=
  String.prefix needle haystack ||
  match haystack with
  | String _ h' => contains needle h'
  | EmptyString => false
  end.

(** ** Binary64 arithmetic as Python performs it *)
Module Float64.

Definition prec : Z := 53.
Definition emax : Z := 1024.

(** [float(n)] for an integer [n]. *)
Definition float_of_int (n : Z) : spec_float :=
  binary_normalize prec emax n 0 false.

(** [a / b] on two integers: true division. Python rounds the exact quotient
    once; below [2 ^ 53] in absolute value the two conversions are exact, so
    the quotient of the converted operands is that same float. *)
Definition truediv (a b : Z) : exn + spec_float :=
  if b =? 0 then inl ZeroDivisionError
  else inr (SFdiv prec emax (float_of_int a) (float_of_int b)).

(** [x * n] for a float [x] and an integer [n]. *)
Definition mul_int (x : spec_float) (n : Z) : spec_float :=
  SFmul prec emax x (float_of_int n).

(** [int(x)]: truncation toward zero. *)
Definition int_of_float (x : spec_float) : exn + Z :=
  match x with
  | S754_zero _ => inr 0
  | S754_finite s m e =>
      let a := match e with
               | Zneg p => Z.shiftr (Zpos m) (Zpos p)
               | _ => Z.shiftl (Zpos m) e
               end in
      inr (if s then - a else a)
  | S754_infinity _ => inl OverflowError
  | S754_nan => inl ValueError
  end.

(** [x > y]. *)
Definition gt (x y : spec_float) : bool := SFltb y x.

(** The integer nearest to [n / d] for [d > 0], a tie going to the even
    neighbour. *)
Definition round_half_even (n d : Z) : Z :=
  let q := n / d in
  match 2 * (n mod d) ?= d with
  | Lt => q
  | Gt => q + 1
  | Eq => if Z.even q then q else q + 1
  end.

(** [|x| * 10] rounded to an integer, for the finite [x = m * 2^e]. *)
Definition tenths (m : positive) (e : Z) : Z :=
  match e with
  | Zneg p => round_half_even (10 * Zpos m) (2 ^ Zpos p)
  | _ => 10 * Zpos m * 2 ^ e
  end.

Definition sign_str (s : bool) : string := if s then "-" else "".

(** [f"{x:.1f}"]: one digit after the point, correctly rounded. *)
Definition format_1f (x : spec_float) : string :=
  match x with
  | S754_nan => "nan"
  | S754_infinity s => sign_str s +:+ "inf"
  | S754_zero s => sign_str s +:+ "0.0"
  | S754_finite s m e =>
      let t := tenths m e in
      sign_str s +:+ pretty (t / 10) +:+ "." +:+ pretty (t mod 10)
  end.

End Float64.

(** [int((scanned / total) * 100)], the progress expression of both scan
    loops. *)
Definition progress_percent (scanned total : Z) : exn + Z :=
  bind_exn (Float64.truediv scanned total)
    (fun q => Float64.int_of_float (Float64.mul_int q 100)).

(** ** [config.py]: the extended port table *)
Module Config.

Definition THRESHOLD_CPU_PERCENT : spec_float := Float64.float_of_int 80.
Definition THRESHOLD_MEMORY_PERCENT : spec_float := Float64.float_of_int 85.
Definition THRESHOLD_DISK_PERCENT : spec_float := Float64.float_of_int 90.

Definition SUSPICIOUS_KEYWORDS : list string :=
  ["hack"; "crack"; "exploit"; "backdoor"; "keylog";
   "trojan"; "malware"; "virus"; "rootkit"].

Definition COMMON_PORTS_literal : list (Z * string) :=
  [ (20, "FTP-DATA"); (21, "FTP"); (22, "SSH/SFTP"); (69, "TFTP");
    (25, "SMTP"); (110, "POP3"); (143, "IMAP"); (465, "SMTPS");
    (587, "SMTP-Submission"); (993, "IMAPS"); (995, "POP3S");
    (80, "HTTP"); (443, "HTTPS"); (8080, "HTTP-Proxy"); (8443, "HTTPS-Alt");
    (8000, "HTTP-Alt");
    (23, "TELNET"); (3389, "RDP"); (5900, "VNC"); (5901, "VNC-1");
    (22, "SSH");
    (1433, "MSSQL"); (1521, "Oracle"); (3306, "MySQL"); (5432, "PostgreSQL");
    (6379, "Redis"); (27017, "MongoDB"); (27018, "MongoDB-Shard");
    (389, "LDAP"); (636, "LDAPS"); (88, "Kerberos");
    (445, "SMB"); (137, "NetBIOS-NS"); (138, "NetBIOS-DGM");
    (139, "NetBIOS-SSN"); (2049, "NFS");
    (53, "DNS");
    (161, "SNMP"); (162, "SNMP-Trap"); (179, "BGP"); (514, "Syslog");
    (515, "LPD"); (631, "IPP"); (1194, "OpenVPN"); (1723, "PPTP");
    (3000, "Node.js-Dev"); (5000, "Flask-Dev"); (9200, "Elasticsearch");
    (9300, "Elasticsearch-Node"); (11211, "Memcached") ]%string.

Definition COMMON_PORTS : gmap Z string := dict_literal COMMON_PORTS_literal.

End Config.

(** ** [database.py] and [logger.py]: the rows the engine writes *)

(** The [results] dictionary a finished scan hands over. *)
Record ScanResults := {
  res_target : string;
  res_start_port : Z;
  res_end_port : Z;
  res_open_ports : list Z
}.

Module Database.

Record session_row := {
  session_type : string;
  target : string;
  config : Z * Z;               (* start_port, end_port *)
  results : option ScanResults;
  status : string               (* DEFAULT 'active' *)
}.

Record scan_result_row := {
  sr_session_id : Z;
  sr_port : Z;
  sr_service : string;
  sr_status : string
}.

Record alert_row := {
  al_severity : string;
  al_category : string;
  al_message : string
}.

(** The tables of a database file from which no row has been deleted: the
    AUTOINCREMENT id of a session is then its position in the table, counted
    from 1. [Storage] keeps the identifiers as SQLite does, with the rows
    that [delete_old_sessions] removes and the bounds of a 64-bit integer. *)
Record DatabaseManager := {
  sessions : list session_row;
  scan_results : list scan_result_row;
  alerts : list alert_row
}.

Definition empty : DatabaseManager :=
  {| sessions := []; scan_results := []; alerts := [] |}.

Definition create_session (db : DatabaseManager) (ty tgt : string) (cfg : Z * Z)
  : Z * DatabaseManager :=
  (Z.of_nat (length (sessions db)) + 1,
   {| sessions := sessions db ++
        [ {| session_type := ty; target := tgt; config := cfg;
             results := None; status := "active" |} ];
      scan_results := scan_results db;
      alerts := alerts db |}).

Definition finish_row (res : ScanResults) (r : session_row) : session_row :=
  {| session_type := session_type r; target := target r; config := config r;
     results := Some res; status := "completed" |}.

(** [UPDATE sessions SET ..., status = 'completed' WHERE id = ?]. *)
Definition update_session (db : DatabaseManager) (sid : Z) (res : ScanResults)
  : DatabaseManager :=
  {| sessions :=
       if 1 <=? sid then alter (finish_row res) (Z.to_nat (sid - 1)) (sessions db)
       else sessions db;
     scan_results := scan_results db;
     alerts := alerts db |}.

Definition store_scan_result (db : DatabaseManager) (sid port : Z)
    (service st : string) : DatabaseManager :=
  {| sessions := sessions db;
     scan_results := scan_results db ++
       [ {| sr_session_id := sid; sr_port := port;
            sr_service := service; sr_status := st |} ];
     alerts := alerts db |}.

Definition store_alert (db : DatabaseManager) (sev cat msg : string)
  : DatabaseManager :=
  {| sessions := sessions db;
     scan_results := scan_results db;
     alerts := alerts db ++
       [ {| al_severity := sev; al_category := cat; al_message := msg |} ] |}.

Definition get_session_by_id (db : DatabaseManager) (sid : Z) : option session_row :=
  if 1 <=? sid then sessions db !! Z.to_nat (sid - 1) else None.

(** [SELECT ... WHERE session_id = ? ORDER BY timestamp]: the time stamps
    are not kept in these tables, so the rows of the session come in an
    order that is left open ([Storage.get_session_results] has the time
    stamps). *)
Definition get_session_results (db : DatabaseManager) (sid : Z)
    (rows : list scan_result_row) : Prop :=
  rows ≡ₚ filter (fun r => sr_session_id r = sid) (scan_results db).

End Database.

Module Logger.

Record log_entry := {
  category : string;
  message : string;
  level : string
}.

(** The audit log, oldest entry first. *)
Definition AuditLogger := list log_entry.

Definition log_event (lg : AuditLogger) (cat msg lvl : string) : AuditLogger :=
  lg ++ [ {| category := cat; message := msg; level := lvl |} ].

End Logger.

(** ** The network, as one connection attempt sees it *)
Inductive connect_outcome :=
  | connected      (* [connect_ex] returned 0 *)
  | refused        (* [connect_ex] returned an error code *)
  | gaierror       (* [socket.gaierror] was raised: the host does not resolve *)
  | other_error.   (* another exception was raised *)

Definition network := string -> Z -> connect_outcome.

Global Instance connect_outcome_eq_dec : EqDecision connect_outcome.
Proof. solve_decision. Defined.

(** A host on which exactly the ports of [served] accept connections, and a
    host name that does not resolve. *)
Definition serving (served : list Z) : network :=
  fun _ port => if bool_decide (port ∈ served) then connected else refused.

Definition unresolvable : network := fun _ _ => gaierror.

(** ** [red_team.py] *)
Module RedTeam.

Inductive signal :=
  | progress_update (value : Z)
  | result_update (tgt : string) (port : Z) (service : string)
  | scan_complete (results : ScanResults)
  | error_occurred (msg : string).

(** Where the thread is in [run]. *)
Inductive control :=
  | created                      (* constructed, [start()] not called yet *)
  | looping (port scanned : Z)   (* at the head of the [for] loop, [port] next *)
  | finished.                    (* [run] has returned *)

Record PortScannerThread := {
  target : string;
  start_port : Z;
  end_port : Z;
  timeout : Z;
  is_running : bool;
  open_ports : list Z;
  control_point : control;
  emitted : list signal
}.

(** [PortScannerThread.__init__] *)
Definition init (tgt : string) (sp ep tmo : Z) : PortScannerThread :=
  {| target := tgt; start_port := sp; end_port := ep; timeout := tmo;
     is_running := true; open_ports := [];
     control_point := created; emitted := [] |}.

Definition set_control (c : control) (th : PortScannerThread) :=
  {| target := target th; start_port := start_port th; end_port := end_port th;
     timeout := timeout th; is_running := is_running th;
     open_ports := open_ports th; control_point := c; emitted := emitted th |}.

Definition emit (s : signal) (th : PortScannerThread) :=
  {| target := target th; start_port := start_port th; end_port := end_port th;
     timeout := timeout th; is_running := is_running th;
     open_ports := open_ports th; control_point := control_point th;
     emitted := emitted th ++ [s] |}.

Definition append_open_port (p : Z) (th : PortScannerThread) :=
  {| target := target th; start_port := start_port th; end_port := end_port th;
     timeout := timeout th; is_running := is_running th;
     open_ports := open_ports th ++ [p]; control_point := control_point th;
     emitted := emitted th |}.

(** [QThread.start]: [run] begins; [total_ports] and [scanned = 0] are set and
    the loop is entered at [start_port]. *)
Definition start (th : PortScannerThread) : PortScannerThread :=
  match control_point th with
  | created => set_control (looping (start_port th) 0) th
  | _ => th
  end.

Definition isRunning (th : PortScannerThread) : bool :=
  match control_point th with
  | looping _ _ => true
  | _ => false
  end.

(** [PortScannerThread.stop] *)
Definition stop (th : PortScannerThread) : PortScannerThread :=
  {| target := target th; start_port := start_port th; end_port := end_port th;
     timeout := timeout th; is_running := false;
     open_ports := open_ports th; control_point := control_point th;
     emitted := emitted th |}.

(** [PortScannerThread.scan_port] *)
Definition scan_port (net : network) (host : string) (port : Z) : string :=
  match net host port with
  | connected => "open"
  | refused => "closed"
  | gaierror => "error"
  | other_error => "closed"
  end.

Definition common_ports : gmap Z string :=
  dict_literal
    [ (20, "FTP-DATA"); (21, "FTP"); (22, "SSH"); (23, "TELNET");
      (25, "SMTP"); (53, "DNS"); (80, "HTTP"); (110, "POP3");
      (143, "IMAP"); (443, "HTTPS"); (445, "SMB"); (3306, "MySQL");
      (3389, "RDP"); (5432, "PostgreSQL"); (5900, "VNC");
      (6379, "Redis"); (8080, "HTTP-Alt"); (8443, "HTTPS-Alt");
      (27017, "MongoDB") ]%string.

(** [PortScannerThread.identify_service] *)
Definition identify_service (port : Z) : string :=
  default "unknown"%string (common_ports !! port).

Definition total_ports (th : PortScannerThread) : Z :=
  end_port th - start_port th + 1.

Definition results_of (th : PortScannerThread) : ScanResults :=
  {| res_target := target th; res_start_port := start_port th;
     res_end_port := end_port th; res_open_ports := open_ports th |}.

(** The body of the [for] loop for [port], after the [is_running] test. *)
Definition scan_one (net : network) (port scanned : Z) (th : PortScannerThread)
  : PortScannerThread :=
  let status := scan_port net (target th) port in
  let th1 :=
    if String.eqb status "open"
    then emit (result_update (target th) port (identify_service port))
              (append_open_port port th)
    else th in
  let scanned' := scanned + 1 in
  match progress_percent scanned' (total_ports th) with
  | inr progress =>
      set_control (looping (port + 1) scanned') (emit (progress_update progress) th1)
  | inl e =>
      set_control finished
        (emit (error_occurred ("Scan error: " +:+ exn_str e)) th1)
  end.

(** One step of [run]: the loop test, then either the loop body or the code
    after the loop. Leaving the loop, by exhaustion of the range or by
    [break], falls through to the emission of [scan_complete]. *)
Definition run_step (net : network) (th : PortScannerThread) : PortScannerThread :=
  match control_point th with
  | looping port scanned =>
      if (port <=? end_port th) && is_running th
      then scan_one net port scanned th
      else set_control finished (emit (scan_complete (results_of th)) th)
  | _ => th
  end.

(** An upper bound on the steps [run] still has to take. *)
Definition steps_left (th : PortScannerThread) : nat :=
  match control_point th with
  | looping port _ => S (Z.to_nat (end_port th - port + 1))
  | _ => O
  end.

(** [QThread.wait]: the caller blocks until [run] has returned. *)
Definition wait (net : network) (th : PortScannerThread) : PortScannerThread :=
  Nat.iter (steps_left th) (run_step net) th.

(** The whole of [run] with nobody interfering. *)
Definition run (net : network) (th : PortScannerThread) : PortScannerThread :=
  wait net (start th).

End RedTeam.

(** ** [red_team.py]: the controller owning the scanner thread *)
Module RedTeamModule.
Import RedTeam.

(** The widgets are kept by the value they show; a button by whether it is
    enabled. Signals reach the slots through a queued connection:
    [delivered] counts how many of the thread's signals the slots have
    handled. *)
Record t := {
  db_manager : Database.DatabaseManager;
  audit_logger : Logger.AuditLogger;
  scanner_thread : option PortScannerThread;
  delivered : nat;
  current_session_id : option Z;
  target_input : string;
  start_port_box : Z;
  end_port_box : Z;
  timeout_input : Z;
  consent_checkbox : bool;
  start_btn : bool;
  stop_btn : bool;
  progress_bar : Z;
  results_display : list string;
  message_boxes : list (string * string)
}.

Definition with_db (f : Database.DatabaseManager -> Database.DatabaseManager) (m : t) : t :=
  {| db_manager := f (db_manager m); audit_logger := audit_logger m;
     scanner_thread := scanner_thread m; delivered := delivered m;
     current_session_id := current_session_id m; target_input := target_input m;
     start_port_box := start_port_box m; end_port_box := end_port_box m;
     timeout_input := timeout_input m; consent_checkbox := consent_checkbox m;
     start_btn := start_btn m; stop_btn := stop_btn m;
     progress_bar := progress_bar m; results_display := results_display m;
     message_boxes := message_boxes m |}.

Definition log (cat msg lvl : string) (m : t) : t :=
  {| db_manager := db_manager m;
     audit_logger := Logger.log_event (audit_logger m) cat msg lvl;
     scanner_thread := scanner_thread m; delivered := delivered m;
     current_session_id := current_session_id m; target_input := target_input m;
     start_port_box := start_port_box m; end_port_box := end_port_box m;
     timeout_input := timeout_input m; consent_checkbox := consent_checkbox m;
     start_btn := start_btn m; stop_btn := stop_btn m;
     progress_bar := progress_bar m; results_display := results_display m;
     message_boxes := message_boxes m |}.

Definition with_thread (th : option PortScannerThread) (n : nat) (m : t) : t :=
  {| db_manager := db_manager m; audit_logger := audit_logger m;
     scanner_thread := th; delivered := n;
     current_session_id := current_session_id m; target_input := target_input m;
     start_port_box := start_port_box m; end_port_box := end_port_box m;
     timeout_input := timeout_input m; consent_checkbox := consent_checkbox m;
     start_btn := start_btn m; stop_btn := stop_btn m;
     progress_bar := progress_bar m; results_display := results_display m;
     message_boxes := message_boxes m |}.

Definition with_session (sid : option Z) (m : t) : t :=
  {| db_manager := db_manager m; audit_logger := audit_logger m;
     scanner_thread := scanner_thread m; delivered := delivered m;
     current_session_id := sid; target_input := target_input m;
     start_port_box := start_port_box m; end_port_box := end_port_box m;
     timeout_input := timeout_input m; consent_checkbox := consent_checkbox m;
     start_btn := start_btn m; stop_btn := stop_btn m;
     progress_bar := progress_bar m; results_display := results_display m;
     message_boxes := message_boxes m |}.

Definition with_inputs (tgt : string) (consent : bool) (m : t) : t :=
  {| db_manager := db_manager m; audit_logger := audit_logger m;
     scanner_thread := scanner_thread m; delivered := delivered m;
     current_session_id := current_session_id m; target_input := tgt;
     start_port_box := start_port_box m; end_port_box := end_port_box m;
     timeout_input := timeout_input m; consent_checkbox := consent;
     start_btn := start_btn m; stop_btn := stop_btn m;
     progress_bar := progress_bar m; results_display := results_display m;
     message_boxes := message_boxes m |}.

Definition with_range (sp ep tmo : Z) (m : t) : t :=
  {| db_manager := db_manager m; audit_logger := audit_logger m;
     scanner_thread := scanner_thread m; delivered := delivered m;
     current_session_id := current_session_id m; target_input := target_input m;
     start_port_box := sp; end_port_box := ep;
     timeout_input := tmo; consent_checkbox := consent_checkbox m;
     start_btn := start_btn m; stop_btn := stop_btn m;
     progress_bar := progress_bar m; results_display := results_display m;
     message_boxes := message_boxes m |}.

Definition with_buttons (sb pb : bool) (m : t) : t :=
  {| db_manager := db_manager m; audit_logger := audit_logger m;
     scanner_thread := scanner_thread m; delivered := delivered m;
     current_session_id := current_session_id m; target_input := target_input m;
     start_port_box := start_port_box m; end_port_box := end_port_box m;
     timeout_input := timeout_input m; consent_checkbox := consent_checkbox m;
     start_btn := sb; stop_btn := pb;
     progress_bar := progress_bar m; results_display := results_display m;
     message_boxes := message_boxes m |}.

Definition with_progress (v : Z) (m : t) : t :=
  {| db_manager := db_manager m; audit_logger := audit_logger m;
     scanner_thread := scanner_thread m; delivered := delivered m;
     current_session_id := current_session_id m; target_input := target_input m;
     start_port_box := start_port_box m; end_port_box := end_port_box m;
     timeout_input := timeout_input m; consent_checkbox := consent_checkbox m;
     start_btn := start_btn m; stop_btn := stop_btn m;
     progress_bar := v; results_display := results_display m;
     message_boxes := message_boxes m |}.

Definition with_display (f : list string -> list string) (m : t) : t :=
  {| db_manager := db_manager m; audit_logger := audit_logger m;
     scanner_thread := scanner_thread m; delivered := delivered m;
     current_session_id := current_session_id m; target_input := target_input m;
     start_port_box := start_port_box m; end_port_box := end_port_box m;
     timeout_input := timeout_input m; consent_checkbox := consent_checkbox m;
     start_btn := start_btn m; stop_btn := stop_btn m;
     progress_bar := progress_bar m; results_display := f (results_display m);
     message_boxes := message_boxes m |}.

Definition warn (title text : string) (m : t) : t :=
  {| db_manager := db_manager m; audit_logger := audit_logger m;
     scanner_thread := scanner_thread m; delivered := delivered m;
     current_session_id := current_session_id m; target_input := target_input m;
     start_port_box := start_port_box m; end_port_box := end_port_box m;
     timeout_input := timeout_input m; consent_checkbox := consent_checkbox m;
     start_btn := start_btn m; stop_btn := stop_btn m;
     progress_bar := progress_bar m; results_display := results_display m;
     message_boxes := message_boxes m ++ [(title, text)] |}.

(** [RedTeamModule.__init__] with [init_ui]: the spin boxes show 1, 1000
    and 1; nothing is checked or typed; both scan buttons are disabled. *)
Definition init (db : Database.DatabaseManager) (lg : Logger.AuditLogger) : t :=
  {| db_manager := db; audit_logger := lg;
     scanner_thread := None; delivered := 0%nat;
     current_session_id := None; target_input := "";
     start_port_box := 1; end_port_box := 1000; timeout_input := 1;
     consent_checkbox := false; start_btn := false; stop_btn := false;
     progress_bar := 0; results_display := []; message_boxes := [] |}.

(** [update_start_button] *)
Definition update_start_button (m : t) : t :=
  let has_consent := consent_checkbox m in
  let has_target := (0 <? String.length (strip (target_input m)))%nat in
  with_buttons (has_consent && has_target) (stop_btn m) m.

(** The user edits the target field or ticks the box; either change fires
    [update_start_button]. *)
Definition edit_target (tgt : string) (m : t) : t :=
  update_start_button (with_inputs tgt (consent_checkbox m) m).

Definition set_consent (c : bool) (m : t) : t :=
  update_start_button (with_inputs (target_input m) c m).

(** [start_scan]. The controller keeps one thread: a call made while a scan
    is in flight would leave the earlier thread running beside the new one,
    which this state does not hold (see [idle]). *)
Definition start_scan (m : t) : t :=
  let tgt := strip (target_input m) in
  let sp := start_port_box m in
  let ep := end_port_box m in
  let tmo := timeout_input m in
  if ep <? sp then
    warn "Invalid Range" "Start port must be less than or equal to end port!" m
  else
    let m1 := with_progress 0 (with_display (fun _ => []) m) in
    let '(sid, db') :=
      Database.create_session (db_manager m1) "red_team" tgt (sp, ep) in
    let m2 := with_session (Some sid) (with_db (fun _ => db') m1) in
    let m3 := log "RED_TEAM"
                ("Port scan started: " +:+ tgt +:+ " ports " +:+ pretty sp
                 +:+ "-" +:+ pretty ep) "INFO" m2 in
    let m4 := with_thread (Some (start (RedTeam.init tgt sp ep tmo))) 0 m3 in
    with_display (fun d => d ++ ["Scanning " +:+ tgt +:+ "..."])
      (with_buttons false true m4).

(** [stop_scan] *)
Definition stop_scan (net : network) (m : t) : t :=
  let m1 :=
    match scanner_thread m with
    | Some th =>
        if isRunning th then
          log "RED_TEAM" "Port scan stopped by user" "WARNING"
            (with_display (fun d => d ++ ["Scan stopped by user"])
               (with_thread (Some (wait net (stop th))) (delivered m) m))
        else m
    | None => m
    end in
  with_buttons true false m1.

(** The slots. *)
Definition update_progress (value : Z) (m : t) : t := with_progress value m.

Definition display_result (tgt : string) (port : Z) (service : string) (m : t) : t :=
  let m1 := with_display
              (fun d => d ++ ["[OPEN] " +:+ tgt +:+ ":" +:+ pretty port
                              +:+ " - " +:+ service]) m in
  match current_session_id m1 with
  | Some sid =>
      if sid =? 0 then m1
      else with_db (fun db => Database.store_scan_result db sid port service "open") m1
  | None => m1
  end.

Definition scan_finished (res : ScanResults) (m : t) : t :=
  let m1 := with_buttons true false m in
  let found := pretty (Z.of_nat (length (res_open_ports res))) in
  let m2 := with_display
              (fun d => d ++ ["Scan Complete! Target: " +:+ res_target res
                              +:+ " Ports Scanned: " +:+ pretty (res_start_port res)
                              +:+ "-" +:+ pretty (res_end_port res)
                              +:+ " Open Ports Found: " +:+ found]) m1 in
  let m3 :=
    match current_session_id m2 with
    | Some sid =>
        if sid =? 0 then m2
        else with_db (fun db => Database.update_session db sid res) m2
    | None => m2
    end in
  log "RED_TEAM"
    ("Port scan completed: " +:+ res_target res +:+ " - " +:+ found
     +:+ " open ports") "INFO" m3.

Definition handle_error (error_msg : string) (m : t) : t :=
  let m1 := with_display (fun d => d ++ ["[ERROR] " +:+ error_msg]) m in
  let m2 := log "RED_TEAM" ("Scan error: " +:+ error_msg) "ERROR" m1 in
  with_buttons true false m2.

(** The connections made in [start_scan]. *)
Definition slot (s : signal) (m : t) : t :=
  match s with
  | progress_update v => update_progress v m
  | result_update tgt port service => display_result tgt port service m
  | scan_complete res => scan_finished res m
  | error_occurred msg => handle_error msg m
  end.

Definition pending (m : t) : list signal :=
  match scanner_thread m with
  | Some th => drop (delivered m) (emitted th)
  | None => []
  end.

(** The event loop delivers every queued signal, in emission order. *)
Definition process_events (m : t) : t :=
  let m1 := foldl (fun acc s => slot s acc) m (pending m) in
  with_thread (scanner_thread m1)
    (match scanner_thread m1 with
     | Some th => length (emitted th)
     | None => delivered m1
     end) m1.

(** The scanner thread takes one step while the controller is idle. *)
Definition thread_step (net : network) (m : t) : t :=
  with_thread (run_step net <$> scanner_thread m) (delivered m) m.

(** The state of the scan as the session table records it. *)
Definition session_status (m : t) : option string :=
  sid ← current_session_id m;
  Database.status <$> Database.get_session_by_id (db_manager m) sid.

End RedTeamModule.

(** ** [web_ui.py]: the job store and its worker threads *)
Module WebUI.

(** A value of the [jobs] dictionary. [finished] tells whether the key
    ['finished_at'] has been set. *)
Record job := {
  status : string;
  progress : Z;
  open_ports : list Z;
  session_id : Z;
  finished : bool
}.

(** The local variables of one [scan_worker] call; [next_port] is the value
    the [for] loop takes next and [returned] tells that the call is over. *)
Record worker := {
  w_session_id : Z;
  w_target : string;
  w_start_port : Z;
  w_end_port : Z;
  w_timeout : spec_float;
  w_open_ports : list Z;
  w_scanned : Z;
  next_port : Z;
  returned : bool
}.

(** The module-level state: [db], [logger], [jobs], [job_counter], and the
    worker threads, one per job identifier. *)
Record state := {
  db : Database.DatabaseManager;
  logger : Logger.AuditLogger;
  jobs : gmap string job;
  job_counter : Z;
  workers : gmap string worker
}.

(** The module when it is first loaded on a machine: no database file and no
    audit log yet. *)
Definition initial : state :=
  {| db := Database.empty; logger := []; jobs := ∅; job_counter := 0;
     workers := ∅ |}.

(** The JSON body of [POST /api/scan]; a missing key is [None]. *)
Record request := {
  body_target : option string;
  body_start_port : option Z;
  body_end_port : option Z;
  body_timeout : option spec_float
}.

Inductive response :=
  | started (job_id : string)                               (* 200 *)
  | status_of (st : string) (progress : Z) (ports : list Z) (* 200 *)
  | error (code : Z) (msg : string).

(** [api_start_scan], from the test of the target on: the conversions that
    come before it are in [WebBody]. The request is one step: requests are
    taken one after the other. *)
Definition api_start_scan (req : request) (s : state) : response * state :=
  let tgt := default ""%string (body_target req) in
  let start_port := default 1 (body_start_port req) in
  let end_port := default 1024 (body_end_port req) in
  let tmo := default (Float64.float_of_int 1) (body_timeout req) in
  if String.eqb tgt "" then (error 400 "target required", s)
  else
    let '(sid, db') :=
      Database.create_session (db s) "red_team" tgt (start_port, end_port) in
    let counter := job_counter s + 1 in
    let job_id := "job-" +:+ pretty counter in
    let j := {| status := "running"; progress := 0; open_ports := [];
                session_id := sid; finished := false |} in
    let w := {| w_session_id := sid; w_target := tgt;
                w_start_port := start_port; w_end_port := end_port;
                w_timeout := tmo; w_open_ports := []; w_scanned := 0;
                next_port := start_port; returned := false |} in
    (started job_id,
     {| db := db';
        logger := Logger.log_event (logger s) "RED_TEAM"
                    ("Port scan started: " +:+ tgt +:+ " ports "
                     +:+ pretty start_port +:+ "-" +:+ pretty end_port) "INFO";
        jobs := <[job_id := j]> (jobs s);
        job_counter := counter;
        workers := <[job_id := w]> (workers s) |}).

(** [sock.settimeout(timeout)] raises [ValueError] for a NaN and for a
    negative timeout, and [OverflowError] when the timeout in nanoseconds,
    [timeout * 1e9] as a float, does not fit 64 bits. *)
Definition settimeout_raises (timeout : spec_float) : bool :=
  match timeout with
  | S754_nan => true
  | _ =>
      SFltb timeout (S754_zero false)
      || SFleb (Float64.float_of_int (2 ^ 63))
           (SFmul Float64.prec Float64.emax timeout (Float64.float_of_int (10 ^ 9)))
  end.

(** What one pass through the [try] block does: [Some true] when the port
    answered, [Some false] when it did not, [None] when an exception was
    raised (by [settimeout], or by [connect_ex] on a resolution or another
    socket error). The handler logs the exception, whose text is left out of
    the logged message here, and the loop goes on. *)
Definition attempt (net : network) (w : worker) (port : Z) : option bool :=
  if settimeout_raises (w_timeout w) then None
  else match net (w_target w) port with
       | connected => Some true
       | refused => Some false
       | gaierror => None
       | other_error => None
       end.

Definition set_progress (p : Z) (j : job) : job :=
  {| status := status j; progress := p; open_ports := open_ports j;
     session_id := session_id j; finished := finished j |}.

Definition complete (ports : list Z) (j : job) : job :=
  {| status := "completed"; progress := progress j; open_ports := ports;
     session_id := session_id j; finished := true |}.

(** One step of the worker of [job_id]: one iteration of the loop, or, once
    the range is exhausted, the code after the loop. *)
Definition worker_step (net : network) (job_id : string) (s : state) : state :=
  match workers s !! job_id with
  | None => s
  | Some w =>
      if returned w then s
      else if next_port w <=? w_end_port w then
        let port := next_port w in
        let res := attempt net w port in
        let db1 :=
          match res with
          | Some true =>
              Database.store_scan_result (db s) (w_session_id w) port "unknown" "open"
          | _ => db s
          end in
        let ports1 :=
          match res with
          | Some true => w_open_ports w ++ [port]
          | _ => w_open_ports w
          end in
        let logger1 :=
          match res with
          | None => Logger.log_event (logger s) "RED_TEAM" "Scan error" "ERROR"
          | _ => logger s
          end in
        let scanned := w_scanned w + 1 in
        let total := w_end_port w - w_start_port w + 1 in
        let w1 := {| w_session_id := w_session_id w; w_target := w_target w;
                     w_start_port := w_start_port w; w_end_port := w_end_port w;
                     w_timeout := w_timeout w; w_open_ports := ports1;
                     w_scanned := scanned; next_port := port + 1;
                     returned := false |} in
        match progress_percent scanned total with
        | inr p =>
            {| db := db1; logger := logger1;
               jobs := alter (set_progress p) job_id (jobs s);
               job_counter := job_counter s;
               workers := <[job_id := w1]> (workers s) |}
        | inl _ =>
            (* an uncaught exception ends the thread *)
            {| db := db1; logger := logger1; jobs := jobs s;
               job_counter := job_counter s;
               workers := <[job_id :=
                 {| w_session_id := w_session_id w; w_target := w_target w;
                    w_start_port := w_start_port w; w_end_port := w_end_port w;
                    w_timeout := w_timeout w; w_open_ports := ports1;
                    w_scanned := scanned; next_port := port;
                    returned := true |}]> (workers s) |}
        end
      else
        {| db := db s;
           logger := Logger.log_event (logger s) "RED_TEAM"
                       ("Port scan completed: " +:+ w_target w +:+ " - "
                        +:+ pretty (Z.of_nat (length (w_open_ports w)))
                        +:+ " open ports") "INFO";
           jobs := alter (complete (w_open_ports w)) job_id (jobs s);
           job_counter := job_counter s;
           workers := <[job_id :=
             {| w_session_id := w_session_id w; w_target := w_target w;
                w_start_port := w_start_port w; w_end_port := w_end_port w;
                w_timeout := w_timeout w; w_open_ports := w_open_ports w;
                w_scanned := w_scanned w; next_port := next_port w;
                returned := true |}]> (workers s) |}
  end.

(** [api_scan_status] *)
Definition api_scan_status (job_id : string) (s : state) : response :=
  match jobs s !! job_id with
  | None => error 404 "job not found"
  | Some j => status_of (status j) (progress j) (open_ports j)
  end.

(** What can happen to the store: a request starts a scan, or some worker
    takes a step. Status queries do not change the state. *)
Inductive event :=
  | ev_start (req : request)
  | ev_worker (job_id : string).

Definition apply_event (net : network) (s : state) (e : event) : state :=
  match e with
  | ev_start req => (api_start_scan req s).2
  | ev_worker job_id => worker_step net job_id s
  end.

Definition run_events (net : network) (es : list event) : state :=
  foldl (apply_event net) initial es.

End WebUI.

(** ** [web_ui.py]: the body of a creation request *)
Module WebBody.

(** A value of the body, as [request.get_json()] builds it from JSON
    text. *)
#[warnings="-register-all"] Inductive json :=
  | json_null
  | json_bool (b : bool)
  | json_int (n : Z)
  | json_float (x : spec_float)
  | json_string (s : string)
  | json_array (items : list json)
  | json_object (members : list (string * json)).

(** [d.get(key)] on the dictionary built from the members of an object: the
    last member of that name counts. *)
Fixpoint get (key : string) (members : list (string * json)) : option json :=
  match members with
  | [] => None
  | (k, v) :: rest =>
      match get key rest with
      | Some v' => Some v'
      | None => if String.eqb k key then Some v else None
      end
  end.

(** [bool(v)] *)
Definition truth (v : json) : bool :=
  match v with
  | json_null => false
  | json_bool b => b
  | json_int n => negb (n =? 0)
  | json_float x => negb (SFeqb x (S754_zero false))
  | json_string s => negb (String.eqb s "")
  | json_array items => match items with [] => false | _ => true end
  | json_object members => match members with [] => false | _ => true end
  end.

Section Conversions.

(** What [int] and [float] read from a string is left open. *)
Variable int_of_str : string -> option Z.
Variable float_of_str : string -> option spec_float.

(** [int(v)]; [None] when it raises: [TypeError] for [None], a list or a
    dictionary, [ValueError] or [OverflowError] for a float that is no
    number or infinite. *)
Definition int (v : json) : option Z :=
  match v with
  | json_null => None
  | json_bool b => Some (if b then 1 else 0)
  | json_int n => Some n
  | json_float x =>
      match Float64.int_of_float x with
      | inr n => Some n
      | inl _ => None
      end
  | json_string s => int_of_str s
  | json_array _ => None
  | json_object _ => None
  end.

(** [float(v)]; [None] when it raises: [TypeError] as for [int],
    [OverflowError] for an integer beyond the floats. *)
Definition float (v : json) : option spec_float :=
  match v with
  | json_null => None
  | json_bool b => Some (Float64.float_of_int (if b then 1 else 0))
  | json_int n =>
      match Float64.float_of_int n with
      | S754_infinity _ => None
      | x => Some x
      end
  | json_float x => Some x
  | json_string s => float_of_str s
  | json_array _ => None
  | json_object _ => None
  end.

(** Lines 295 to 297 of [api_start_scan]: the three conversions, each on the
    member of the body or on its default. *)
Definition conversions (members : list (string * json))
  : option (Z * Z * spec_float) :=
  start_port ← int (default (json_int 1) (get "start_port" members));
  end_port ← int (default (json_int 1024) (get "end_port" members));
  timeout ← float (default (json_float (Float64.float_of_int 1))
                     (get "timeout" members));
  Some (start_port, end_port, timeout).

(** [api_start_scan] on the body of the request. An exception that nothing
    catches ends the request with status 500: [body.get] on a body that is
    no object, or one of the conversions, which come before the test of the
    target. A target that is true and is no string goes on into
    [create_session] and the worker, where this model does not follow it:
    [None]. *)
Definition api_start_scan (body : json) (s : WebUI.state)
  : option (WebUI.response * WebUI.state) :=
  match body with
  | json_object members =>
      let target := get "target" members in
      match conversions members with
      | None => Some (WebUI.error 500 "Internal Server Error", s)
      | Some (start_port, end_port, timeout) =>
          let request_of target :=
            {| WebUI.body_target := target;
               WebUI.body_start_port := Some start_port;
               WebUI.body_end_port := Some end_port;
               WebUI.body_timeout := Some timeout |} in
          match target with
          | None => Some (WebUI.api_start_scan (request_of None) s)
          | Some (json_string t) => Some (WebUI.api_start_scan (request_of (Some t)) s)
          | Some v =>
              if truth v then None
              else Some (WebUI.error 400 "target required", s)
          end
      end
  | _ => Some (WebUI.error 500 "Internal Server Error", s)
  end.

End Conversions.

End WebBody.

(** ** [blue_team.py] *)
Module BlueTeam.

(** The dictionary of thresholds and the dictionary [collect_system_stats]
    returns, by their keys. *)
Record thresholds := {
  cpu_percent : spec_float;
  memory_percent : spec_float;
  disk_percent : spec_float
}.

Record stats := {
  stats_cpu_percent : spec_float;
  stats_memory_percent : spec_float;
  stats_disk_percent : spec_float;
  network_connections : Z;
  running_processes : Z
}.

(** What [alert_generated] carries and [add_alert] stores. *)
Record alert := {
  severity : string;
  category : string;
  message : string
}.

(** Dictionaries are objects: a variable holds a reference into a store,
    and two variables may hold the same reference. *)
Abbreviation store := (gmap positive thresholds).

Record SystemMonitorThread := {
  check_interval : Z;
  is_running : bool;
  thresholds_ref : positive
}.

Definition default_thresholds : thresholds :=
  {| cpu_percent := Float64.float_of_int 80;
     memory_percent := Float64.float_of_int 85;
     disk_percent := Float64.float_of_int 90 |}.

(** [SystemMonitorThread.__init__]: the dictionary literal is a new object. *)
Definition init (interval : Z) (h : store) : SystemMonitorThread * store :=
  let r := fresh (dom h) in
  ({| check_interval := interval; is_running := true; thresholds_ref := r |},
   <[r := default_thresholds]> h).

(** The three tests of [check_thresholds], on the dictionary itself. *)
Definition evaluate (t : thresholds) (s : stats) : list alert :=
  (if Float64.gt (stats_cpu_percent s) (cpu_percent t)
   then [ {| severity := "HIGH"; category := "CPU";
             message := "CPU usage critical: "
                        +:+ Float64.format_1f (stats_cpu_percent s) +:+ "%" |} ]
   else [])
  ++
  (if Float64.gt (stats_memory_percent s) (memory_percent t)
   then [ {| severity := "HIGH"; category := "Memory";
             message := "Memory usage critical: "
                        +:+ Float64.format_1f (stats_memory_percent s) +:+ "%" |} ]
   else [])
  ++
  (if Float64.gt (stats_disk_percent s) (disk_percent t)
   then [ {| severity := "CRITICAL"; category := "Disk";
             message := "Disk usage critical: "
                        +:+ Float64.format_1f (stats_disk_percent s) +:+ "%" |} ]
   else []).

(** [SystemMonitorThread.check_thresholds]: the alerts emitted, in order. *)
Definition check_thresholds (h : store) (th : SystemMonitorThread) (s : stats)
  : list alert :=
  match h !! thresholds_ref th with
  | Some t => evaluate t s
  | None => []
  end.

(** [SystemMonitorThread.update_thresholds]: the attribute is rebound to the
    caller's dictionary; nothing is copied. *)
Definition update_thresholds (th : SystemMonitorThread) (r : positive)
  : SystemMonitorThread :=
  {| check_interval := check_interval th; is_running := is_running th;
     thresholds_ref := r |}.

(** The caller assigns to a key of a dictionary it holds. *)
Inductive key := key_cpu | key_memory | key_disk.

Definition assign (k : key) (v : spec_float) (t : thresholds) : thresholds :=
  match k with
  | key_cpu => {| cpu_percent := v; memory_percent := memory_percent t;
                  disk_percent := disk_percent t |}
  | key_memory => {| cpu_percent := cpu_percent t; memory_percent := v;
                     disk_percent := disk_percent t |}
  | key_disk => {| cpu_percent := cpu_percent t; memory_percent := memory_percent t;
                   disk_percent := v |}
  end.

Definition setitem (r : positive) (k : key) (v : spec_float) (h : store) : store :=
  alter (assign k v) r h.

(** *** The process monitor *)

Record process := {
  pid : Z;
  name : string;
  user : string;
  memory : option spec_float
}.

Record ProcessMonitorThread := {
  scan_interval : Z;
  pm_is_running : bool;
  known_processes : gset Z
}.

(** [ProcessMonitorThread.__init__] *)
Definition pm_init (interval : Z) : ProcessMonitorThread :=
  {| scan_interval := interval; pm_is_running := true; known_processes := ∅ |}.

Definition suspicious_keywords : list string :=
  ["hack"; "crack"; "exploit"; "backdoor"; "keylog"].

(** [ProcessMonitorThread.is_suspicious] *)
Definition is_suspicious (process_name : string) : bool :=
  existsb (fun keyword => contains keyword (lower process_name))
    suspicious_keywords.

(** The inner loop of [detect_new_processes] for one [pid]: the first entry
    with that [pid] is examined and the loop is left. What is returned are
    the [suspicious_process] signals, as (name, reason). *)
Definition examine (processes : list process) (p : Z) : list (string * string) :=
  match List.find (fun proc => pid proc =? p) processes with
  | Some proc =>
      if is_suspicious (name proc)
      then [(name proc, "New process detected"%string)]
      else []
  | None => []
  end.

(** [ProcessMonitorThread.detect_new_processes]. The new identifiers are
    visited in the iteration order of the set, [elements]. *)
Definition detect_new_processes (processes : list process)
    (th : ProcessMonitorThread) : list (string * string) * ProcessMonitorThread :=
  let current_pids : gset Z := list_to_set (pid <$> processes) in
  let new_pids := current_pids ∖ known_processes th in
  let signals :=
    if bool_decide (known_processes th ≠ ∅) && bool_decide (new_pids ≠ ∅)
    then elements new_pids ≫= examine processes
    else [] in
  (signals,
   {| scan_interval := scan_interval th; pm_is_running := pm_is_running th;
      known_processes := current_pids |}).

(** [BlueTeamModule.handle_suspicious_process] calls [add_alert] with these
    arguments. *)
Definition handle_suspicious_process (sig : string * string) : alert :=
  {| severity := "HIGH"; category := "Process";
     message := "Suspicious: " +:+ sig.1 +:+ " - " +:+ sig.2 |}.

(** [BlueTeamModule.add_alert], on the alert list, the table of the
    database and the audit log. *)
Record module := {
  alerts : list alert;
  db_manager : Database.DatabaseManager;
  audit_logger : Logger.AuditLogger
}.

Definition add_alert (a : alert) (m : module) : module :=
  {| alerts := alerts m ++ [a];
     db_manager := Database.store_alert (db_manager m)
                     (severity a) (category a) (message a);
     audit_logger := Logger.log_event (audit_logger m) "BLUE_TEAM"
                       ("Alert: [" +:+ severity a +:+ "] " +:+ category a
                        +:+ " - " +:+ message a) "WARNING" |}.

(** One tick of the process monitor: the alerts it raises. *)
Definition process_tick (processes : list process) (th : ProcessMonitorThread)
  : list alert * ProcessMonitorThread :=
  let '(signals, th') := detect_new_processes processes th in
  (handle_suspicious_process <$> signals, th').


End BlueTeam.

(** ** Further Python values *)

(** [s[start:]] on a list. *)
Definition slice_from {A} (start : Z) (l : list A) : list A :=
  let n := Z.of_nat (length l) in
  drop (Z.to_nat (if start <? 0 then Z.max (start + n) 0 else Z.min start n)) l.

Fixpoint spaces (n : nat) : string :=
  match n with
  | O => EmptyString
  | S n' => String " " (spaces n')
  end.

(** [f"{s:<width}"]: padded with spaces on the right. *)
Definition ljust (width : nat) (s : string) : string :=
  s +:+ spaces (width - String.length s).

(** [if s:] for an optional string argument: [None] and [''] are false. *)
Definition truthy (s : option string) : bool :=
  match s with
  | Some s' => negb (String.eqb s' "")
  | None => false
  end.

(** ** [logger.py]: the audit logger with its lock, its buffer and its file *)
Module AuditLog.

(** The keys of [LEVELS]. *)
Definition LEVELS : list string :=
  ["DEBUG"; "INFO"; "WARNING"; "ERROR"; "CRITICAL"].

Record log_entry := {
  category : string;
  level : string;
  message : string;
  extra_data : option (gmap string string)
}.

(** The attributes of the logger, [lock] telling whether [self.lock] is
    held, and the size in bytes of the file at [log_file], if it exists. *)
Record AuditLogger := {
  log_file : string;
  max_size_bytes : Z;
  lock : bool;
  memory_buffer : list log_entry;
  max_memory_logs : Z;
  file_size : option Z
}.

(** A call either returns, or never does: the thread waits for [self.lock]
    for ever. In both cases the attributes are left in some state. *)
Inductive outcome (A : Type) :=
  | returns (a : A) (lg : AuditLogger)
  | blocks (lg : AuditLogger).
Arguments returns {A} a lg.
Arguments blocks {A} lg.

Definition state_of {A} (o : outcome A) : AuditLogger :=
  match o with
  | returns _ lg => lg
  | blocks lg => lg
  end.

Definition and_then {A B} (o : outcome A) (f : A -> AuditLogger -> outcome B)
  : outcome B :=
  match o with
  | returns a lg => f a lg
  | blocks lg => blocks lg
  end.

Definition set_lock (b : bool) (lg : AuditLogger) : AuditLogger :=
  {| log_file := log_file lg; max_size_bytes := max_size_bytes lg; lock := b;
     memory_buffer := memory_buffer lg; max_memory_logs := max_memory_logs lg;
     file_size := file_size lg |}.

Definition set_buffer (buf : list log_entry) (lg : AuditLogger) : AuditLogger :=
  {| log_file := log_file lg; max_size_bytes := max_size_bytes lg; lock := lock lg;
     memory_buffer := buf; max_memory_logs := max_memory_logs lg;
     file_size := file_size lg |}.

Definition set_file (size : option Z) (lg : AuditLogger) : AuditLogger :=
  {| log_file := log_file lg; max_size_bytes := max_size_bytes lg; lock := lock lg;
     memory_buffer := memory_buffer lg; max_memory_logs := max_memory_logs lg;
     file_size := size |}.

(** [with self.lock:] around [body]. [threading.Lock] is not reentrant: when
    the lock is held the statement waits; the holder being the very thread
    that waits, or a thread that itself waits for ever, nobody releases
    it. *)
Definition with_lock {A} (body : AuditLogger -> outcome A) (lg : AuditLogger)
  : outcome A :=
  if lock lg then blocks lg
  else match body (set_lock true lg) with
       | returns a lg' => returns a (set_lock false lg')
       | blocks lg' => blocks lg'
       end.

(** The bytes one record takes in the file, its format being
    ['%(asctime)s | %(levelname)-8s | %(category)s | %(message)s'] with a
    time of 19 characters, and a newline. *)
Definition record_bytes (lvl cat msg : string) : Z :=
  Z.of_nat (19 + 3 + String.length (ljust 8 lvl) + 3 + String.length cat
            + 3 + String.length msg + 1).

(** [logging.FileHandler(self.log_file)] opens the file for appending,
    creating it when it is missing. *)
Definition open_file (lg : AuditLogger) : AuditLogger :=
  set_file (Some (default 0 (file_size lg))) lg.

(** The handler writes one record. *)
Definition write (n : Z) (lg : AuditLogger) : AuditLogger :=
  set_file (Z.add n <$> file_size lg) lg.

(** [Path(self.log_file).rename(...)], done when the file exists. *)
Definition rename (lg : AuditLogger) : AuditLogger := set_file None lg.

(** [setup_logger], [rotate_log_file], [check_rotation] and [log_event] call
    one another. Each is written over [log], the [log_event] it calls (with
    [extra_data] left to its default); the knot is tied below. *)
Section Methods.

Variable log : string -> string -> string -> AuditLogger -> outcome unit.

Definition setup_logger_with (lg : AuditLogger) : outcome unit :=
  log "SYSTEM" "Audit logger initialized" "INFO" (open_file lg).

Definition rotate_log_file_with (lg : AuditLogger) : outcome unit :=
  let rotated_name := log_file lg +:+ "." in
  and_then (setup_logger_with (rename lg))
    (fun _ lg' => log "SYSTEM" ("Log file rotated to " +:+ rotated_name) "INFO" lg').

Definition check_rotation_with (lg : AuditLogger) : outcome unit :=
  match file_size lg with
  | Some size =>
      if max_size_bytes lg <=? size then rotate_log_file_with lg
      else returns tt lg
  | None => returns tt lg
  end.

Definition log_event_with (cat msg lvl : string)
    (extra : option (gmap string string)) (lg : AuditLogger) : outcome unit :=
  with_lock (fun lg1 =>
    let lvl' := if bool_decide (lvl ∈ LEVELS) then lvl else "INFO"%string in
    let entry := {| category := cat; level := lvl'; message := msg;
                    extra_data := extra |} in
    let buf := memory_buffer lg1 ++ [entry] in
    let buf' := if max_memory_logs lg1 <? Z.of_nat (length buf)
                then drop 1 buf else buf in
    let lg2 := write (record_bytes lvl' cat msg) (set_buffer buf' lg1) in
    check_rotation_with lg2) lg.

End Methods.

(** The recursion never goes deeper than two calls: a [log_event] reached
    from another one finds the lock held. [log_event_unfold] below shows
    that [log_event] so defined satisfies the recursive equation of the
    source. *)
Definition log_event_nested (cat msg lvl : string) (lg : AuditLogger)
  : outcome unit :=
  log_event_with (fun _ _ _ lg' => blocks lg') cat msg lvl None lg.

Definition log_event (cat msg lvl : string) (extra : option (gmap string string))
    (lg : AuditLogger) : outcome unit :=
  log_event_with log_event_nested cat msg lvl extra lg.

Definition setup_logger : AuditLogger -> outcome unit :=
  setup_logger_with (fun cat msg lvl => log_event cat msg lvl None).

Definition rotate_log_file : AuditLogger -> outcome unit :=
  rotate_log_file_with (fun cat msg lvl => log_event cat msg lvl None).

Definition check_rotation : AuditLogger -> outcome unit :=
  check_rotation_with (fun cat msg lvl => log_event cat msg lvl None).

(** [AuditLogger.__init__]; [on_disk] is the size of the file found at
    [log_file], if there is one. *)
Definition init (file : string) (max_size_mb : Z) (on_disk : option Z)
  : outcome unit :=
  setup_logger
    {| log_file := file; max_size_bytes := max_size_mb * 1024 * 1024;
       lock := false; memory_buffer := []; max_memory_logs := 1000;
       file_size := on_disk |}.

(** [log_security_event] *)
Definition log_security_event (event_type details severity : string)
    (lg : AuditLogger) : outcome unit :=
  let msg := "Security Event: " +:+ event_type +:+ " - " +:+ details in
  let level_map : gmap string string :=
    {[ "LOW" := "INFO"; "MEDIUM" := "WARNING"; "HIGH" := "ERROR";
       "CRITICAL" := "CRITICAL" ]}%string in
  let lvl := default "WARNING"%string (level_map !! severity) in
  log_event "SECURITY" msg lvl
    (Some {[ "severity" := severity; "event_type" := event_type ]}%string) lg.

(** [log_user_action] *)
Definition log_user_action (action user result : string) (lg : AuditLogger)
  : outcome unit :=
  let lvl := if String.eqb result "success" then "INFO" else "WARNING" in
  log_event "USER_ACTION" (user +:+ ": " +:+ action) lvl
    (Some {[ "user" := user; "result" := result ]}%string) lg.

(** [log_network_activity] *)
Definition log_network_activity (activity_type source destination : string)
    (details : option (gmap string string)) (lg : AuditLogger) : outcome unit :=
  let msg := activity_type +:+ ": " +:+ source +:+ " -> " +:+ destination in
  let extra : gmap string string :=
    {[ "source" := source; "destination" := destination;
       "activity_type" := activity_type ]}%string in
  let extra' := match details with
                | Some d => d ∪ extra     (* [extra_data.update(details)] *)
                | None => extra
                end in
  log_event "NETWORK" msg "INFO" (Some extra') lg.

(** [log_system_change] *)
Definition log_system_change (change_type description component : string)
    (lg : AuditLogger) : outcome unit :=
  log_event "SYSTEM_CHANGE" description "WARNING"
    (Some {[ "change_type" := change_type; "component" := component ]}%string) lg.

(** [log_error] *)
Definition log_error (error_type error_message : string)
    (stack_trace : option string) (lg : AuditLogger) : outcome unit :=
  let extra : gmap string string := {[ "error_type" := error_type ]}%string in
  let extra' := if truthy stack_trace
                then <["stack_trace"%string := default ""%string stack_trace]> extra
                else extra in
  log_event "ERROR" (error_type +:+ ": " +:+ error_message) "ERROR" (Some extra') lg.

(** One line of [get_recent_logs], after its time stamp. *)
Definition format_log (e : log_entry) : string :=
  " | " +:+ ljust 8 (level e) +:+ " | " +:+ ljust 12 (category e)
  +:+ " | " +:+ message e.

(** The entries [get_recent_logs] selects. *)
Definition recent (limit : Z) (cat lvl : option string) (buf : list log_entry)
  : list log_entry :=
  let logs1 := if truthy cat
               then filter (fun e => Some (category e) = cat) buf else buf in
  let logs2 := if truthy lvl
               then filter (fun e => Some (level e) = lvl) logs1 else logs1 in
  slice_from (- limit) logs2.

(** [get_recent_logs] *)
Definition get_recent_logs (limit : Z) (cat lvl : option string)
    (lg : AuditLogger) : outcome (list string) :=
  with_lock (fun lg1 =>
    returns (format_log <$> recent limit cat lvl (memory_buffer lg1)) lg1) lg.

(** [clear_logs] *)
Definition clear_logs (lg : AuditLogger) : outcome unit :=
  with_lock (fun lg1 =>
    let lg2 := set_buffer [] lg1 in
    let lg3 := match file_size lg2 with
               | Some _ => rename lg2
               | None => lg2
               end in
    setup_logger lg3) lg.

(** [get_statistics] *)
Record statistics := {
  total_logs : Z;
  by_category : gmap string Z;
  by_level : gmap string Z
}.

Definition count_up (k : string) (m : gmap string Z) : gmap string Z :=
  <[k := default 0 (m !! k) + 1]> m.

Definition get_statistics (lg : AuditLogger) : outcome statistics :=
  with_lock (fun lg1 =>
    returns
      (foldl (fun st e =>
                {| total_logs := total_logs st;
                   by_category := count_up (category e) (by_category st);
                   by_level := count_up (level e) (by_level st) |})
             {| total_logs := Z.of_nat (length (memory_buffer lg1));
                by_category := ∅; by_level := ∅ |}
             (memory_buffer lg1)) lg1) lg.

End AuditLog.

(** ** [database.py]: the figures shown on the dashboard *)
Module DatabaseReports.


(** The dictionary [get_session_statistics] returns, but for
    ['last_activity'], which is a time stamp. *)
Record session_statistics := {
  total_sessions : Z;
  red_team_sessions : Z;
  blue_team_sessions : Z;
  total_alerts : Z
}.




End DatabaseReports.

(** ** [web_ui.py]: the pages that read the database *)
Module WebPages.

Inductive reply :=
  | stats_json (st : DatabaseReports.session_statistics)
  | session_json (session : Database.session_row)
      (results : list Database.scan_result_row)
  | not_found                                             (* 404 *)
  | server_error.                                         (* 500 *)


(** [api_session], as a relation from the request to the replies it may
    get. The route [<int:session_id>] takes digits only, so a negative
    number is answered 404 before the function is called; a number that is
    not of 64 bits makes [get_session_by_id] raise [OverflowError], which
    Flask answers with 500. *)
Definition api_session (session_id : Z) (s : WebUI.state) (r : reply) : Prop :=
  if session_id <? 0 then r = not_found
  else if session_id <? 2 ^ 63 then
    match Database.get_session_by_id (WebUI.db s) session_id with
    | None => r = not_found
    | Some session =>
        exists results,
          Database.get_session_results (WebUI.db s) session_id results
          /\ r = session_json session results
    end
  else r = server_error.

End WebPages.

(** ** [blue_team.py]: the alert list of the controller *)
Module BlueTeamModule.

(** [BlueTeamModule.clear_alerts]; [yes] is the answer given to the
    question box. *)
Definition clear_alerts (yes : bool) (m : BlueTeam.module) : BlueTeam.module :=
  if yes then
    {| BlueTeam.alerts := [];
       BlueTeam.db_manager := BlueTeam.db_manager m;
       BlueTeam.audit_logger :=
         Logger.log_event (BlueTeam.audit_logger m) "BLUE_TEAM"
           "Alerts cleared by user" "INFO" |}
  else m.

(** What reaches the controller: an alert from one of its threads
    ([alert_generated] and [suspicious_process] are both connected to
    [add_alert]), or a click on the button that clears the list. *)
Inductive event :=
  | ev_alert (a : BlueTeam.alert)
  | ev_clear (yes : bool).

Definition handle (m : BlueTeam.module) (e : event) : BlueTeam.module :=
  match e with
  | ev_alert a => BlueTeam.add_alert a m
  | ev_clear yes => clear_alerts yes m
  end.

End BlueTeamModule.

(** ** [database.py]: removing old sessions *)
Module Retention.

(** A [datetime], by its attributes. *)
Record datetime := {
  year : Z;
  month : Z;
  day : Z;
  hour : Z;
  minute : Z;
  second : Z;
  microsecond : Z
}.

Definition is_leap (y : Z) : bool :=
  (y mod 4 =? 0) && (negb (y mod 100 =? 0) || (y mod 400 =? 0)).

Definition days_in_month (y m : Z) : Z :=
  if m =? 2 then (if is_leap y then 29 else 28)
  else if (m =? 4) || (m =? 6) || (m =? 9) || (m =? 11) then 30
  else 31.

(** [d.replace(day=new_day)]: the argument is read into a C [int], which
    raises [OverflowError] beyond 32 bits; then [ValueError] when the month
    of [d] has no such day. *)
Definition replace_day (d : datetime) (new_day : Z) : exn + datetime :=
  if (new_day <? - 2 ^ 31) || (2 ^ 31 <=? new_day) then inl OverflowError
  else if (1 <=? new_day) && (new_day <=? days_in_month (year d) (month d))
  then inr {| year := year d; month := month d; day := new_day; hour := hour d;
              minute := minute d; second := second d;
              microsecond := microsecond d |}
  else inl ValueError.

Fixpoint zeros (n : nat) : string :=
  match n with
  | O => EmptyString
  | S n' => String "0" (zeros n')
  end.

(** [f"{n:0{width}d}"] for [n >= 0]. *)
Definition zfill (width : nat) (n : Z) : string :=
  zeros (width - String.length (pretty n)) +:+ pretty n.

(** [d.isoformat()] *)
Definition isoformat (d : datetime) : string :=
  zfill 4 (year d) +:+ "-" +:+ zfill 2 (month d) +:+ "-" +:+ zfill 2 (day d)
  +:+ "T" +:+ zfill 2 (hour d) +:+ ":" +:+ zfill 2 (minute d) +:+ ":"
  +:+ zfill 2 (second d)
  +:+ (if microsecond d =? 0 then "" else "." +:+ zfill 6 (microsecond d)).

(** The two tables as [delete_old_sessions] uses them: a session with its
    [id] and [start_time], a scan result with its [session_id]. *)
Record session := {
  id : Z;
  start_time : string;
  columns : Database.session_row
}.

Record tables := {
  sessions : list session;
  scan_results : list Database.scan_result_row
}.

(** [delete_old_sessions]; [now] and [now'] are the two readings of the
    clock, in the order in which they are taken. An exception leaves the
    tables as they were: nothing has been executed yet. *)
Definition delete_old_sessions (now now' : datetime) (days : Z) (t : tables)
  : exn + Z * tables :=
  match replace_day now (day now' - days) with
  | inl e => inl e
  | inr cutoff =>
      let cutoff_date := isoformat cutoff in
      let old := filter (fun s => String.ltb (start_time s) cutoff_date) (sessions t) in
      let scan_results' :=
        filter (fun r => Database.sr_session_id r ∉ id <$> old) (scan_results t) in
      let sessions' :=
        filter (fun s => ¬ String.ltb (start_time s) cutoff_date) (sessions t) in
      inr (Z.of_nat (length old),
           {| sessions := sessions'; scan_results := scan_results' |})
  end.

End Retention.

(** ** [database.py]: the tables as SQLite keeps them *)
Module Storage.

(** The integers [sqlite3] binds to a parameter: beyond 64 bits it raises
    [OverflowError] before the statement is run. *)
Definition int64 (n : Z) : bool := (- 2 ^ 63 <=? n) && (n <? 2 ^ 63).

Inductive error :=
  | integer_overflow    (* [OverflowError] *)
  | database_full.      (* [sqlite3.OperationalError]: database or disk is full *)

(** A row of [scan_results]: its [id], its [timestamp], and the columns the
    engine writes. *)
Record scan_result := {
  result_id : Z;
  timestamp : string;
  columns : Database.scan_result_row
}.

(** The two tables, each with its entry in [sqlite_sequence]: the largest
    [id] the table has ever held, 0 for a table that never held a row. *)
Record t := {
  sessions : list Retention.session;
  sessions_sequence : Z;
  scan_results : list scan_result;
  scan_results_sequence : Z
}.

(** [init_database] on a new file. *)
Definition empty : t :=
  {| sessions := []; sessions_sequence := 0;
     scan_results := []; scan_results_sequence := 0 |}.

(** [INTEGER PRIMARY KEY AUTOINCREMENT]: the [id] of a new row is one more
    than the largest the table has ever held, and there is none when that is
    the largest integer. *)
Definition next_rowid (ids : list Z) (sequence : Z) : option Z :=
  let largest := foldr Z.max sequence ids in
  if largest <? 2 ^ 63 - 1 then Some (largest + 1) else None.

(** [create_session]; [now] is the text of [datetime.now().isoformat()]. *)
Definition create_session (now : string) (ty tgt : string) (cfg : Z * Z) (st : t)
  : error + Z * t :=
  match next_rowid (Retention.id <$> sessions st) (sessions_sequence st) with
  | None => inl database_full
  | Some session_id =>
      inr (session_id,
           {| sessions :=
                sessions st
                ++ [ {| Retention.id := session_id; Retention.start_time := now;
                        Retention.columns :=
                          {| Database.session_type := ty; Database.target := tgt;
                             Database.config := cfg; Database.results := None;
                             Database.status := "active" |} |} ];
              sessions_sequence := session_id;
              scan_results := scan_results st;
              scan_results_sequence := scan_results_sequence st |})
  end.

Definition finish (res : ScanResults) (s : Retention.session) : Retention.session :=
  {| Retention.id := Retention.id s; Retention.start_time := Retention.start_time s;
     Retention.columns := Database.finish_row res (Retention.columns s) |}.

(** [update_session] *)
Definition update_session (session_id : Z) (res : ScanResults) (st : t) : error + t :=
  if int64 session_id then
    inr {| sessions :=
             (fun s => if Retention.id s =? session_id then finish res s else s)
               <$> sessions st;
           sessions_sequence := sessions_sequence st;
           scan_results := scan_results st;
           scan_results_sequence := scan_results_sequence st |}
  else inl integer_overflow.

(** [get_session_by_id]: [fetchone] gives the first row found. *)
Definition get_session_by_id (session_id : Z) (st : t)
  : error + option Retention.session :=
  if int64 session_id
  then inr (List.find (fun s => Retention.id s =? session_id) (sessions st))
  else inl integer_overflow.

(** [store_scan_result] *)
Definition store_scan_result (now : string) (session_id port : Z)
    (service status : string) (st : t) : error + t :=
  if int64 session_id && int64 port then
    match next_rowid (result_id <$> scan_results st) (scan_results_sequence st) with
    | None => inl database_full
    | Some rid =>
        inr {| sessions := sessions st;
               sessions_sequence := sessions_sequence st;
               scan_results :=
                 scan_results st
                 ++ [ {| result_id := rid; timestamp := now;
                         columns :=
                           {| Database.sr_session_id := session_id;
                              Database.sr_port := port;
                              Database.sr_service := service;
                              Database.sr_status := status |} |} ];
               scan_results_sequence := rid |}
    end
  else inl integer_overflow.

(** The tables as [Retention] has them. *)
Definition tables_of (st : t) : Retention.tables :=
  {| Retention.sessions := sessions st;
     Retention.scan_results := columns <$> scan_results st |}.

(** [delete_old_sessions], as in [Retention]: a [DELETE] leaves
    [sqlite_sequence] as it is. *)
Definition delete_old_sessions (now now' : Retention.datetime) (days : Z) (st : t)
  : exn + Z * t :=
  match Retention.replace_day now (Retention.day now' - days) with
  | inl e => inl e
  | inr cutoff =>
      let cutoff_date := Retention.isoformat cutoff in
      let old :=
        filter (fun s => String.ltb (Retention.start_time s) cutoff_date) (sessions st) in
      inr (Z.of_nat (length old),
           {| sessions :=
                filter (fun s => ¬ String.ltb (Retention.start_time s) cutoff_date)
                  (sessions st);
              sessions_sequence := sessions_sequence st;
              scan_results :=
                filter (fun r => Database.sr_session_id (columns r)
                                 ∉ Retention.id <$> old) (scan_results st);
              scan_results_sequence := scan_results_sequence st |})
  end.

(** What [get_session_results] selects of a row: [timestamp], [port],
    [service], [status]; and [details], which no caller of
    [store_scan_result] gives and is left out. *)
Definition selected (r : scan_result) : string * Z * string * string :=
  (timestamp r, Database.sr_port (columns r), Database.sr_service (columns r),
   Database.sr_status (columns r)).

Definition by_timestamp (a b : string * Z * string * string) : Prop :=
  String.leb a.1.1.1 b.1.1.1 = true.

(** [get_session_results]: the rows of the session, [ORDER BY timestamp].
    SQLite leaves open in which order rows of equal time stamp come, so
    this is a relation between the table and what the call may return. *)
Definition get_session_results (session_id : Z) (st : t)
    (out : error + list (string * Z * string * string)) : Prop :=
  if int64 session_id then
    exists rows,
      out = inr rows
      /\ rows ≡ₚ selected
                 <$> filter (fun r => Database.sr_session_id (columns r) = session_id)
                       (scan_results st)
      /\ Sorted by_timestamp rows
  else out = inl integer_overflow.

End Storage.

(** ** Notions used to state the properties *)

(** The value of the progress expression when it does not raise. *)
Definition percent (scanned total : Z) : Z :=
  match progress_percent scanned total with
  | inr p => p
  | inl _ => 0
  end.

(** What the scanner thread emits for one port, [start_port] and
    [total_ports] being given: the hit, if the port is open, then the
    progress. *)
Definition port_signals (net : network) (tgt : string) (sp total port : Z)
  : list RedTeam.signal :=
  (if String.eqb (RedTeam.scan_port net tgt port) "open"
   then [RedTeam.result_update tgt port (RedTeam.identify_service port)]
   else [])
  ++ [RedTeam.progress_update (percent (port - sp + 1) total)].

Definition is_open (net : network) (tgt : string) (port : Z) : bool :=
  String.eqb (RedTeam.scan_port net tgt port) "open".

Definition progress_values (l : list RedTeam.signal) : list Z :=
  l ≫= fun s => match s with RedTeam.progress_update v => [v] | _ => [] end.

Definition hits (l : list RedTeam.signal) : list (Z * string) :=
  l ≫= fun s => match s with
                | RedTeam.result_update _ port service => [(port, service)]
                | _ => []
                end.

Definition is_terminal (s : RedTeam.signal) : bool :=
  match s with
  | RedTeam.scan_complete _ | RedTeam.error_occurred _ => true
  | _ => false
  end.

(** A run of the scanner thread under interference: the thread steps, or
    somebody calls [stop]. *)
Inductive action :=
  | act_step
  | act_stop.

Definition exec (net : network) (th : RedTeam.PortScannerThread) (a : action)
  : RedTeam.PortScannerThread :=
  match a with
  | act_step => RedTeam.run_step net th
  | act_stop => RedTeam.stop th
  end.

(** Rounding, on integers. [locate r d] is the position of the remainder [r]
    of a division by [d] with respect to one half; [located n d] is the
    quotient together with that position, as [SpecFloat] records it. *)
Definition locate (r d : Z) : location :=
  if r =? 0 then loc_Exact else loc_Inexact (2 * r ?= d).

Definition located (n d : Z) : shr_record :=
  shr_record_of_loc (n / d) (locate (n mod d) d).

(** Values of floats are compared as integers after scaling by [2 ^ K]. *)
Definition K : Z := 200.

(** [f] is the positive normal float of scaled value [v], its exponent
    between [lo] and [hi]. *)
Definition represents (f : spec_float) (v lo hi : Z) : Prop :=
  exists m e, f = S754_finite false m e /\ 2 ^ 52 <= Zpos m < 2 ^ 53 /\
              lo <= e <= hi /\ v = Zpos m * 2 ^ (e + K).

(** [v] is [n / d] rounded to 53 significant bits, ties to even: [b] is the
    weight of the last bit kept. *)
Definition rounds_to (n d v : Z) : Prop :=
  exists b, 0 <= b /\ 2 ^ (52 + b) * d <= n < 2 ^ (53 + b) * d /\
            v = Float64.round_half_even n (d * 2 ^ b) * 2 ^ b.

(** The progress value as two roundings and a truncation. *)
Definition progress_is (s t p : Z) : Prop :=
  exists v v', rounds_to (s * 2 ^ K) t v /\ rounds_to (100 * v) 1 v' /\
               p = v' / 2 ^ K.

(** *** Notions for the further properties *)

(** What can be asked of the logger to record. *)
Inductive log_call :=
  | call_event (cat msg lvl : string) (extra : option (gmap string string))
  | call_security_event (event_type details severity : string)
  | call_user_action (action user result : string)
  | call_network_activity (activity_type source destination : string)
      (details : option (gmap string string))
  | call_system_change (change_type description component : string)
  | call_error (error_type error_message : string) (stack_trace : option string).

Definition perform (c : log_call) (lg : AuditLog.AuditLogger)
  : AuditLog.outcome unit :=
  match c with
  | call_event cat msg lvl extra => AuditLog.log_event cat msg lvl extra lg
  | call_security_event ty d sev => AuditLog.log_security_event ty d sev lg
  | call_user_action a u r => AuditLog.log_user_action a u r lg
  | call_network_activity ty s d x => AuditLog.log_network_activity ty s d x lg
  | call_system_change ty d c => AuditLog.log_system_change ty d c lg
  | call_error ty m st => AuditLog.log_error ty m st lg
  end.

Fixpoint perform_all (cs : list log_call) (lg : AuditLog.AuditLogger)
  : AuditLog.outcome unit :=
  match cs with
  | [] => AuditLog.returns tt lg
  | c :: cs' => AuditLog.and_then (perform c lg) (fun _ => perform_all cs')
  end.

(** The last [n] elements of a list. *)
Definition last_n {A} (n : Z) (l : list A) : list A :=
  drop (Z.to_nat (Z.of_nat (length l) - n)) l.

(** A sequence of [log_event] calls, each made when the one before has
    returned. *)
Fixpoint log_events
    (calls : list (string * string * string * option (gmap string string)))
    (lg : AuditLog.AuditLogger) : AuditLog.outcome unit :=
  match calls with
  | [] => AuditLog.returns tt lg
  | (cat, msg, lvl, extra) :: rest =>
      AuditLog.and_then (AuditLog.log_event cat msg lvl extra lg)
        (fun _ => log_events rest)
  end.

(** The entry a [log_event] call is expected to leave in the buffer. *)
Definition entry_of (call : string * string * string * option (gmap string string))
  : AuditLog.log_entry :=
  let '(cat, msg, lvl, extra) := call in
  {| AuditLog.category := cat;
     AuditLog.level := if bool_decide (lvl ∈ AuditLog.LEVELS) then lvl else "INFO"%string;
     AuditLog.message := msg; AuditLog.extra_data := extra |}.

(** Whether an entry passes the filters of [get_recent_logs]. *)
Definition passes (cat lvl : option string) (e : AuditLog.log_entry) : bool :=
  (negb (truthy cat) || bool_decide (Some (AuditLog.category e) = cat))
  && (negb (truthy lvl) || bool_decide (Some (AuditLog.level e) = lvl)).

(** Whether a log file of that size has reached the size of rotation. *)
Definition full (lg : AuditLog.AuditLogger) (size : option Z) : bool :=
  match size with
  | Some sz => AuditLog.max_size_bytes lg <=? sz
  | None => false
  end.

Definition occurrences (k : string) (keys : list string) : Z :=
  Z.of_nat (length (filter (fun k' => k' = k) keys)).

(** The identifier of the [k]-th job. *)
Definition job_name (k : Z) : string := "job-" +:+ pretty k.

(** Whether a creation request passes the test of [api_start_scan]. *)
Definition accepted (e : WebUI.event) : bool :=
  match e with
  | WebUI.ev_start req =>
      negb (String.eqb (default ""%string (WebUI.body_target req)) "")
  | WebUI.ev_worker _ => false
  end.

(** The web interface when it is loaded: no job yet, the database file and
    the audit log as earlier runs left them. *)
Definition web_start (db0 : Database.DatabaseManager) (lg0 : Logger.AuditLogger)
  : WebUI.state :=
  {| WebUI.db := db0; WebUI.logger := lg0; WebUI.jobs := ∅;
     WebUI.job_counter := 0; WebUI.workers := ∅ |}.

(** The state after a run of requests and worker steps, each taken to its
    end before the next. *)
Definition web_run (net : network) (db0 : Database.DatabaseManager)
    (lg0 : Logger.AuditLogger) (es : list WebUI.event) : WebUI.state :=
  foldl (WebUI.apply_event net) (web_start db0 lg0) es.

(** Every stored hit belongs to a session of the table. *)
Definition results_refer_to_sessions (d : Database.DatabaseManager) : Prop :=
  Forall (fun r => Database.sr_session_id r
                   <= Z.of_nat (length (Database.sessions d)))
    (Database.scan_results d).

(** The rows of [scan_results] of a session, in the order of the table. *)
Definition rows_of (sid : Z) (d : Database.DatabaseManager)
  : list Database.scan_result_row :=
  filter (fun r => Database.sr_session_id r = sid) (Database.scan_results d).

(** The row a worker stores for a port that answered. *)
Definition hit_row (sid port : Z) : Database.scan_result_row :=
  {| Database.sr_session_id := sid; Database.sr_port := port;
     Database.sr_service := "unknown"; Database.sr_status := "open" |}.

(** The scanner thread of a controller runs on to the end of [run], and the
    event loop then delivers what it emitted. *)
Definition finish_scan (net : network) (m : RedTeamModule.t) : RedTeamModule.t :=
  RedTeamModule.process_events
    (RedTeamModule.with_thread
       (RedTeam.wait net <$> RedTeamModule.scanner_thread m)
       (RedTeamModule.delivered m) m).

(** No scan is in flight: the controller has no thread, or the [run] of its
    thread has returned and every signal of it has been delivered. *)
Definition idle (m : RedTeamModule.t) : Prop :=
  match RedTeamModule.scanner_thread m with
  | Some th => RedTeam.isRunning th = false /\ RedTeamModule.pending m = []
  | None => True
  end.

(** The row [display_result] stores for a hit. *)
Definition open_row (sid port : Z) : Database.scan_result_row :=
  {| Database.sr_session_id := sid; Database.sr_port := port;
     Database.sr_service := RedTeam.identify_service port;
     Database.sr_status := "open" |}.

(** The alerts among the events, in order, and the row of an alert in the
    table. *)
Definition raised (es : list BlueTeamModule.event) : list BlueTeam.alert :=
  es ≫= fun e => match e with
                 | BlueTeamModule.ev_alert a => [a]
                 | BlueTeamModule.ev_clear _ => []
                 end.

Definition alert_row_of (a : BlueTeam.alert) : Database.alert_row :=
  {| Database.al_severity := BlueTeam.severity a;
     Database.al_category := BlueTeam.category a;
     Database.al_message := BlueTeam.message a |}.

Definition alert_entry_of (a : BlueTeam.alert) : Logger.log_entry :=
  {| Logger.category := "BLUE_TEAM";
     Logger.message := "Alert: [" +:+ BlueTeam.severity a +:+ "] "
                       +:+ BlueTeam.category a +:+ " - " +:+ BlueTeam.message a;
     Logger.level := "WARNING" |}.

(** Every scan result belongs to a session of the table. *)
Definition referenced (t : Retention.tables) : Prop :=
  forall r, r ∈ Retention.scan_results t ->
    exists s, s ∈ Retention.sessions t /\ Retention.id s = Database.sr_session_id r.

(** A store as [DatabaseManager] keeps it: no two sessions share an [id],
    and [sqlite_sequence] is an integer of 64 bits, not negative and not
    below an [id] of the table. *)
Definition well_kept (st : Storage.t) : Prop :=
  NoDup (Retention.id <$> Storage.sessions st)
  /\ 0 <= Storage.sessions_sequence st < 2 ^ 63
  /\ Forall (fun s => 1 <= Retention.id s <= Storage.sessions_sequence st)
       (Storage.sessions st).

(** A store from which no session was ever deleted: the identifiers are 1,
    2, ... in the order of the table. *)
Definition never_deleted (st : Storage.t) : Prop :=
  Retention.id <$> Storage.sessions st
  = seqZ 1 (Z.of_nat (length (Storage.sessions st)))
  /\ Storage.sessions_sequence st = Z.of_nat (length (Storage.sessions st)).

(** * Properties *)

(** ** Binary64 rounding

    [SpecFloat]'s division and multiplication are followed through their
    shifts and their rounding step to the two facts the scan loops rely on:
    the progress expression never raises on a valid range, and it is
    monotone in the number of ports scanned. *)
Section Rounding.
Import Float64.

Lemma digits2_pos_bounds (p : positive) :
  2 ^ (Zpos (digits2_pos p) - 1) <= Zpos p < 2 ^ Zpos (digits2_pos p).
Proof.
  induction p as [p IH | p IH |]; cbn [digits2_pos].
  - rewrite Pos2Z.inj_succ, Z.pow_succ_r by lia.
    replace (Z.succ (Zpos (digits2_pos p)) - 1) with (Z.succ (Zpos (digits2_pos p) - 1)) by lia.
    rewrite Z.pow_succ_r by lia. lia.
  - rewrite Pos2Z.inj_succ, Z.pow_succ_r by lia.
    replace (Z.succ (Zpos (digits2_pos p)) - 1) with (Z.succ (Zpos (digits2_pos p) - 1)) by lia.
    rewrite Z.pow_succ_r by lia. lia.
  - cbn. lia.
Qed.

Lemma Zdigits2_unique (z k : Z) :
  2 ^ (k - 1) <= z < 2 ^ k -> 1 <= k -> Zdigits2 z = k.
Proof.
  intros [Hlo Hhi] Hk.
  assert (0 < z) by (pose proof (Z.pow_pos_nonneg 2 (k - 1)); lia).
  destruct z as [|p|p]; try lia. cbn [Zdigits2].
  pose proof (digits2_pos_bounds p) as [Hl Hh].
  set (d := Zpos (digits2_pos p)) in *.
  destruct (Z.lt_trichotomy d k) as [Hlt | [-> | Hgt]]; [| reflexivity |].
  - assert (2 ^ d <= 2 ^ (k - 1)) by (apply Z.pow_le_mono_r; lia). lia.
  - assert (2 ^ k <= 2 ^ (d - 1)) by (apply Z.pow_le_mono_r; lia). lia.
Qed.

Lemma new_location_locate (d r : Z) :
  0 <= r < d -> new_location d r = locate r d.
Proof.
  intros Hr. unfold new_location, new_location_even, new_location_odd, locate.
  destruct (Z.even d) eqn:Hev; destruct (r =? 0) eqn:Hz; try reflexivity.
  f_equal.
  apply Z.eqb_neq in Hz.
  assert (Hodd : Z.odd d = true) by (rewrite <- Z.negb_even, Hev; reflexivity).
  apply Z.odd_spec in Hodd. destruct Hodd as [k ->].
  destruct (2 * r + 1 ?= 2 * k + 1) eqn:Hc;
    [ apply Z.compare_eq in Hc | rewrite Z.compare_lt_iff in Hc | rewrite Z.compare_gt_iff in Hc ];
    symmetry; first [ apply Z.compare_lt_iff | apply Z.compare_gt_iff ]; lia.
Qed.

Ltac bool_cases :=
  repeat match goal with
    | |- context [?a <=? ?b] => destruct (Z.leb_spec a b)
    | |- context [?a =? ?b] => destruct (Z.eqb_spec a b)
    | |- context [?a ?= ?b] => destruct (Z.compare_spec a b)
    end;
  cbn [negb andb orb shr_record_of_loc]; try reflexivity; try lia.

Lemma shr_1_div2 (q : Z) (r s : bool) :
  0 <= q ->
  shr_1 (Build_shr_record q r s) =
  Build_shr_record (q / 2) (negb (q mod 2 =? 0)) (r || s).
Proof.
  intros Hq. destruct q as [|[p|p|]|p]; try lia; cbn [shr_1].
  - reflexivity.
  - replace (Z.pos p~1 / 2) with (Zpos p) by (rewrite Pos2Z.inj_xI; Z.div_mod_to_equations; lia).
    replace (Z.pos p~1 mod 2) with 1 by (rewrite Pos2Z.inj_xI; Z.div_mod_to_equations; lia).
    reflexivity.
  - replace (Z.pos p~0 / 2) with (Zpos p) by (rewrite Pos2Z.inj_xO; Z.div_mod_to_equations; lia).
    replace (Z.pos p~0 mod 2) with 0 by (rewrite Pos2Z.inj_xO; Z.div_mod_to_equations; lia).
    reflexivity.
  - reflexivity.
Qed.

Lemma located_record (n d : Z) :
  0 < d ->
  located n d =
  Build_shr_record (n / d) (d <=? 2 * (n mod d))
    (negb (n mod d =? 0) && negb (2 * (n mod d) =? d)).
Proof.
  intros Hd. unfold located, locate. bool_cases.
Qed.

Lemma locate_double (n d : Z) :
  0 <= n -> 0 < d ->
  shr_1 (located n d) = located n (d * 2).
Proof.
  intros Hn Hd.
  rewrite (located_record n d), (located_record n (d * 2)) by lia.
  rewrite shr_1_div2 by (apply Z.div_pos; lia).
  assert (Hq : n / (d * 2) = n / d / 2) by (rewrite Z.div_div by lia; reflexivity).
  assert (Hr : n mod (d * 2) = n mod d + d * ((n / d) mod 2)) by (apply Z.rem_mul_r; lia).
  rewrite Hq, Hr.
  pose proof (Z.mod_pos_bound n d Hd) as Hb.
  set (q := n / d) in *. set (r := n mod d) in *.
  assert (Hm : q mod 2 = 0 \/ q mod 2 = 1) by (Z.div_mod_to_equations; lia).
  destruct Hm as [Hm | Hm]; rewrite Hm; f_equal; bool_cases.
Qed.

Lemma locate_shift (p : positive) : forall n d,
  0 <= n -> 0 < d ->
  SpecFloat.iter_pos shr_1 p (located n d) = located n (d * 2 ^ Zpos p).
Proof.
  induction p as [p IH | p IH |]; intros n d Hn Hd; cbn [SpecFloat.iter_pos].
  - rewrite locate_double by lia.
    assert (0 < 2 ^ Zpos p) by (apply Z.pow_pos_nonneg; lia).
    rewrite IH by nia. rewrite IH by nia.
    f_equal. replace (Zpos p~1) with (Zpos p + Zpos p + 1) by lia.
    rewrite !Z.pow_add_r by lia. change (2 ^ 1) with 2. ring.
  - assert (0 < 2 ^ Zpos p) by (apply Z.pow_pos_nonneg; lia).
    rewrite IH by nia. rewrite IH by nia.
    f_equal. replace (Zpos p~0) with (Zpos p + Zpos p) by lia.
    rewrite Z.pow_add_r by lia. ring.
  - rewrite locate_double by lia. reflexivity.
Qed.

Lemma loc_of_located (n d : Z) :
  loc_of_shr_record (located n d) = locate (n mod d) d.
Proof.
  unfold located, locate. destruct (n mod d =? 0); [reflexivity|].
  destruct (2 * (n mod d) ?= d); reflexivity.
Qed.

Lemma shr_m_located (n d : Z) : shr_m (located n d) = n / d.
Proof.
  unfold located, locate. destruct (n mod d =? 0); [reflexivity|].
  destruct (2 * (n mod d) ?= d); reflexivity.
Qed.

Lemma round_nearest_even_located (n d : Z) :
  0 < d ->
  round_nearest_even (n / d) (locate (n mod d) d) = round_half_even n d.
Proof.
  intros Hd. unfold locate, round_half_even, round_nearest_even.
  destruct (n mod d =? 0) eqn:E.
  - apply Z.eqb_eq in E. rewrite E.
    replace (2 * 0 ?= d) with Lt by (symmetry; apply Z.compare_lt_iff; lia). reflexivity.
  - destruct (2 * (n mod d) ?= d); reflexivity.
Qed.

Lemma round_half_even_scale (k n d : Z) :
  0 < k -> 0 < d -> round_half_even (k * n) (k * d) = round_half_even n d.
Proof.
  intros Hk Hd. unfold round_half_even.
  rewrite Z.div_mul_cancel_l by lia.
  rewrite Z.mul_mod_distr_l by lia.
  replace (2 * (k * (n mod d)) ?= k * d) with (2 * (n mod d) ?= d); [reflexivity|].
  destruct (Z.compare_spec (2 * (n mod d)) d); symmetry.
  - apply Z.compare_eq_iff; nia.
  - apply Z.compare_lt_iff; nia.
  - apply Z.compare_gt_iff; nia.
Qed.

Lemma round_half_even_between (n d : Z) :
  0 < d -> n / d <= round_half_even n d <= n / d + 1.
Proof.
  intros Hd. unfold round_half_even.
  destruct (2 * (n mod d) ?= d); [destruct (Z.even (n / d))| |]; lia.
Qed.

Lemma round_half_even_lower (a n d : Z) :
  0 < d -> a * d <= n -> a <= round_half_even n d.
Proof.
  intros Hd H. pose proof (round_half_even_between n d Hd).
  assert (a <= n / d) by (apply Z.div_le_lower_bound; lia). lia.
Qed.

Lemma round_half_even_upper (b n d : Z) :
  0 < d -> n <= b * d -> round_half_even n d <= b.
Proof.
  intros Hd H.
  destruct (Z.eq_dec n (b * d)) as [-> | Hne].
  - unfold round_half_even. rewrite Z.div_mul, Z.mod_mul by lia.
    replace (2 * 0 ?= d) with Lt by (symmetry; apply Z.compare_lt_iff; lia). lia.
  - pose proof (round_half_even_between n d Hd).
    assert (n / d < b) by (apply Z.div_lt_upper_bound; lia). lia.
Qed.

Lemma round_half_even_mono (n n' d : Z) :
  0 < d -> n <= n' -> round_half_even n d <= round_half_even n' d.
Proof.
  intros Hd Hle.
  pose proof (round_half_even_between n d Hd).
  pose proof (round_half_even_between n' d Hd).
  assert (Hq : n / d <= n' / d) by (apply Z.div_le_mono; lia).
  destruct (Z.eq_dec (n / d) (n' / d)) as [Heq | Hne]; [| lia].
  assert (Hr : n mod d <= n' mod d).
  { pose proof (Z.div_mod n d). pose proof (Z.div_mod n' d). nia. }
  unfold round_half_even. rewrite <- Heq.
  destruct (Z.compare_spec (2 * (n mod d)) d);
    destruct (Z.compare_spec (2 * (n' mod d)) d);
    destruct (Z.even (n / d)); lia.
Qed.

Lemma round_half_even_exact (a d : Z) :
  0 < d -> round_half_even (a * d) d = a.
Proof.
  intros Hd. unfold round_half_even. rewrite Z.div_mul, Z.mod_mul by lia.
  replace (2 * 0 ?= d) with Lt by (symmetry; apply Z.compare_lt_iff; lia). reflexivity.
Qed.

Lemma round_half_even_error (n d : Z) :
  0 < d -> - d <= 2 * (Float64.round_half_even n d * d - n) <= d.
Proof.
  intros Hd. unfold Float64.round_half_even.
  pose proof (Z.div_mod n d ltac:(lia)) as Hdm.
  pose proof (Z.mod_pos_bound n d Hd) as Hb.
  destruct (Z.compare_spec (2 * (n mod d)) d) as [He | Hl | Hg];
    [destruct (Z.even (n / d))| |]; nia.
Qed.

Lemma fexp_normal (x : Z) : -1021 <= x -> fexp prec emax x = x - 53.
Proof. intros H. unfold fexp, emin, prec, emax. lia. Qed.

Lemma shr_located (n d e k : Z) :
  0 <= n -> 0 < d -> 0 <= k ->
  shr (located n d) e k = (located n (d * 2 ^ k), e + k).
Proof.
  intros Hn Hd Hk. destruct k as [|p|p]; try lia; cbn [shr].
  - rewrite Z.pow_0_r, Z.mul_1_r, Z.add_0_r. reflexivity.
  - rewrite locate_shift by lia. reflexivity.
Qed.

Lemma located_exact (m : Z) : 0 <= m -> shr_record_of_loc m loc_Exact = located m 1.
Proof.
  intros Hm. unfold located, locate. rewrite Z.div_1_r, Z.mod_1_r. reflexivity.
Qed.

Lemma binary_round_aux_spec (n d e k : Z) :
  0 <= n -> 0 < d -> 0 <= k ->
  2 ^ (52 + k) <= n / d < 2 ^ (53 + k) ->
  - K <= e -> e + k <= 900 ->
  let v := round_half_even n (d * 2 ^ k) * 2 ^ (e + k + K) in
  represents (binary_round_aux prec emax false (n / d) e (locate (n mod d) d)) v
    (e + k) (e + k + 1)
  /\ rounds_to (n * 2 ^ (e + K)) d v.
Proof.
  intros Hn Hd Hk Hq He Hek v. unfold K in *.
  assert (Hpk : 0 < 2 ^ k) by (apply Z.pow_pos_nonneg; lia).
  assert (Hlo : 2 ^ 52 * (d * 2 ^ k) <= n).
  { replace (2 ^ 52 * (d * 2 ^ k)) with (2 ^ (52 + k) * d) by (rewrite Z.pow_add_r by lia; ring).
    pose proof (Z.mul_div_le n d Hd). nia. }
  assert (Hhi : n < 2 ^ 53 * (d * 2 ^ k)).
  { replace (2 ^ 53 * (d * 2 ^ k)) with (2 ^ (53 + k) * d) by (rewrite Z.pow_add_r by lia; ring).
    pose proof (Z.mod_pos_bound n d Hd). pose proof (Z.div_mod n d). nia. }
  set (m0 := round_half_even n (d * 2 ^ k)) in *.
  assert (Hm0 : 2 ^ 52 <= m0 <= 2 ^ 53).
  { split; [apply round_half_even_lower | apply round_half_even_upper]; lia. }
  split.
  - unfold binary_round_aux, shr_fexp.
    change (shr_record_of_loc (n / d) (locate (n mod d) d)) with (located n d).
    rewrite (Zdigits2_unique (n / d) (53 + k)) by (replace (53 + k - 1) with (52 + k) by lia; lia).
    rewrite fexp_normal by lia.
    replace (53 + k + e - 53 - e) with k by lia.
    rewrite shr_located by lia.
    rewrite shr_m_located, loc_of_located.
    rewrite round_nearest_even_located by lia. fold m0.
    rewrite located_exact by lia.
    destruct (Z.eq_dec m0 (2 ^ 53)) as [Heq | Hne].
    + rewrite Heq.
      rewrite (Zdigits2_unique (2 ^ 53) 54) by lia.
      rewrite fexp_normal by lia.
      replace (54 + (e + k) - 53 - (e + k)) with 1 by lia.
      rewrite shr_located by lia. rewrite shr_m_located.
      change (2 ^ 53 / (1 * 2 ^ 1)) with (Zpos (Z.to_pos (2 ^ 52))).
      replace (e + k + 1 <=? emax - prec) with true
        by (symmetry; apply Z.leb_le; unfold emax, prec; lia).
      exists (Z.to_pos (2 ^ 52)), (e + k + 1). unfold K. repeat split; try lia.
      unfold v. rewrite Heq.
      replace (e + k + 1 + 200) with (1 + (e + k + 200)) by lia.
      rewrite (Z.pow_add_r 2 1) by lia. change (Zpos (Z.to_pos (2 ^ 52))) with (2 ^ 52).
      change (2 ^ 53) with (2 ^ 52 * 2 ^ 1). ring.
    + rewrite (Zdigits2_unique m0 53) by lia.
      rewrite fexp_normal by lia.
      replace (53 + (e + k) - 53 - (e + k)) with 0 by lia.
      rewrite shr_located by lia. rewrite shr_m_located.
      rewrite Z.pow_0_r, Z.mul_1_r, Z.div_1_r, Z.add_0_r.
      destruct m0 as [|p|p] eqn:Em; try lia.
      replace (e + k <=? emax - prec) with true
        by (symmetry; apply Z.leb_le; unfold emax, prec; lia).
      exists p, (e + k). unfold K. repeat split; try lia.
  - exists (e + k + 200). split; [lia|]. split.
    + assert (0 < 2 ^ (e + 200)) by (apply Z.pow_pos_nonneg; lia).
      replace (52 + (e + k + 200)) with (52 + k + (e + 200)) by lia.
      replace (53 + (e + k + 200)) with (53 + k + (e + 200)) by lia.
      rewrite !(Z.pow_add_r 2 _ (e + 200)) by lia.
      replace (2 ^ (52 + k)) with (2 ^ 52 * 2 ^ k) by (rewrite Z.pow_add_r by lia; ring).
      replace (2 ^ (53 + k)) with (2 ^ 53 * 2 ^ k) by (rewrite Z.pow_add_r by lia; ring).
      nia.
    + unfold v. f_equal. unfold m0.
      replace (e + k + 200) with ((e + 200) + k) by lia.
      rewrite (Z.pow_add_r 2 (e + 200)) by lia.
      replace (n * 2 ^ (e + 200)) with (2 ^ (e + 200) * n) by ring.
      replace (d * (2 ^ (e + 200) * 2 ^ k)) with (2 ^ (e + 200) * (d * 2 ^ k)) by ring.
      rewrite round_half_even_scale; [reflexivity | apply Z.pow_pos_nonneg; lia | nia].
Qed.

Lemma binary_round_aux_exact (m e k : Z) :
  0 <= k -> 2 ^ (52 + k) <= m < 2 ^ (53 + k) ->
  - K <= e -> e + k <= 900 ->
  exists v,
    represents (binary_round_aux prec emax false m e loc_Exact) v (e + k) (e + k + 1)
    /\ rounds_to (m * 2 ^ (e + K)) 1 v.
Proof.
  intros Hk Hm He Hek.
  assert (0 < 2 ^ (52 + k)) by (apply Z.pow_pos_nonneg; lia).
  pose proof (binary_round_aux_spec m 1 e k) as H1.
  rewrite Z.div_1_r, Z.mod_1_r in H1.
  change (locate 0 1) with loc_Exact in H1.
  eexists. apply H1; lia.
Qed.

Lemma rounds_to_scale (c n d v : Z) :
  0 < c -> 0 < d -> rounds_to n d v -> rounds_to (c * n) (c * d) v.
Proof.
  intros Hc Hd (b & Hb & Hn & ->). exists b.
  assert (0 < 2 ^ b) by (apply Z.pow_pos_nonneg; lia).
  split; [lia|]. split; [nia|].
  replace (c * d * 2 ^ b) with (c * (d * 2 ^ b)) by ring.
  rewrite round_half_even_scale by nia. reflexivity.
Qed.

Lemma rounds_to_unscale (c n d v : Z) :
  0 < c -> 0 < d -> rounds_to (c * n) (c * d) v -> rounds_to n d v.
Proof.
  intros Hc Hd (b & Hb & Hn & ->). exists b.
  assert (0 < 2 ^ b) by (apply Z.pow_pos_nonneg; lia).
  assert (0 < 2 ^ (52 + b)) by (apply Z.pow_pos_nonneg; lia).
  assert (0 < 2 ^ (53 + b)) by (apply Z.pow_pos_nonneg; lia).
  split; [lia|]. split; [nia|].
  replace (c * d * 2 ^ b) with (c * (d * 2 ^ b)) by ring.
  rewrite round_half_even_scale by nia. reflexivity.
Qed.

Lemma rounds_to_mono (n n' d v v' : Z) :
  0 < d -> n <= n' -> rounds_to n d v -> rounds_to n' d v' -> v <= v'.
Proof.
  intros Hd Hle (b & Hb & [Hlo Hhi] & ->) (b' & Hb' & [Hlo' Hhi'] & ->).
  assert (Hp : 0 < 2 ^ b) by (apply Z.pow_pos_nonneg; lia).
  assert (Hp' : 0 < 2 ^ b') by (apply Z.pow_pos_nonneg; lia).
  assert (Hbb : b <= b').
  { destruct (Z_le_gt_dec b b') as [|Hgt]; [assumption | exfalso].
    assert (2 ^ (53 + b') <= 2 ^ (52 + b)) by (apply Z.pow_le_mono_r; lia).
    nia. }
  destruct (Z.eq_dec b b') as [<- | Hne].
  - apply Z.mul_le_mono_nonneg_r; [lia|].
    apply round_half_even_mono; [nia | lia].
  - assert (H1 : round_half_even n (d * 2 ^ b) <= 2 ^ 53).
    { apply round_half_even_upper; [nia|].
      rewrite Z.pow_add_r in Hhi by lia. nia. }
    assert (H2 : 2 ^ 52 <= round_half_even n' (d * 2 ^ b')).
    { apply round_half_even_lower; [nia|].
      rewrite Z.pow_add_r in Hlo' by lia. nia. }
    assert (H3 : 2 ^ 53 * 2 ^ b <= 2 ^ 52 * 2 ^ b').
    { rewrite <- !Z.pow_add_r by lia. apply Z.pow_le_mono_r; lia. }
    nia.
Qed.

Lemma rounds_to_pos (n d v : Z) : 0 < d -> rounds_to n d v -> 0 < v.
Proof.
  intros Hd (b & Hb & [Hlo _] & ->).
  assert (0 < 2 ^ b) by (apply Z.pow_pos_nonneg; lia).
  assert (2 ^ 52 <= Float64.round_half_even n (d * 2 ^ b)).
  { apply round_half_even_lower; [nia|]. rewrite Z.pow_add_r in Hlo by lia. nia. }
  nia.
Qed.

Lemma rounds_to_exact (a j d v : Z) :
  0 < d -> 0 <= j -> 2 ^ 52 <= a < 2 ^ 53 ->
  rounds_to (a * 2 ^ j * d) d v -> v = a * 2 ^ j.
Proof.
  intros Hd Hj Ha (b & Hb & [Hlo Hhi] & ->).
  assert (Hp : 0 < 2 ^ b) by (apply Z.pow_pos_nonneg; lia).
  assert (Hpj : 0 < 2 ^ j) by (apply Z.pow_pos_nonneg; lia).
  assert (Hlo1 : 2 ^ (52 + b) <= a * 2 ^ j)
    by (apply (Z.mul_le_mono_pos_r _ _ d); assumption).
  assert (Hhi1 : a * 2 ^ j < 2 ^ (53 + b))
    by (apply (Z.mul_lt_mono_pos_r d); assumption).
  assert (H52 : 2 ^ 52 * 2 ^ j <= a * 2 ^ j) by (apply Z.mul_le_mono_nonneg_r; lia).
  assert (H53 : a * 2 ^ j < 2 ^ 53 * 2 ^ j) by (apply Z.mul_lt_mono_pos_r; lia).
  assert (b = j) as ->.
  { destruct (Z.lt_trichotomy b j) as [Hlt | [-> | Hgt]]; [exfalso | reflexivity | exfalso].
    - assert (2 ^ (53 + b) <= 2 ^ 52 * 2 ^ j)
        by (rewrite <- Z.pow_add_r by lia; apply Z.pow_le_mono_r; lia).
      lia.
    - assert (2 ^ 53 * 2 ^ j <= 2 ^ (52 + b))
        by (rewrite <- Z.pow_add_r by lia; apply Z.pow_le_mono_r; lia).
      lia. }
  f_equal.
  replace (a * 2 ^ j * d) with (a * (d * 2 ^ j)) by ring.
  apply round_half_even_exact. nia.
Qed.

Lemma iter_xO (k p : positive) : Zpos (Pos.iter xO p k) = Zpos p * 2 ^ Zpos k.
Proof.
  induction k as [|k IH] using Pos.peano_ind.
  - cbn [Pos.iter]. lia.
  - rewrite Pos.iter_succ, Pos2Z.inj_xO, IH, Pos2Z.inj_succ, Z.pow_succ_r by lia. ring.
Qed.

Lemma float_of_int_spec (s : Z) :
  1 <= s < 2 ^ 53 -> represents (float_of_int s) (s * 2 ^ K) (-52) 0.
Proof.
  intros Hs. destruct s as [|p|p]; try lia.
  unfold float_of_int, binary_normalize, binary_round.
  pose proof (digits2_pos_bounds p) as Hd.
  set (dg := Zpos (digits2_pos p)) in *.
  assert (Hdg : 1 <= dg <= 53).
  { split; [lia|]. destruct (Z_le_gt_dec dg 53); [assumption|exfalso].
    assert (2 ^ 53 <= 2 ^ (dg - 1)) by (apply Z.pow_le_mono_r; lia). lia. }
  rewrite Z.add_0_r, fexp_normal by lia.
  unfold shl_align. replace (dg - 53 - 0) with (dg - 53) by lia.
  destruct (dg - 53) as [|q|q] eqn:Eq; try lia.
  - destruct (binary_round_aux_exact (Zpos p) 0 0) as (v & Hr & Hv); unfold K; try lia.
    { replace (52 + 0) with (dg - 1) by lia. replace (53 + 0) with dg by lia. lia. }
    assert (v = Zpos p * 2 ^ K) as ->.
    { unfold K. apply (rounds_to_exact (Zpos p) 200 1); try lia.
      - replace 52 with (dg - 1) by lia. replace 53 with dg by lia. lia.
      - rewrite Z.mul_1_r. exact Hv. }
    destruct Hr as (m & e & -> & Hm & He & Hval).
    exists m, e. repeat split; try lia; try exact Hval.
    destruct (Z_le_gt_dec e 0) as [|Hgt]; [assumption | exfalso].
    assert (2 * 2 ^ K <= 2 ^ (e + K)).
    { change (2 * 2 ^ K) with (2 ^ (1 + K)). apply Z.pow_le_mono_r; unfold K; lia. }
    assert (0 < 2 ^ K) by (apply Z.pow_pos_nonneg; unfold K; lia).
    nia.
  - assert (Hmz : Zpos (Pos.iter xO p q) = Zpos p * 2 ^ (53 - dg)).
    { rewrite iter_xO. f_equal. f_equal. lia. }
    assert (Hpw : 2 ^ (dg - 1) * 2 ^ (53 - dg) = 2 ^ 52)
      by (rewrite <- Z.pow_add_r by lia; f_equal; lia).
    assert (Hpw' : 2 ^ dg * 2 ^ (53 - dg) = 2 ^ 53)
      by (rewrite <- Z.pow_add_r by lia; f_equal; lia).
    assert (0 < 2 ^ (53 - dg)) by (apply Z.pow_pos_nonneg; lia).
    destruct (binary_round_aux_exact (Zpos (Pos.iter xO p q)) (Zneg q) 0) as (v & Hr & Hv);
      unfold K; try lia.
    { rewrite Hmz. change (52 + 0) with 52. change (53 + 0) with 53. nia. }
    assert (v = Zpos p * 2 ^ K) as ->.
    { unfold K in *.
      transitivity (Zpos (Pos.iter xO p q) * 2 ^ (Zneg q + 200)).
      - apply (rounds_to_exact _ _ 1); try lia.
        + rewrite Hmz. nia.
        + rewrite Z.mul_1_r. exact Hv.
      - rewrite Hmz. rewrite <- Z.mul_assoc, <- Z.pow_add_r by lia. f_equal. f_equal. lia. }
    destruct Hr as (m & e & -> & Hm & He & Hval).
    exists m, e. repeat split; try lia; exact Hval.
Qed.

Lemma div_eucl_div_mod (a b : Z) : Z.div_eucl a b = (a / b, a mod b).
Proof. unfold Z.div, Z.modulo. destruct (Z.div_eucl a b). reflexivity. Qed.

Lemma SFdiv_spec (f g : spec_float) (a b : Z) :
  represents f a (-52) 0 -> represents g b (-52) 0 ->
  exists v, represents (SFdiv prec emax f g) v (-106) 1 /\ rounds_to (a * 2 ^ K) b v.
Proof.
  intros (mf & ef & -> & Hmf & Hef & ->) (mg & eg & -> & Hmg & Heg & ->).
  unfold K in *. cbn [SFdiv xorb]. unfold SFdiv_core_binary.
  rewrite (Zdigits2_unique (Zpos mf) 53), (Zdigits2_unique (Zpos mg) 53) by (cbn; lia).
  rewrite fexp_normal by lia.
  rewrite Z.min_l by lia.
  replace (ef - eg - (53 + ef - (53 + eg) - 53)) with 53 by lia.
  cbv iota. rewrite Z.shiftl_mul_pow2 by lia.
  rewrite div_eucl_div_mod.
  set (n := Zpos mf * 2 ^ 53).
  assert (Hn : 2 ^ 52 * Zpos mg <= n < 2 ^ 54 * Zpos mg) by (unfold n; lia).
  rewrite new_location_locate by (apply Z.mod_pos_bound; lia).
  replace (53 + ef - (53 + eg) - 53) with (ef - eg - 53) by lia.
  assert (Hq : 2 ^ 52 <= n / Zpos mg < 2 ^ 54).
  { split; [apply Z.div_le_lower_bound | apply Z.div_lt_upper_bound]; lia. }
  assert (Hk : exists k, 0 <= k <= 1 /\ 2 ^ (52 + k) <= n / Zpos mg < 2 ^ (53 + k)).
  { destruct (Z_lt_le_dec (n / Zpos mg) (2 ^ 53)); [exists 0 | exists 1]; cbn; lia. }
  destruct Hk as (k & Hk & Hqk).
  destruct (binary_round_aux_spec n (Zpos mg) (ef - eg - 53) k) as [Hr Hv];
    unfold K; try lia.
  eexists. split.
  - destruct Hr as (m & e & Hf & Hm & He & Hval).
    exists m, e. unfold K. repeat split; try lia; eassumption.
  - unfold K in Hv.
    assert (Hc : 0 < 2 ^ (eg + 200)) by (apply Z.pow_pos_nonneg; lia).
    apply (rounds_to_scale (2 ^ (eg + 200))) in Hv; [| lia | lia].
    replace (Zpos mf * 2 ^ (ef + 200) * 2 ^ 200)
      with (2 ^ (eg + 200) * (n * 2 ^ (ef - eg - 53 + 200))).
    { replace (Zpos mg * 2 ^ (eg + 200)) with (2 ^ (eg + 200) * Zpos mg) by ring.
      exact Hv. }
    unfold n.
    replace (2 ^ (eg + 200) * (Zpos mf * 2 ^ 53 * 2 ^ (ef - eg - 53 + 200)))
      with (Zpos mf * (2 ^ (eg + 200) * 2 ^ 53 * 2 ^ (ef - eg - 53 + 200))) by ring.
    rewrite <- !Z.pow_add_r by lia.
    rewrite <- Z.mul_assoc, <- Z.pow_add_r by lia.
    f_equal. f_equal. lia.
Qed.

Lemma mul_int_100_spec (f : spec_float) (a : Z) :
  represents f a (-106) 1 ->
  exists v, represents (mul_int f 100) v (-100) 9 /\ rounds_to (100 * a) 1 v.
Proof.
  intros (mf & ef & -> & Hmf & Hef & ->).
  unfold mul_int.
  change (float_of_int 100) with (S754_finite false 7036874417766400 (-46)).
  cbn [SFmul xorb]. rewrite Pos2Z.inj_mul.
  set (n := Zpos mf * 7036874417766400).
  assert (Hn : 2 ^ 104 <= n < 2 ^ 106) by (unfold n; lia).
  assert (Hk : exists k, 52 <= k <= 53 /\ 2 ^ (52 + k) <= n < 2 ^ (53 + k)).
  { destruct (Z_lt_le_dec n (2 ^ 105)); [exists 52 | exists 53]; cbn; lia. }
  destruct Hk as (k & Hk & Hnk).
  destruct (binary_round_aux_exact n (ef + -46) k) as (v & Hr & Hv); unfold K; try lia.
  exists v. split.
  - destruct Hr as (m & e & Hf & Hm & He & Hval).
    exists m, e. unfold K. repeat split; try lia; eassumption.
  - unfold K in *.
    replace (100 * (Zpos mf * 2 ^ (ef + 200))) with (n * 2 ^ (ef + -46 + 200)); [exact Hv|].
    unfold n. change 7036874417766400 with (100 * 2 ^ 46).
    replace (Zpos mf * (100 * 2 ^ 46) * 2 ^ (ef + -46 + 200))
      with (100 * (Zpos mf * (2 ^ 46 * 2 ^ (ef + -46 + 200)))) by ring.
    rewrite <- Z.pow_add_r by lia. do 3 f_equal. lia.
Qed.

Lemma int_of_float_spec (f : spec_float) (v lo hi : Z) :
  - K <= lo -> represents f v lo hi -> int_of_float f = inr (v / 2 ^ K).
Proof.
  intros Hlo (m & e & -> & Hm & He & ->). unfold K in *. cbn [int_of_float].
  f_equal. destruct e as [|p|p].
  - rewrite Z.shiftl_0_r, Z.add_0_l, Z.div_mul by lia. reflexivity.
  - rewrite Z.shiftl_mul_pow2, Z.pow_add_r by lia.
    rewrite Z.mul_assoc, Z.div_mul by lia. reflexivity.
  - rewrite Z.shiftr_div_pow2 by lia.
    assert (0 < 2 ^ (Zneg p + 200)) by (apply Z.pow_pos_nonneg; lia).
    assert (0 < 2 ^ Zpos p) by (apply Z.pow_pos_nonneg; lia).
    replace (2 ^ 200) with (2 ^ Zpos p * 2 ^ (Zneg p + 200))
      by (rewrite <- Z.pow_add_r by lia; f_equal; lia).
    rewrite Z.div_mul_cancel_r by lia. reflexivity.
Qed.

Lemma progress_percent_spec (s t : Z) :
  1 <= s < 2 ^ 53 -> 1 <= t < 2 ^ 53 ->
  exists p, progress_percent s t = inr p /\ progress_is s t p.
Proof.
  intros Hs Ht. unfold progress_percent, truediv.
  replace (t =? 0) with false by (symmetry; apply Z.eqb_neq; lia).
  cbn [bind_exn].
  destruct (SFdiv_spec _ _ _ _ (float_of_int_spec s Hs) (float_of_int_spec t Ht))
    as (v & Hrv & Hv).
  destruct (mul_int_100_spec _ _ Hrv) as (v' & Hrv' & Hv').
  exists (v' / 2 ^ K). split.
  - apply (int_of_float_spec _ _ (-100) 9); [unfold K; lia | exact Hrv'].
  - exists v, v'. split; [| split; [exact Hv' | reflexivity]].
    assert (0 < 2 ^ K) by (apply Z.pow_pos_nonneg; unfold K; lia).
    apply (rounds_to_unscale (2 ^ K)); [lia | lia |].
    replace (2 ^ K * (s * 2 ^ K)) with (s * 2 ^ K * 2 ^ K) by ring.
    replace (2 ^ K * t) with (t * 2 ^ K) by ring. exact Hv.
Qed.

Lemma progress_is_mono (s s' t p p' : Z) :
  0 < t -> s <= s' -> progress_is s t p -> progress_is s' t p' -> p <= p'.
Proof.
  intros Ht Hle (v & w & Hv & Hw & ->) (v' & w' & Hv' & Hw' & ->).
  assert (0 < 2 ^ K) by (apply Z.pow_pos_nonneg; unfold K; lia).
  apply Z.div_le_mono; [lia|].
  apply (rounds_to_mono (100 * v) (100 * v') 1); [lia | | assumption | assumption].
  apply Z.mul_le_mono_nonneg_l; [lia|].
  apply (rounds_to_mono (s * 2 ^ K) (s' * 2 ^ K) t); [lia | | assumption | assumption].
  apply Z.mul_le_mono_nonneg_r; lia.
Qed.

Lemma progress_is_full (t p : Z) : 0 < t -> progress_is t t p -> p = 100.
Proof.
  intros Ht (v & w & Hv & Hw & ->). unfold K in *.
  assert (v = 2 ^ 52 * 2 ^ 148) as ->.
  { apply (rounds_to_exact _ _ t); [lia | lia | lia |].
    replace (2 ^ 52 * 2 ^ 148 * t) with (t * 2 ^ 200)
      by (change (2 ^ 52 * 2 ^ 148) with (2 ^ 200); ring).
    exact Hv. }
  assert (w = (100 * 2 ^ 46) * 2 ^ 154) as ->.
  { apply (rounds_to_exact _ _ 1); [lia | lia | lia |].
    replace (100 * 2 ^ 46 * 2 ^ 154 * 1) with (100 * (2 ^ 52 * 2 ^ 148)) by reflexivity.
    exact Hw. }
  reflexivity.
Qed.

Lemma rounds_to_error (n d v : Z) (u : Z) :
  0 < d -> 0 < u -> n <= 2 ^ 53 * u * d ->
  rounds_to n d v -> - (u * d) <= v * d - n <= u * d.
Proof.
  intros Hd Hu Hn (b & Hb & [Hlo Hhi] & ->).
  assert (Hp : 0 < 2 ^ b) by (apply Z.pow_pos_nonneg; lia).
  pose proof (round_half_even_error n (d * 2 ^ b) ltac:(nia)) as He.
  assert (Hbu : 2 ^ b <= 2 * u).
  { rewrite Z.pow_add_r in Hlo by lia.
    assert (2 ^ 52 * 2 ^ b * d <= 2 ^ 53 * u * d) by lia.
    assert (2 ^ 52 * 2 ^ b <= 2 ^ 53 * u) by nia. lia. }
  set (m := Float64.round_half_even n (d * 2 ^ b)) in *.
  replace (m * 2 ^ b * d) with (m * (d * 2 ^ b)) by ring.
  nia.
Qed.

(** The two roundings together lose less than [2 ^ -45], so the progress
    value is the exact floor unless [100 * s / t] is an integer, when it may
    be one less. *)
Lemma progress_is_floor (s t p : Z) :
  1 <= s -> s <= t -> t < 2 ^ 45 -> progress_is s t p ->
  100 * s / t - 1 <= p <= 100 * s / t
  /\ ((100 * s) mod t <> 0 -> p = 100 * s / t).
Proof.
  intros Hs Hst Ht (v & v' & Hv & Hv' & ->). unfold K in *.
  set (u := 2 ^ 147).
  assert (Hu : 0 < u) by (unfold u; apply Z.pow_pos_nonneg; lia).
  assert (HK : 2 ^ 200 = 2 ^ 53 * u) by (unfold u; reflexivity).
  rewrite HK in *.
  assert (E1 : - (u * t) <= v * t - s * (2 ^ 53 * u) <= u * t).
  { apply rounds_to_error; [lia | exact Hu | nia | exact Hv]. }
  assert (Hvb : v <= 2 ^ 53 * u + u) by nia.
  assert (Hvp : 0 < v) by (apply (rounds_to_pos (s * (2 ^ 53 * u)) t); [lia | exact Hv]).
  assert (E2 : - (101 * u * 1) <= v' * 1 - 100 * v <= 101 * u * 1).
  { apply rounds_to_error; [lia | lia | nia | exact Hv']. }
  rewrite !Z.mul_1_r in E2.
  pose proof (Z.div_mod (100 * s) t ltac:(lia)) as Hdm.
  pose proof (Z.mod_pos_bound (100 * s) t ltac:(lia)) as Hb.
  set (F := 100 * s / t) in *. set (R := (100 * s) mod t) in *.
  assert (Herr : - (201 * u * t) <= v' * t - 100 * s * (2 ^ 53 * u) <= 201 * u * t) by nia.
  assert (Hsmall : 201 * t < 2 ^ 53) by lia.
  repeat split.
  - apply Z.div_le_lower_bound; [lia|].
    assert ((F - 1) * t * (2 ^ 53 * u) <= v' * t) by nia. nia.
  - assert (v' / (2 ^ 53 * u) < F + 1); [| lia].
    apply Z.div_lt_upper_bound; [lia|].
    assert (v' * t < (F + 1) * t * (2 ^ 53 * u)) by nia. nia.
  - intros HR.
    assert (Hge : F <= v' / (2 ^ 53 * u)).
    { apply Z.div_le_lower_bound; [lia|].
      assert (F * t * (2 ^ 53 * u) <= v' * t) by nia. nia. }
    assert (v' / (2 ^ 53 * u) < F + 1); [| lia].
    apply Z.div_lt_upper_bound; [lia|].
    assert (v' * t < (F + 1) * t * (2 ^ 53 * u)) by nia. nia.
Qed.

End Rounding.

(** ** The progress expression on a valid range *)

Lemma percent_defined (s t : Z) :
  1 <= s < 2 ^ 53 -> 1 <= t < 2 ^ 53 ->
  progress_percent s t = inr (percent s t) /\ progress_is s t (percent s t).
Proof.
  intros Hs Ht. destruct (progress_percent_spec s t Hs Ht) as (p & Hp & His).
  unfold percent. rewrite Hp. split; [reflexivity | exact His].
Qed.

Lemma percent_mono (s s' t : Z) :
  1 <= s -> s <= s' -> s' < 2 ^ 53 -> 1 <= t < 2 ^ 53 ->
  percent s t <= percent s' t.
Proof.
  intros H1 H2 H3 Ht.
  apply (progress_is_mono s s' t); [lia | lia | |]; apply percent_defined; lia.
Qed.

Lemma percent_full (t : Z) : 1 <= t < 2 ^ 53 -> percent t t = 100.
Proof.
  intros Ht. apply (progress_is_full t); [lia|]. apply percent_defined; lia.
Qed.

Lemma percent_floor (s t : Z) :
  1 <= s -> s <= t -> t < 2 ^ 45 ->
  100 * s / t - 1 <= percent s t <= 100 * s / t
  /\ ((100 * s) mod t <> 0 -> percent s t = 100 * s / t).
Proof.
  intros Hs Hst Ht. apply progress_is_floor; try assumption.
  apply percent_defined; lia.
Qed.

(** ** The scanner thread, step by step *)
Section Scanner.
Import RedTeam.
Variable net : network.

Lemma run_step_finished (th : PortScannerThread) :
  control_point th = finished -> run_step net th = th.
Proof. intros H. unfold run_step. rewrite H. reflexivity. Qed.

Lemma iter_finished (n : nat) (th : PortScannerThread) :
  control_point th = finished -> Nat.iter n (run_step net) th = th.
Proof.
  intros H. induction n as [|n IH]; [reflexivity|].
  rewrite Nat.iter_succ, IH. apply run_step_finished, H.
Qed.

Lemma iter_shift {A} (f : A -> A) (n : nat) (x : A) :
  Nat.iter n f (f x) = f (Nat.iter n f x).
Proof. induction n as [|n IH]; [reflexivity|]. rewrite !Nat.iter_succ, IH. reflexivity. Qed.

(** Leaving the loop: one signal, [scan_complete], and nothing after it. *)
Lemma run_step_leave (th : PortScannerThread) (port scanned : Z) :
  control_point th = looping port scanned ->
  (port <=? end_port th) && is_running th = false ->
  run_step net th = set_control finished (emit (scan_complete (results_of th)) th).
Proof. intros Hc Ht. unfold run_step. rewrite Hc, Ht. reflexivity. Qed.

Lemma wait_leave (th : PortScannerThread) (port scanned : Z) :
  control_point th = looping port scanned ->
  (port <=? end_port th) && is_running th = false ->
  wait net th = set_control finished (emit (scan_complete (results_of th)) th).
Proof.
  intros Hc Ht. unfold wait, steps_left. rewrite Hc.
  rewrite Nat.iter_succ, <- iter_shift.
  rewrite (run_step_leave th port scanned Hc Ht).
  apply iter_finished. reflexivity.
Qed.

(** [wait] is given enough steps: from any point of the loop, whatever the
    network answers and whether or not [stop] was called, [run] has returned
    when [wait] does. *)
Lemma run_step_control (th : PortScannerThread) (port scanned : Z) :
  control_point th = looping port scanned ->
  control_point (run_step net th) = finished
  \/ (port <= end_port th
      /\ control_point (run_step net th) = looping (port + 1) (scanned + 1)
      /\ end_port (run_step net th) = end_port th).
Proof.
  intros Hc. unfold run_step. rewrite Hc.
  destruct (Z.leb_spec port (end_port th)) as [Hle | Hgt]; cbn [andb]; [| left; reflexivity].
  destruct (is_running th); [| left; reflexivity].
  unfold scan_one. destruct (progress_percent _ _) as [e | p]; [left; reflexivity|].
  right. destruct (String.eqb _ _); repeat split; assumption.
Qed.

Lemma iter_returns (n : nat) : forall (th : PortScannerThread) (port scanned : Z),
  control_point th = looping port scanned ->
  (Z.to_nat (end_port th - port + 1) <= n)%nat ->
  control_point (Nat.iter (S n) (run_step net) th) = finished.
Proof.
  induction n as [|n IH]; intros th port scanned Hc Hn.
  - destruct (run_step_control th port scanned Hc) as [Hf | (Hle & _ & _)]; [exact Hf | lia].
  - rewrite Nat.iter_succ, <- iter_shift.
    destruct (run_step_control th port scanned Hc) as [Hf | (Hle & Hl & He)].
    + rewrite iter_finished by exact Hf. exact Hf.
    + apply (IH _ (port + 1) (scanned + 1) Hl).
      rewrite He. lia.
Qed.

Lemma wait_returns (th : PortScannerThread) :
  isRunning th = true -> control_point (wait net th) = finished.
Proof.
  unfold isRunning, wait, steps_left.
  destruct (control_point th) as [| port scanned |] eqn:Hc; try discriminate.
  intros _. apply (iter_returns _ th port scanned Hc). lia.
Qed.

(** [j] iterations of the loop, none interrupted. *)
Lemma iter_in_range (j : nat) (th : PortScannerThread) (port : Z) :
  control_point th = looping port (port - start_port th) ->
  is_running th = true ->
  start_port th <= port ->
  port + Z.of_nat j <= end_port th + 1 ->
  total_ports th < 2 ^ 53 ->
  Nat.iter j (run_step net) th =
  {| target := target th; start_port := start_port th; end_port := end_port th;
     timeout := timeout th; is_running := true;
     open_ports := open_ports th
                   ++ filter (fun p => is_open net (target th) p) (seqZ port (Z.of_nat j));
     control_point := looping (port + Z.of_nat j) (port + Z.of_nat j - start_port th);
     emitted := emitted th
                ++ (seqZ port (Z.of_nat j)
                    ≫= port_signals net (target th) (start_port th) (total_ports th)) |}.
Proof.
  intros Hc Hr Hsp. induction j as [|j IH]; intros Hj Ht.
  - destruct th; cbn in *. subst. rewrite !app_nil_r, Z.add_0_r. reflexivity.
  - rewrite Nat.iter_succ, IH by lia. clear IH.
    rewrite seqZ_S, Nat2Z.inj_succ.
    rewrite filter_app, bind_app, !app_assoc.
    unfold run_step. cbn [control_point end_port is_running].
    replace (port + Z.of_nat j <=? end_port th) with true by (symmetry; apply Z.leb_le; lia).
    cbn [andb]. unfold scan_one, total_ports. cbn [target start_port end_port].
    assert (Hs : 1 <= port + Z.of_nat j - start_port th + 1 < 2 ^ 53)
      by (unfold total_ports in Ht; lia).
    destruct (percent_defined _ (end_port th - start_port th + 1) Hs) as [Hp _];
      [unfold total_ports in Ht; lia|].
    rewrite Hp. unfold port_signals, is_open.
    cbn [mbind list_bind filter list_filter]. rewrite app_nil_r.
    replace (port + Z.succ (Z.of_nat j)) with (port + Z.of_nat j + 1) by lia.
    destruct (String.eqb (scan_port net (target th) (port + Z.of_nat j)) "open") eqn:Ho.
    + rewrite decide_True by exact I.
      unfold set_control, emit, append_open_port; cbn.
      rewrite <- !app_assoc. f_equal. f_equal. lia.
    + rewrite decide_False by exact id.
      unfold set_control, emit; cbn. rewrite app_nil_r, <- !app_assoc.
      f_equal. f_equal. lia.
Qed.

(** The whole of [run] when nobody calls [stop]. *)
Lemma run_closed_form (tgt : string) (sp ep tmo : Z) :
  sp <= ep -> ep - sp + 1 < 2 ^ 53 ->
  let found := filter (fun p => is_open net tgt p) (seqZ sp (ep - sp + 1)) in
  run net (init tgt sp ep tmo) =
  {| target := tgt; start_port := sp; end_port := ep; timeout := tmo;
     is_running := true; open_ports := found;
     control_point := finished;
     emitted := (seqZ sp (ep - sp + 1) ≫= port_signals net tgt sp (ep - sp + 1))
                ++ [scan_complete {| res_target := tgt; res_start_port := sp;
                                     res_end_port := ep; res_open_ports := found |}] |}.
Proof.
  intros Hle Ht found. unfold run.
  change (start (init tgt sp ep tmo))
    with {| target := tgt; start_port := sp; end_port := ep; timeout := tmo;
            is_running := true; open_ports := [];
            control_point := looping sp 0; emitted := [] |}.
  unfold wait. cbn [steps_left control_point end_port].
  rewrite Nat.iter_succ.
  rewrite (iter_in_range (Z.to_nat (ep - sp + 1)) _ sp);
    cbn [control_point start_port end_port is_running target open_ports emitted];
    [| f_equal; lia | reflexivity | lia | lia | unfold total_ports; cbn; lia].
  rewrite Z2Nat.id by lia. unfold run_step.
  cbn [control_point start_port end_port is_running].
  replace (sp + (ep - sp + 1) <=? ep) with false by (symmetry; apply Z.leb_gt; lia).
  reflexivity.
Qed.

End Scanner.

(** What the signals of one port contribute to the observations. *)
Lemma progress_values_port_signals (net : network) (tgt : string) (sp total : Z)
    (ports : list Z) :
  progress_values (ports ≫= port_signals net tgt sp total)
  = (fun port => percent (port - sp + 1) total) <$> ports.
Proof.
  induction ports as [|p ports IH]; [reflexivity|].
  cbn [mbind list_bind fmap list_fmap]. unfold progress_values in *.
  rewrite bind_app, IH. unfold port_signals.
  destruct (String.eqb _ _); reflexivity.
Qed.

Lemma hits_port_signals (net : network) (tgt : string) (sp total : Z)
    (ports : list Z) :
  hits (ports ≫= port_signals net tgt sp total)
  = (fun port => (port, RedTeam.identify_service port))
      <$> filter (fun p => is_open net tgt p) ports.
Proof.
  induction ports as [|p ports IH]; [reflexivity|].
  cbn [mbind list_bind]. unfold hits in *.
  rewrite bind_app, IH, filter_cons. unfold port_signals, is_open.
  destruct (String.eqb _ _) eqn:Ho.
  - rewrite decide_True by exact I. reflexivity.
  - rewrite decide_False by exact id. reflexivity.
Qed.

Lemma terminal_port_signals (net : network) (tgt : string) (sp total : Z)
    (ports : list Z) :
  filter (fun s => is_terminal s) (ports ≫= port_signals net tgt sp total) = [].
Proof.
  induction ports as [|p ports IH]; [reflexivity|].
  cbn [mbind list_bind]. rewrite filter_app, IH, app_nil_r.
  unfold port_signals. destruct (String.eqb _ _); reflexivity.
Qed.

Lemma seqZ_shift_fmap (f : Z -> Z) (sp n : Z) :
  (fun port => f (port - sp + 1)) <$> seqZ sp n = f <$> seqZ 1 n.
Proof.
  replace (seqZ sp n) with (Z.add (sp - 1) <$> seqZ 1 n)
    by (rewrite fmap_add_seqZ; f_equal; lia).
  rewrite <- list_fmap_compose.
  apply list_fmap_ext. intros _ x _. cbn. f_equal. lia.
Qed.


(** ** The job store *)
Section JobStore.
Import WebUI.
Variable net : network.

(** A job that is still running shows no open port. *)
Definition running_hides_ports (s : state) : Prop :=
  forall job_id j, jobs s !! job_id = Some j ->
                   status j = "running"%string -> open_ports j = [].

Lemma running_hides_ports_initial : running_hides_ports initial.
Proof. intros job_id j H. cbn in H. rewrite lookup_empty in H. discriminate. Qed.

Lemma running_hides_ports_start (req : request) (s : state) :
  running_hides_ports s -> running_hides_ports (api_start_scan req s).2.
Proof.
  intros Hinv. unfold api_start_scan.
  destruct (String.eqb _ _); [exact Hinv|].
  destruct (Database.create_session _ _ _ _) as [sid db'].
  intros job_id j. cbn [snd jobs]. rewrite lookup_insert.
  case_decide as Hid.
  - intros [= <-] _. reflexivity.
  - apply Hinv.
Qed.

Lemma running_hides_ports_worker (job_id : string) (s : state) :
  running_hides_ports s -> running_hides_ports (worker_step net job_id s).
Proof.
  intros Hinv. unfold worker_step.
  destruct (workers s !! job_id) as [w|]; [|exact Hinv].
  destruct (returned w); [exact Hinv|].
  destruct (next_port w <=? w_end_port w).
  - destruct (progress_percent _ _) as [e|p]; [exact Hinv|].
    intros jid j. cbn [jobs]. rewrite lookup_alter.
    case_decide as Hid; [|apply Hinv].
    destruct (jobs s !! job_id) as [j0|] eqn:Hj0; [|discriminate].
    subst jid. intros [= <-]. cbn. apply (Hinv job_id j0 Hj0).
  - intros jid j. cbn [jobs]. rewrite lookup_alter.
    case_decide as Hid; [|apply Hinv].
    destruct (jobs s !! job_id) as [j0|] eqn:Hj0; [|discriminate].
    intros [= <-]. cbn. discriminate.
Qed.

Lemma running_hides_ports_reachable (es : list event) :
  running_hides_ports (run_events net es).
Proof.
  unfold run_events. induction es as [|e es IH] using rev_ind.
  - apply running_hides_ports_initial.
  - rewrite foldl_app. cbn [foldl]. destruct e as [req | job_id]; cbn [apply_event].
    + apply running_hides_ports_start, IH.
    + apply running_hides_ports_worker, IH.
Qed.

(** A port found open goes to the database at once, and leaves the job's
    entry in the store as it was, but for the progress. *)
Lemma worker_step_open (job_id : string) (s : state) (w : worker) (j : job) :
  workers s !! job_id = Some w -> jobs s !! job_id = Some j ->
  returned w = false ->
  w_start_port w <= next_port w <= w_end_port w ->
  next_port w = w_start_port w + w_scanned w ->
  w_end_port w - w_start_port w + 1 < 2 ^ 53 ->
  attempt net w (next_port w) = Some true ->
  let s' := worker_step net job_id s in
  Database.scan_results (db s')
  = Database.scan_results (db s)
    ++ [ {| Database.sr_session_id := w_session_id w;
            Database.sr_port := next_port w;
            Database.sr_service := "unknown";
            Database.sr_status := "open" |} ]
  /\ jobs s' !! job_id
     = Some (set_progress
               (percent (w_scanned w + 1) (w_end_port w - w_start_port w + 1)) j).
Proof.
  intros Hw Hj Hret Hrange Hnext Htot Hatt s'. subst s'.
  unfold worker_step. rewrite Hw, Hret.
  replace (next_port w <=? w_end_port w) with true by (symmetry; apply Z.leb_le; lia).
  rewrite Hatt.
  destruct (percent_defined (w_scanned w + 1) (w_end_port w - w_start_port w + 1))
    as [Hp _]; [lia | lia |].
  rewrite Hp. cbn [db jobs]. split; [reflexivity|].
  rewrite lookup_alter, decide_True by reflexivity. rewrite Hj. reflexivity.
Qed.


(** The progress a running job shows is the one its worker last computed. *)
Definition shown_progress (w : worker) : Z :=
  if w_scanned w =? 0 then 0
  else percent (w_scanned w) (w_end_port w - w_start_port w + 1).

Definition tracks_worker (s : state) : Prop :=
  forall job_id w, workers s !! job_id = Some w -> returned w = false ->
    0 <= w_scanned w
    /\ next_port w = w_start_port w + w_scanned w
    /\ next_port w <= Z.max (w_end_port w + 1) (w_start_port w)
    /\ exists j, jobs s !! job_id = Some j /\ status j = "running"%string
                 /\ progress j = shown_progress w.

Lemma tracks_worker_initial : tracks_worker initial.
Proof. intros job_id w H. cbn in H. rewrite lookup_empty in H. discriminate. Qed.

Lemma tracks_worker_start (req : request) (s : state) :
  tracks_worker s -> tracks_worker (api_start_scan req s).2.
Proof.
  intros Hinv. unfold api_start_scan.
  destruct (String.eqb _ _); [exact Hinv|].
  destruct (Database.create_session _ _ _ _) as [sid db'].
  intros job_id w. cbn [snd jobs workers]. rewrite !lookup_insert.
  case_decide as Hid.
  - intros [= <-] _. cbn. repeat split; try lia. eexists. repeat split.
  - apply Hinv.
Qed.

Lemma tracks_worker_step (job_id : string) (s : state) :
  tracks_worker s -> tracks_worker (worker_step net job_id s).
Proof.
  intros Hinv. unfold worker_step.
  destruct (workers s !! job_id) as [w|] eqn:Hw; [|exact Hinv].
  destruct (returned w) eqn:Hret; [exact Hinv|].
  destruct (Hinv job_id w Hw Hret) as (Hsc & Hnext & Hmax & j & Hj & Hst & Hpr).
  destruct (next_port w <=? w_end_port w) eqn:Hle.
  - apply Z.leb_le in Hle.
    destruct (progress_percent _ _) as [e|p] eqn:Hp.
    + intros jid w'. cbn [jobs workers]. rewrite lookup_insert.
      case_decide as Hid; [intros [= <-]; discriminate | apply Hinv].
    + intros jid w'. cbn [jobs workers]. rewrite lookup_insert, lookup_alter.
      case_decide as Hid; [| apply Hinv].
      intros [= <-] _. cbn. repeat split; try lia.
      rewrite Hj. eexists. split; [reflexivity|]. split; [exact Hst|].
      cbn. unfold shown_progress, percent. cbn.
      replace (w_scanned w + 1 =? 0) with false by (symmetry; apply Z.eqb_neq; lia).
      rewrite Hp. reflexivity.
  - intros jid w'. cbn [jobs workers]. rewrite lookup_insert, lookup_alter.
    case_decide as Hid; [intros [= <-]; discriminate | apply Hinv].
Qed.

Lemma tracks_worker_reachable (es : list event) :
  tracks_worker (run_events net es).
Proof.
  unfold run_events. induction es as [|e es IH] using rev_ind.
  - apply tracks_worker_initial.
  - rewrite foldl_app. cbn [foldl]. destruct e as [req | job_id]; cbn [apply_event].
    + apply tracks_worker_start, IH.
    + apply tracks_worker_step, IH.
Qed.

End JobStore.

(** ** The controller and its slots *)
Section Controller.
Import RedTeam RedTeamModule.
Variable net : network.

(** The session of the current scan exists in the table. *)
Definition session_open (m : t) (sid : Z) : Prop :=
  current_session_id m = Some sid
  /\ 1 <= sid <= Z.of_nat (length (Database.sessions (db_manager m))).

Lemma slot_session_open (s : signal) (m : t) (sid : Z) :
  session_open m sid -> session_open (slot s m) sid.
Proof.
  intros [Hsid Hlen]. destruct s as [v | tgt port service | res | msg];
    cbn [slot]; unfold session_open.
  - split; assumption.
  - unfold display_result. cbn [current_session_id with_display]. rewrite Hsid.
    destruct (sid =? 0); split; assumption.
  - unfold scan_finished.
    cbn [current_session_id with_display with_buttons log db_manager].
    rewrite Hsid. destruct (sid =? 0); cbn; [split; assumption|].
    split; [assumption|].
    destruct (1 <=? sid); [rewrite length_alter|]; assumption.
  - split; assumption.
Qed.

Lemma slots_session_open (l : list signal) (m : t) (sid : Z) :
  session_open m sid -> session_open (foldl (fun acc s => slot s acc) m l) sid.
Proof.
  revert m. induction l as [|s l IH]; intros m H; [exact H|].
  cbn [foldl]. apply IH, slot_session_open, H.
Qed.

(** [scan_finished] marks the session completed, whatever made the thread
    leave its loop. *)
Lemma scan_finished_status (res : ScanResults) (m : t) (sid : Z) :
  session_open m sid ->
  session_status (scan_finished res m) = Some "completed"%string.
Proof.
  intros [Hsid Hlen]. unfold session_status, scan_finished.
  cbn [current_session_id with_display with_buttons log db_manager].
  rewrite Hsid.
  replace (sid =? 0) with false by (symmetry; apply Z.eqb_neq; lia).
  cbn. unfold Database.get_session_by_id, Database.update_session. cbn.
  rewrite Hsid. cbn.
  replace (1 <=? sid) with true by (symmetry; apply Z.leb_le; lia).
  rewrite list_lookup_alter, decide_True by reflexivity.
  destruct (Database.sessions (db_manager m) !! Z.to_nat (sid - 1)) as [row|] eqn:Hrow.
  - reflexivity.
  - apply lookup_ge_None in Hrow. lia.
Qed.

Lemma session_status_with_thread (th : option PortScannerThread) (n : nat) (m : t) :
  session_status (with_thread th n m) = session_status m.
Proof. reflexivity. Qed.

(** The thread of a controller is in its loop. *)
Definition scanning (m : t) (th : PortScannerThread) : Prop :=
  scanner_thread m = Some th /\ isRunning th = true
  /\ (delivered m <= length (emitted th))%nat.

Lemma wait_stop (th : PortScannerThread) :
  isRunning th = true ->
  wait net (stop th)
  = set_control finished (emit (scan_complete (results_of th)) (stop th)).
Proof.
  intros Hrun. unfold isRunning in Hrun.
  destruct (control_point th) as [|port scanned|] eqn:Hc; try discriminate.
  apply (wait_leave net (stop th) port scanned); [exact Hc|].
  cbn. apply andb_false_r.
Qed.

Lemma stop_scan_scanning (m : t) (th : PortScannerThread) :
  scanning m th ->
  stop_scan net m
  = with_buttons true false
      (log "RED_TEAM" "Port scan stopped by user" "WARNING"
         (with_display (fun d => d ++ ["Scan stopped by user"%string])
            (with_thread
               (Some (set_control finished
                        (emit (scan_complete (results_of th)) (stop th))))
               (delivered m) m))).
Proof.
  intros (Hth & Hrun & _). unfold stop_scan. rewrite Hth, Hrun, wait_stop by exact Hrun.
  reflexivity.
Qed.

Lemma stop_scan_idle (m : t) :
  match scanner_thread m with
  | Some th => isRunning th = false
  | None => True
  end ->
  stop_scan net m = with_buttons true false m.
Proof.
  intros H. unfold stop_scan.
  destruct (scanner_thread m) as [th|]; [rewrite H|]; reflexivity.
Qed.

Lemma cancelled_then_completed (m : t) (th : PortScannerThread) (sid : Z) :
  scanning m th -> session_open m sid ->
  session_status (process_events (stop_scan net m)) = Some "completed"%string.
Proof.
  intros Hsc Hopen. pose proof Hsc as (Hth & Hrun & Hdel).
  rewrite (stop_scan_scanning m th Hsc).
  unfold process_events. rewrite session_status_with_thread.
  unfold pending. cbn [scanner_thread delivered with_buttons log with_display with_thread].
  cbn [emitted set_control emit stop].
  rewrite drop_app_le by exact Hdel. rewrite foldl_app. cbn [foldl slot].
  apply (scan_finished_status _ _ sid).
  apply slots_session_open. exact Hopen.
Qed.

End Controller.


(** ** Threads under interference *)
Section Interference.
Import RedTeam.
Variable net : network.

Lemma exec_finished (a : action) (th : PortScannerThread) :
  control_point th = finished ->
  control_point (exec net th a) = finished /\ emitted (exec net th a) = emitted th
  /\ open_ports (exec net th a) = open_ports th.
Proof.
  intros H. destruct a; cbn [exec].
  - rewrite run_step_finished by exact H. auto.
  - cbn. auto.
Qed.

Lemma execs_finished (acts : list action) (th : PortScannerThread) :
  control_point th = finished ->
  emitted (foldl (exec net) th acts) = emitted th
  /\ open_ports (foldl (exec net) th acts) = open_ports th.
Proof.
  revert th. induction acts as [|a acts IH]; intros th H; [auto|].
  cbn [foldl]. destruct (exec_finished a th H) as (Hc & He & Ho).
  destruct (IH _ Hc) as [He' Ho']. rewrite He', Ho'. auto.
Qed.

(** A terminal signal is emitted when [run] returns, and only then. *)
Definition terminal_once (th : PortScannerThread) : Prop :=
  length (filter (fun s => is_terminal s) (emitted th))
  = match control_point th with finished => 1%nat | _ => 0%nat end.

Lemma terminal_once_exec (a : action) (th : PortScannerThread) :
  terminal_once th -> terminal_once (exec net th a).
Proof.
  unfold terminal_once. intros H. destruct a; cbn [exec]; [|exact H].
  unfold run_step.
  destruct (control_point th) as [|port scanned|] eqn:Hc; try (rewrite Hc; exact H).
  destruct ((port <=? end_port th) && is_running th).
  - unfold scan_one.
    destruct (progress_percent _ _) as [e|p];
      destruct (String.eqb _ _); cbn;
      rewrite ?filter_app, ?length_app, H; cbn;
      repeat (first [rewrite decide_True by exact I | rewrite decide_False by exact id]);
      cbn; lia.
  - cbn. rewrite filter_app, length_app, H. cbn.
    repeat (first [rewrite decide_True by exact I | rewrite decide_False by exact id]).
    cbn. lia.
Qed.

Lemma terminal_once_execs (acts : list action) (th : PortScannerThread) :
  terminal_once th -> terminal_once (foldl (exec net) th acts).
Proof.
  revert th. induction acts as [|a acts IH]; intros th H; [exact H|].
  cbn [foldl]. apply IH, terminal_once_exec, H.
Qed.

End Interference.


(** ** Cancellation *)

(** C1 (as the code has it). For every port scan cancelled while its thread
    is in the loop, [stop_scan] leaves the open ports found so far intact and
    the thread emits exactly one more signal once the cancellation is
    observed, [scan_complete] carrying those ports: no further progress or
    result signal, then or ever after. The controller handles that signal as
    a completion, so the session of the cancelled scan is recorded as
    ['completed']; there is no cancelled state. *)
Theorem cancel_stops_scan_and_completes (net : network) (m : RedTeamModule.t)
    (th : RedTeam.PortScannerThread) (sid : Z) :
  scanning m th -> session_open m sid ->
  let th' := RedTeam.wait net (RedTeam.stop th) in
  RedTeamModule.scanner_thread (RedTeamModule.stop_scan net m) = Some th'
  /\ RedTeam.open_ports th' = RedTeam.open_ports th
  /\ RedTeam.emitted th'
     = RedTeam.emitted th ++ [RedTeam.scan_complete (RedTeam.results_of th)]
  /\ (forall acts, RedTeam.emitted (foldl (exec net) th' acts) = RedTeam.emitted th'
                   /\ RedTeam.open_ports (foldl (exec net) th' acts)
                      = RedTeam.open_ports th)
  /\ RedTeamModule.session_status
       (RedTeamModule.process_events (RedTeamModule.stop_scan net m))
     = Some "completed"%string.
Proof.
  intros Hsc Hopen th'. pose proof Hsc as (Hth & Hrun & Hdel).
  assert (Hth' : th' = RedTeam.set_control RedTeam.finished
                         (RedTeam.emit (RedTeam.scan_complete (RedTeam.results_of th))
                            (RedTeam.stop th)))
    by (apply wait_stop, Hrun).
  split; [| split; [| split; [| split]]].
  - rewrite (stop_scan_scanning net m th Hsc), Hth'. reflexivity.
  - rewrite Hth'. reflexivity.
  - rewrite Hth'. reflexivity.
  - intros acts.
    destruct (execs_finished net acts th') as [He Ho]; [rewrite Hth'; reflexivity|].
    rewrite He, Ho, Hth'. auto.
  - apply (cancelled_then_completed net m th sid Hsc Hopen).
Qed.

(** A scan of ports 22 to 25 of a host serving port 22 only, cancelled after
    the first port. *)
Definition cancelled_after_one_port : RedTeamModule.t :=
  RedTeamModule.thread_step (serving [22])
    (RedTeamModule.start_scan
       (RedTeamModule.set_consent true
          (RedTeamModule.edit_target "127.0.0.1"
             (RedTeamModule.with_range 22 25 1
                (RedTeamModule.init Database.empty []))))).

Definition thread_after_one_port : RedTeam.PortScannerThread :=
  RedTeam.run_step (serving [22])
    (RedTeam.start (RedTeam.init "127.0.0.1" 22 25 1)).

Lemma cancel_stops_scan_and_completes_witness :
  scanning cancelled_after_one_port thread_after_one_port
  /\ session_open cancelled_after_one_port 1
  /\ RedTeam.open_ports (RedTeam.wait (serving [22]) (RedTeam.stop thread_after_one_port))
     = [22]
  /\ RedTeamModule.session_status
       (RedTeamModule.process_events
          (RedTeamModule.stop_scan (serving [22]) cancelled_after_one_port))
     = Some "completed"%string.
Proof.
  assert (H1 : scanning cancelled_after_one_port thread_after_one_port)
    by (repeat split; vm_compute; lia).
  assert (H2 : session_open cancelled_after_one_port 1)
    by (repeat split; vm_compute; congruence).
  pose proof (cancel_stops_scan_and_completes (serving [22])
                cancelled_after_one_port thread_after_one_port 1 H1 H2)
    as (_ & Ho & _ & _ & Hs).
  split; [exact H1 | split; [exact H2 | split; [| exact Hs]]].
  rewrite Ho. vm_compute. reflexivity.
Defined.

(** C1 (as stated) fails: the scan cancelled after its first port ends with
    its session recorded as ['completed'], not as cancelled, and the last
    signal of its thread is the completion signal. *)
Lemma cancelled_scan_is_recorded_completed :
  let m := RedTeamModule.process_events
             (RedTeamModule.stop_scan (serving [22]) cancelled_after_one_port) in
  RedTeamModule.session_status m = Some "completed"%string
  /\ RedTeamModule.session_status m <> Some "cancelled"%string
  /\ (RedTeam.emitted <$> RedTeamModule.scanner_thread m)
     = Some [ RedTeam.result_update "127.0.0.1" 22 "SSH";
              RedTeam.progress_update 25;
              RedTeam.scan_complete
                {| res_target := "127.0.0.1"; res_start_port := 22;
                   res_end_port := 25; res_open_ports := [22] |} ].
Proof.
  vm_compute. split; [reflexivity | split; [discriminate | reflexivity]].
Qed.

(** ** Idempotence of cancellation *)

(** C7. Cancelling twice leaves the controller exactly as cancelling once
    does, the thread then being out of its loop; cancelling when the thread
    has already returned changes nothing but the two buttons, which it sets
    as every cancellation does; [stop] twice is [stop] once; and however
    steps of the thread and calls of [stop] interleave, the thread emits its
    terminal signal exactly once, when [run] returns, so results are
    finalised once. *)
Theorem stop_scan_idempotent (net : network) (m : RedTeamModule.t)
    (tgt : string) (sp ep tmo : Z) (acts : list action) :
  let m1 := RedTeamModule.stop_scan net m in
  RedTeamModule.stop_scan net m1 = m1
  /\ (RedTeam.isRunning <$> RedTeamModule.scanner_thread m1) <> Some true
  /\ (forall th,
        let done := RedTeamModule.with_thread
                      (Some (RedTeam.set_control RedTeam.finished th))
                      (RedTeamModule.delivered m) m in
        RedTeamModule.stop_scan net done = RedTeamModule.with_buttons true false done)
  /\ (forall th, RedTeam.stop (RedTeam.stop th) = RedTeam.stop th)
  /\ terminal_once (foldl (exec net) (RedTeam.start (RedTeam.init tgt sp ep tmo)) acts).
Proof.
  intros m1.
  assert (Hrun : (RedTeam.isRunning <$> RedTeamModule.scanner_thread m1) <> Some true).
  { subst m1. unfold RedTeamModule.stop_scan.
    destruct (RedTeamModule.scanner_thread m) as [th|] eqn:Hth; cbn.
    - destruct (RedTeam.isRunning th) eqn:Hr; cbn.
      + rewrite wait_stop by exact Hr. cbn. discriminate.
      + rewrite Hth. cbn. rewrite Hr. discriminate.
    - rewrite Hth. discriminate. }
  split; [| split; [exact Hrun | split; [| split]]].
  - rewrite (stop_scan_idle net m1).
    + subst m1. unfold RedTeamModule.stop_scan. reflexivity.
    + destruct (RedTeamModule.scanner_thread m1) as [th|]; [|exact I].
      cbn in Hrun. destruct (RedTeam.isRunning th); [contradiction Hrun|]; reflexivity.
  - intros th done. apply stop_scan_idle. reflexivity.
  - intros th. reflexivity.
  - apply terminal_once_execs. reflexivity.
Qed.



Lemma percent_nonneg (s t : Z) :
  1 <= s < 2 ^ 53 -> 1 <= t < 2 ^ 53 -> 0 <= percent s t.
Proof.
  intros Hs Ht. destruct (percent_defined s t Hs Ht) as [_ (v & v' & _ & Hv' & ->)].
  apply Z.div_pos; [| apply Z.pow_pos_nonneg; unfold K; lia].
  apply rounds_to_pos in Hv'; lia.
Qed.

(** ** An unresolvable host *)

(** C2 (what the code does). When every probe of the target fails to resolve
    the host, the scanner thread still probes every port of the range: it
    emits one progress signal per port and then [scan_complete] with no open
    port; [error_occurred] is never emitted and the task does not fail. *)
Theorem unresolved_host_scan_completes (net : network) (tgt : string)
    (sp ep tmo : Z) :
  sp <= ep -> ep - sp + 1 < 2 ^ 53 ->
  (forall port, net tgt port = gaierror) ->
  let total := ep - sp + 1 in
  let th := RedTeam.run net (RedTeam.init tgt sp ep tmo) in
  RedTeam.emitted th
  = ((fun i => RedTeam.progress_update (percent i total)) <$> seqZ 1 total)
    ++ [RedTeam.scan_complete {| res_target := tgt; res_start_port := sp;
                                 res_end_port := ep; res_open_ports := [] |}]
  /\ RedTeam.control_point th = RedTeam.finished
  /\ Z.of_nat (length (progress_values (RedTeam.emitted th))) = total.
Proof.
  intros Hle Ht Hnet total th. subst th.
  rewrite run_closed_form by assumption. cbn [RedTeam.emitted RedTeam.control_point].
  assert (Hclosed : forall ports,
             filter (fun p => is_open net tgt p) ports = []
             /\ ports ≫= port_signals net tgt sp total
                = (fun port => RedTeam.progress_update (percent (port - sp + 1) total))
                    <$> ports).
  { induction ports as [|p ports [IH1 IH2]]; [split; reflexivity|].
    rewrite filter_cons. cbn [mbind list_bind fmap list_fmap].
    unfold is_open, port_signals, RedTeam.scan_port in *. rewrite Hnet.
    cbn [String.eqb Ascii.eqb Bool.eqb andb]. cbn.
    rewrite decide_False by exact id. split; [exact IH1|]. f_equal. exact IH2. }
  destruct (Hclosed (seqZ sp total)) as [Hf Hs]. fold total. rewrite Hf.
  split; [| split; [reflexivity|]].
  - rewrite Hs. f_equal.
    replace (seqZ sp total) with (Z.add (sp - 1) <$> seqZ 1 total)
      by (rewrite fmap_add_seqZ; f_equal; lia).
    rewrite <- list_fmap_compose. apply list_fmap_ext. intros _ x _. cbn.
    do 2 f_equal. lia.
  - unfold progress_values. rewrite bind_app. cbn [mbind list_bind]. rewrite app_nil_r.
    fold (progress_values (seqZ sp total ≫= port_signals net tgt sp total)).
    rewrite progress_values_port_signals, length_fmap, length_seqZ. lia.
Qed.

Lemma unresolved_host_scan_completes_witness :
  (1 <= 3 /\ 3 - 1 + 1 < 2 ^ 53 /\ forall port, unresolvable "no.such.host" port = gaierror)
  /\ RedTeam.emitted (RedTeam.run unresolvable (RedTeam.init "no.such.host" 1 3 1))
     = [ RedTeam.progress_update 33; RedTeam.progress_update 66;
         RedTeam.progress_update 100;
         RedTeam.scan_complete {| res_target := "no.such.host"; res_start_port := 1;
                                  res_end_port := 3; res_open_ports := [] |} ].
Proof.
  assert (H1 : 1 <= 3) by lia.
  assert (H2 : 3 - 1 + 1 < 2 ^ 53) by (vm_compute; reflexivity).
  assert (H3 : forall port, unresolvable "no.such.host" port = gaierror)
    by (intros port; reflexivity).
  split; [auto|].
  destruct (unresolved_host_scan_completes unresolvable "no.such.host" 1 3 1 H1 H2 H3)
    as (He & _ & _).
  rewrite He. vm_compute. reflexivity.
Defined.


(** ** Hits and their service labels *)

Lemma is_open_connected (net : network) (tgt : string) (port : Z) :
  is_open net tgt port <-> net tgt port = connected.
Proof.
  unfold is_open, RedTeam.scan_port.
  destruct (net tgt port); cbn; split; (discriminate || tauto || reflexivity || auto).
Qed.

(** C9 (as the code has it). For every port the scanner thread finds open it
    records the port and emits a hit whose service label is looked up in the
    thread's own static table, which has 19 entries, a port absent from it
    being labelled "unknown"; a port that is not open produces no hit. In
    particular, scanning 1 to 100 on a host serving only port 22 yields the
    single hit (22, "SSH"). *)
Theorem hits_labelled_from_scanner_table (net : network) (tgt : string)
    (sp ep tmo : Z) :
  sp <= ep -> ep - sp + 1 < 2 ^ 53 ->
  let th := RedTeam.run net (RedTeam.init tgt sp ep tmo) in
  let found := filter (fun port => net tgt port = connected) (seqZ sp (ep - sp + 1)) in
  RedTeam.open_ports th = found
  /\ hits (RedTeam.emitted th)
     = (fun port => (port, default "unknown"%string (RedTeam.common_ports !! port)))
         <$> found
  /\ size RedTeam.common_ports = 19%nat.
Proof.
  intros Hle Ht th found. subst th.
  rewrite run_closed_form by assumption. cbn [RedTeam.open_ports RedTeam.emitted].
  assert (Hf : filter (fun p => is_open net tgt p) (seqZ sp (ep - sp + 1)) = found).
  { apply list_filter_iff. intros port. apply is_open_connected. }
  split; [exact Hf | split; [| vm_compute; reflexivity]].
  unfold hits. rewrite bind_app. cbn [mbind list_bind]. rewrite app_nil_r.
  fold (hits (seqZ sp (ep - sp + 1) ≫= port_signals net tgt sp (ep - sp + 1))).
  rewrite hits_port_signals, Hf. reflexivity.
Qed.

Lemma hits_labelled_from_scanner_table_witness :
  (1 <= 100 /\ 100 - 1 + 1 < 2 ^ 53)
  /\ RedTeam.open_ports (RedTeam.run (serving [22]) (RedTeam.init "10.0.0.5" 1 100 1))
     = [22]
  /\ hits (RedTeam.emitted
             (RedTeam.run (serving [22]) (RedTeam.init "10.0.0.5" 1 100 1)))
     = [(22, "SSH"%string)].
Proof.
  assert (H1 : 1 <= 100) by lia.
  assert (H2 : 100 - 1 + 1 < 2 ^ 53) by (vm_compute; reflexivity).
  split; [auto|].
  destruct (hits_labelled_from_scanner_table (serving [22]) "10.0.0.5" 1 100 1 H1 H2)
    as (Ho & Hh & _).
  rewrite Ho, Hh. split; vm_compute; reflexivity.
Defined.

(** C9 (as stated) fails: the table of about sixty ports is [COMMON_PORTS] of
    [config.py], with 49 entries, and the scanner does not consult it. A
    host serving port 69 is reported with the label "unknown" although that
    table names the port "TFTP"; and the web worker stores "unknown" for
    port 22. *)
Lemma label_not_from_extended_table :
  hits (RedTeam.emitted (RedTeam.run (serving [69]) (RedTeam.init "10.0.0.5" 69 69 1)))
  = [(69, "unknown"%string)]
  /\ Config.COMMON_PORTS !! 69 = Some "TFTP"%string
  /\ size Config.COMMON_PORTS = 49%nat
  /\ size RedTeam.common_ports = 19%nat
  /\ Database.scan_results
       (WebUI.db
          (WebUI.run_events (serving [22])
             [ WebUI.ev_start {| WebUI.body_target := Some "10.0.0.5"%string;
                                 WebUI.body_start_port := Some 22;
                                 WebUI.body_end_port := Some 22;
                                 WebUI.body_timeout := None |};
               WebUI.ev_worker "job-1" ]))
     = [ {| Database.sr_session_id := 1; Database.sr_port := 22;
            Database.sr_service := "unknown"; Database.sr_status := "open" |} ].
Proof.
  vm_compute. repeat split; reflexivity.
Qed.

(** ** Progress *)

(** C3 (as the code has it). On every valid range, after every port attempt
    and whatever its outcome, progress is set to the binary64 value of
    [int((scanned / total) * 100)]. It never raises. It is the floor of
    100 x scanned / total unless total divides 100 x scanned, when it is that
    quotient or one less (28 after 29 ports of 100). The sequence of values a
    scan that is not cancelled emits is that of 1, ..., total scanned ports;
    it is non-decreasing; its last value is exactly 100 and is followed by
    the completion. In the web worker each step of a running job publishes
    the next value, not below the one shown before, and the step that marks
    the job ['completed'] finds the progress at exactly 100. *)
Theorem progress_nondecreasing_and_full (sp ep : Z) :
  sp <= ep -> ep - sp + 1 < 2 ^ 53 ->
  let total := ep - sp + 1 in
  (forall i, 1 <= i <= total -> progress_percent i total = inr (percent i total))
  /\ (forall i j, 1 <= i -> i <= j -> j <= total -> percent i total <= percent j total)
  /\ percent total total = 100
  /\ (total < 2 ^ 45 ->
      forall i, 1 <= i <= total ->
        100 * i / total - 1 <= percent i total <= 100 * i / total
        /\ ((100 * i) mod total <> 0 -> percent i total = 100 * i / total))
  /\ (forall net tgt tmo,
        let th := RedTeam.run net (RedTeam.init tgt sp ep tmo) in
        progress_values (RedTeam.emitted th)
        = (fun i => percent i total) <$> seqZ 1 total
        /\ exists res, RedTeam.emitted th
                       = (seqZ sp total ≫= port_signals net tgt sp total)
                         ++ [RedTeam.scan_complete res])
  /\ (forall net es job_id w,
        let s := WebUI.run_events net es in
        WebUI.workers s !! job_id = Some w -> WebUI.returned w = false ->
        WebUI.w_start_port w = sp -> WebUI.w_end_port w = ep ->
        exists j, WebUI.jobs s !! job_id = Some j
          /\ WebUI.status j = "running"%string
          /\ WebUI.api_scan_status job_id (WebUI.worker_step net job_id s)
             = (if WebUI.next_port w <=? ep
                then WebUI.status_of "running"
                       (percent (WebUI.w_scanned w + 1) total) []
                else WebUI.status_of "completed" 100 (WebUI.w_open_ports w))
          /\ (WebUI.next_port w <= ep ->
              WebUI.progress j <= percent (WebUI.w_scanned w + 1) total)).
Proof.
  intros Hle Ht total.
  split; [| split; [| split; [| split; [| split]]]].
  - intros i Hi. apply percent_defined; lia.
  - intros i j Hi Hij Hj. apply percent_mono; lia.
  - apply percent_full. lia.
  - intros Hsmall i Hi. apply percent_floor; lia.
  - intros net tgt tmo th. subst th. rewrite run_closed_form by assumption.
    cbn [RedTeam.emitted]. fold total. split; [| eexists; reflexivity].
    unfold progress_values. rewrite bind_app. cbn [mbind list_bind]. rewrite app_nil_r.
    fold (progress_values (seqZ sp total ≫= port_signals net tgt sp total)).
    rewrite progress_values_port_signals.
    apply (seqZ_shift_fmap (fun i => percent i total)).
  - intros net es job_id w s Hw Hret Hsp Hep. subst s.
    destruct (tracks_worker_reachable net es job_id w Hw Hret)
      as (Hsc & Hnext & Hmax & j & Hj & Hst & Hpr).
    pose proof (running_hides_ports_reachable net es job_id j Hj Hst) as Hports.
    exists j. split; [exact Hj | split; [exact Hst|]].
    unfold shown_progress in Hpr. rewrite Hsp, Hep in *. fold total in Hpr.
    unfold WebUI.api_scan_status, WebUI.worker_step. rewrite Hw, Hret, Hep, Hsp.
    fold total.
    destruct (WebUI.next_port w <=? ep) eqn:Hn;
      [apply Z.leb_le in Hn | apply Z.leb_gt in Hn].
    + destruct (percent_defined (WebUI.w_scanned w + 1) total) as [Hp _];
        [lia | lia |].
      rewrite Hp. cbn [WebUI.jobs]. rewrite lookup_alter, decide_True by reflexivity.
      rewrite Hj. cbn. rewrite Hst, Hports. split; [reflexivity|].
      intros _. rewrite Hpr.
      destruct (WebUI.w_scanned w =? 0) eqn:Hz;
        [apply Z.eqb_eq in Hz | apply Z.eqb_neq in Hz].
      * apply percent_nonneg; lia.
      * apply percent_mono; lia.
    + cbn [WebUI.jobs]. rewrite lookup_alter, decide_True by reflexivity.
      rewrite Hj. cbn. split; [| lia].
      f_equal. rewrite Hpr.
      assert (WebUI.w_scanned w = total) as -> by (unfold total; lia).
      replace (total =? 0) with false by (symmetry; apply Z.eqb_neq; lia).
      apply percent_full. lia.
Qed.


Lemma progress_nondecreasing_and_full_witness :
  (1 <= 100 /\ 100 - 1 + 1 < 2 ^ 53)
  /\ percent 100 100 = 100
  /\ progress_values
       (RedTeam.emitted (RedTeam.run (serving [22]) (RedTeam.init "10.0.0.5" 1 100 1)))
     = (fun i => percent i 100) <$> seqZ 1 100.
Proof.
  assert (H1 : 1 <= 100) by lia.
  assert (H2 : 100 - 1 + 1 < 2 ^ 53) by (vm_compute; reflexivity).
  split; [auto|].
  destruct (progress_nondecreasing_and_full 1 100 H1 H2) as (_ & _ & Hfull & _ & Hrun & _).
  split; [exact Hfull|].
  destruct (Hrun (serving [22]) "10.0.0.5"%string 1) as [Hv _]. exact Hv.
Defined.

(** C3 (as stated) fails: scanning ports 1 to 100, the progress set after the
    29th port is 28, whereas the floor of 29/100 x 100 is 29. *)
Lemma progress_is_not_the_floor :
  progress_values
    (RedTeam.emitted (RedTeam.run (serving []) (RedTeam.init "10.0.0.5" 1 100 1)))
    !! 28%nat = Some 28
  /\ progress_percent 29 100 = inr 28
  /\ 29 * 100 / 100 = 29.
Proof.
  vm_compute. repeat split; reflexivity.
Qed.

(** ** What a status query shows *)

(** C10. In every state the job store can reach, a status response whose
    status is ['running'] carries an empty list of open ports; and when a
    running worker finds its next port open, the step writes the row to the
    database at once while the response for the job still shows none. The
    list becomes visible by the step that sets the status to ['completed']
    (see [complete]). *)
Theorem running_job_shows_no_open_ports (net : network) (es : list WebUI.event)
    (job_id : string) :
  let s := WebUI.run_events net es in
  (forall st p ports,
      WebUI.api_scan_status job_id s = WebUI.status_of st p ports ->
      st = "running"%string -> ports = [])
  /\ (forall w,
        WebUI.workers s !! job_id = Some w -> WebUI.returned w = false ->
        WebUI.next_port w <= WebUI.w_end_port w ->
        WebUI.w_end_port w - WebUI.w_start_port w + 1 < 2 ^ 53 ->
        WebUI.attempt net w (WebUI.next_port w) = Some true ->
        let s' := WebUI.worker_step net job_id s in
        Database.scan_results (WebUI.db s')
        = Database.scan_results (WebUI.db s)
          ++ [ {| Database.sr_session_id := WebUI.w_session_id w;
                  Database.sr_port := WebUI.next_port w;
                  Database.sr_service := "unknown";
                  Database.sr_status := "open" |} ]
        /\ exists p, WebUI.api_scan_status job_id s'
                     = WebUI.status_of "running" p []).
Proof.
  intros s. subst s. split.
  - intros st p ports Hresp Hst. unfold WebUI.api_scan_status in Hresp.
    destruct (WebUI.jobs (WebUI.run_events net es) !! job_id) as [j|] eqn:Hj;
      [|discriminate].
    injection Hresp as <- <- <-.
    apply (running_hides_ports_reachable net es job_id j Hj Hst).
  - intros w Hw Hret Hn Ht Hatt s'. subst s'.
    destruct (tracks_worker_reachable net es job_id w Hw Hret)
      as (Hsc & Hnext & Hmax & j & Hj & Hst & Hpr).
    pose proof (running_hides_ports_reachable net es job_id j Hj Hst) as Hports.
    destruct (worker_step_open net job_id _ w j Hw Hj Hret) as [Hdb Hjob];
      try assumption; try lia.
    split; [exact Hdb|].
    unfold WebUI.api_scan_status. rewrite Hjob. cbn. rewrite Hst, Hports.
    eexists. reflexivity.
Qed.

Lemma running_job_shows_no_open_ports_witness :
  let req := {| WebUI.body_target := Some "10.0.0.5"%string;
                WebUI.body_start_port := Some 22;
                WebUI.body_end_port := Some 23;
                WebUI.body_timeout := None |} in
  let s := WebUI.run_events (serving [22]) [WebUI.ev_start req] in
  let w := {| WebUI.w_session_id := 1; WebUI.w_target := "10.0.0.5";
              WebUI.w_start_port := 22; WebUI.w_end_port := 23;
              WebUI.w_timeout := Float64.float_of_int 1;
              WebUI.w_open_ports := []; WebUI.w_scanned := 0;
              WebUI.next_port := 22; WebUI.returned := false |} in
  let s' := WebUI.worker_step (serving [22]) "job-1" s in
  (WebUI.workers s !! "job-1"%string = Some w
   /\ WebUI.attempt (serving [22]) w 22 = Some true)
  /\ Database.scan_results (WebUI.db s')
     = [ {| Database.sr_session_id := 1; Database.sr_port := 22;
            Database.sr_service := "unknown"; Database.sr_status := "open" |} ]
  /\ WebUI.api_scan_status "job-1" s' = WebUI.status_of "running" 50 []
  /\ WebUI.api_scan_status "job-1"
       (WebUI.worker_step (serving [22]) "job-1"
          (WebUI.worker_step (serving [22]) "job-1" s'))
     = WebUI.status_of "completed" 100 [22].
Proof.
  intros req s w s'.
  assert (Hw : WebUI.workers s !! "job-1"%string = Some w) by (vm_compute; reflexivity).
  assert (Ha : WebUI.attempt (serving [22]) w (WebUI.next_port w) = Some true)
    by (vm_compute; reflexivity).
  destruct (running_job_shows_no_open_ports (serving [22]) [WebUI.ev_start req] "job-1")
    as [_ Hstep].
  destruct (Hstep w Hw eq_refl) as [Hdb [p Hp]];
    [vm_compute; discriminate | vm_compute; reflexivity | exact Ha |].
  split; [split; [exact Hw | exact Ha]|].
  split; [exact Hdb|].
  split; vm_compute; reflexivity.
Defined.

(** ** Creation requests *)

(** C4 (as the code has it). A desktop request with start port above end port
    is refused with a warning. A web request whose body is an object with no
    target, or with a target that is false ([None], the empty string), is
    refused: with status 400 when the port and timeout members convert, and
    with status 500 when one of them does not, the conversions coming before
    the test of the target. In all these cases the session table, the audit
    log and the threads or jobs are left as they were, so nothing is
    scheduled. The timeout is validated by neither entry point: whatever its
    value, a desktop request with a valid range and a web request with a
    target create their session and start their thread with it. *)
Theorem refused_requests_create_nothing :
  (forall m : RedTeamModule.t,
      RedTeamModule.end_port_box m < RedTeamModule.start_port_box m ->
      let m' := RedTeamModule.start_scan m in
      m' = RedTeamModule.warn "Invalid Range"
             "Start port must be less than or equal to end port!" m
      /\ RedTeamModule.db_manager m' = RedTeamModule.db_manager m
      /\ RedTeamModule.scanner_thread m' = RedTeamModule.scanner_thread m
      /\ RedTeamModule.current_session_id m' = RedTeamModule.current_session_id m
      /\ RedTeamModule.audit_logger m' = RedTeamModule.audit_logger m)
  /\ (forall (int_of_str : string -> option Z)
             (float_of_str : string -> option spec_float)
             (members : list (string * WebBody.json)) (s : WebUI.state),
        (WebBody.get "target" members = None
         \/ exists v, WebBody.get "target" members = Some v
                      /\ WebBody.truth v = false) ->
        WebBody.api_start_scan int_of_str float_of_str (WebBody.json_object members) s
        = Some (match WebBody.conversions int_of_str float_of_str members with
                | Some _ => WebUI.error 400 "target required"
                | None => WebUI.error 500 "Internal Server Error"
                end, s))
  /\ (forall m : RedTeamModule.t,
        RedTeamModule.start_port_box m <= RedTeamModule.end_port_box m ->
        let m' := RedTeamModule.start_scan m in
        (RedTeam.timeout <$> RedTeamModule.scanner_thread m')
        = Some (RedTeamModule.timeout_input m)
        /\ (RedTeam.isRunning <$> RedTeamModule.scanner_thread m') = Some true
        /\ length (Database.sessions (RedTeamModule.db_manager m'))
           = S (length (Database.sessions (RedTeamModule.db_manager m))))
  /\ (forall (int_of_str : string -> option Z)
             (float_of_str : string -> option spec_float)
             (members : list (string * WebBody.json)) (s : WebUI.state)
             (target : string) (start_port end_port : Z) (timeout : spec_float),
        WebBody.get "target" members = Some (WebBody.json_string target) ->
        target <> ""%string ->
        WebBody.conversions int_of_str float_of_str members
        = Some (start_port, end_port, timeout) ->
        exists s',
          WebBody.api_start_scan int_of_str float_of_str
            (WebBody.json_object members) s
          = Some (WebUI.started ("job-" +:+ pretty (WebUI.job_counter s + 1)), s')
          /\ length (Database.sessions (WebUI.db s'))
             = S (length (Database.sessions (WebUI.db s)))
          /\ (WebUI.w_timeout
                <$> WebUI.workers s' !! ("job-" +:+ pretty (WebUI.job_counter s + 1)))
             = Some timeout).
Proof.
  split; [| split; [| split]].
  - intros m Hlt m'. subst m'. unfold RedTeamModule.start_scan.
    replace (RedTeamModule.end_port_box m <? RedTeamModule.start_port_box m)
      with true by (symmetry; apply Z.ltb_lt; exact Hlt).
    repeat split.
  - intros int_of_str float_of_str members s H. unfold WebBody.api_start_scan.
    destruct (WebBody.conversions int_of_str float_of_str members)
      as [[[start_port end_port] timeout]|]; [|reflexivity].
    destruct H as [-> | (v & -> & Hv)]; [reflexivity|].
    destruct v as [| b | n | x | t | items | fields];
      try (rewrite Hv; reflexivity); try reflexivity.
    cbn in Hv. apply negb_false_iff in Hv.
    unfold WebUI.api_start_scan. cbn [WebUI.body_target default from_option id].
    now rewrite Hv.
  - intros m Hle m'. subst m'. unfold RedTeamModule.start_scan.
    replace (RedTeamModule.end_port_box m <? RedTeamModule.start_port_box m)
      with false by (symmetry; apply Z.ltb_ge; exact Hle).
    cbn. rewrite length_app. cbn. repeat split. lia.
  - intros int_of_str float_of_str members s target start_port end_port timeout
      Ht Hne Hc.
    unfold WebBody.api_start_scan. rewrite Hc, Ht.
    unfold WebUI.api_start_scan. cbn [WebUI.body_target default from_option id].
    replace (String.eqb target "") with false
      by (symmetry; apply String.eqb_neq; exact Hne).
    eexists. split; [reflexivity|]. cbn. rewrite length_app. cbn.
    split; [lia|]. now rewrite lookup_insert_eq.
Qed.

(** The parser used where no string is converted. *)
Definition reads_nothing {A} (s : string) : option A := None.

Lemma refused_requests_create_nothing_witness :
  let m := RedTeamModule.set_consent true
             (RedTeamModule.edit_target "10.0.0.5"
                (RedTeamModule.with_range 10 5 1
                   (RedTeamModule.init Database.empty []))) in
  let m0 := RedTeamModule.set_consent true
              (RedTeamModule.edit_target "10.0.0.5"
                 (RedTeamModule.with_range 1 10 0
                    (RedTeamModule.init Database.empty []))) in
  let empty_target :=
    [ ("target", WebBody.json_string ""); ("start_port", WebBody.json_int 1);
      ("end_port", WebBody.json_int 10) ]%string in
  let cleared_box :=
    [ ("target", WebBody.json_string ""); ("start_port", WebBody.json_null);
      ("end_port", WebBody.json_int 10) ]%string in
  let past_timeout :=
    [ ("target", WebBody.json_string "10.0.0.5"); ("start_port", WebBody.json_int 1);
      ("end_port", WebBody.json_int 10);
      ("timeout", WebBody.json_int (- 1)) ]%string in
  (RedTeamModule.end_port_box m < RedTeamModule.start_port_box m
   /\ RedTeamModule.db_manager (RedTeamModule.start_scan m) = Database.empty
   /\ RedTeamModule.scanner_thread (RedTeamModule.start_scan m) = None)
  /\ WebBody.api_start_scan reads_nothing reads_nothing
       (WebBody.json_object empty_target) WebUI.initial
     = Some (WebUI.error 400 "target required", WebUI.initial)
  /\ WebBody.api_start_scan reads_nothing reads_nothing
       (WebBody.json_object cleared_box) WebUI.initial
     = Some (WebUI.error 500 "Internal Server Error", WebUI.initial)
  /\ (RedTeamModule.start_port_box m0 <= RedTeamModule.end_port_box m0
      /\ (RedTeam.timeout <$> RedTeamModule.scanner_thread (RedTeamModule.start_scan m0))
         = Some 0)
  /\ exists s',
       WebBody.api_start_scan reads_nothing reads_nothing
         (WebBody.json_object past_timeout) WebUI.initial
       = Some (WebUI.started "job-1", s')
       /\ (WebUI.w_timeout <$> WebUI.workers s' !! "job-1"%string)
          = Some (Float64.float_of_int (- 1)).
Proof.
  intros m m0 empty_target cleared_box past_timeout.
  destruct refused_requests_create_nothing as (Hd & Hw & Hdt & Hwt).
  assert (Hlt : RedTeamModule.end_port_box m < RedTeamModule.start_port_box m)
    by (vm_compute; reflexivity).
  assert (Hle : RedTeamModule.start_port_box m0 <= RedTeamModule.end_port_box m0)
    by (vm_compute; discriminate).
  destruct (Hd m Hlt) as (_ & Hdb & Hth & _).
  destruct (Hdt m0 Hle) as (Htmo & _).
  split; [split; [exact Hlt | split]|].
  - rewrite Hdb. reflexivity.
  - rewrite Hth. reflexivity.
  - split; [|split; [|split; [split; [exact Hle | exact Htmo]|]]].
    + rewrite (Hw reads_nothing reads_nothing empty_target WebUI.initial);
        [reflexivity|].
      right. eexists. split; reflexivity.
    + rewrite (Hw reads_nothing reads_nothing cleared_box WebUI.initial);
        [reflexivity|].
      right. eexists. split; reflexivity.
    + destruct (Hwt reads_nothing reads_nothing past_timeout WebUI.initial
                  "10.0.0.5"%string 1 10 (Float64.float_of_int (- 1)))
        as (s' & H1 & _ & H2); [reflexivity | discriminate | reflexivity |].
      exists s'. split; [exact H1 | exact H2].
Defined.

(** C4 (as stated) fails: a web request with a target and timeout 0 is
    accepted: a session row and a running job are created. *)
Lemma zero_timeout_is_accepted :
  let req := {| WebUI.body_target := Some "10.0.0.5"%string;
                WebUI.body_start_port := Some 1; WebUI.body_end_port := Some 10;
                WebUI.body_timeout := Some (S754_zero false) |} in
  let '(resp, s) := WebUI.api_start_scan req WebUI.initial in
  SFleb (S754_zero false) (Float64.float_of_int 0) = true
  /\ resp = WebUI.started "job-1"
  /\ length (Database.sessions (WebUI.db s)) = 1%nat
  /\ (WebUI.status <$> WebUI.jobs s !! "job-1"%string) = Some "running"%string
  /\ (WebUI.w_timeout <$> WebUI.workers s !! "job-1"%string) = Some (S754_zero false).
Proof.
  vm_compute. repeat split; reflexivity.
Qed.


(** ** The threshold evaluator *)

(** What "to one decimal place" asks of the text of [m * 2 ^ e]: [t] is the
    number of tenths nearest to it, the even one when two are as near. With
    [scale] the power of two that makes [m * 2 ^ e * scale] an integer, [gap]
    is [scale] times the distance from [10 * m * 2 ^ e] to [t]. *)
Definition nearest_tenth (m : positive) (e : Z) (t : Z) : Prop :=
  let scale := 2 ^ Z.max (- e) 0 in
  let gap := Z.abs (10 * (Zpos m * 2 ^ Z.max e 0) - t * scale) in
  2 * gap <= scale /\ (2 * gap = scale -> Z.even t = true).

(** [text] is the value [x] written with one digit after the point. *)
Definition one_decimal (x : spec_float) (text : string) : Prop :=
  match x with
  | S754_finite s m e =>
      exists t, nearest_tenth m e t
                /\ text = (if s then "-" else "") +:+ pretty (t / 10) +:+ "."
                          +:+ pretty (t mod 10)
  | S754_zero s => text = if s then "-0.0" else "0.0"
  | S754_infinity s => text = if s then "-inf" else "inf"
  | S754_nan => text = "nan"
  end%string.

(** The alert the specification asks for when the value of a metric is
    above its threshold. *)
Definition breach_alert (sev cat : string) (value : spec_float) (a : BlueTeam.alert)
  : Prop :=
  BlueTeam.severity a = sev /\ BlueTeam.category a = cat
  /\ exists text, one_decimal value text
                  /\ BlueTeam.message a
                     = cat +:+ " usage critical: " +:+ text +:+ "%".

Section Thresholds.
Import BlueTeam.

Lemma gt_irrefl (x : spec_float) : Float64.gt x x = false.
Proof.
  unfold Float64.gt, SFltb.
  destruct x as [s | s | | s m e]; try (destruct s; reflexivity); try reflexivity.
  cbn [SFcompare]. rewrite Z.compare_refl.
  destruct s; rewrite Pos.compare_cont_refl; reflexivity.
Qed.

Definition breaches (t : thresholds) (s : stats) : list bool :=
  [ Float64.gt (stats_cpu_percent s) (cpu_percent t);
    Float64.gt (stats_memory_percent s) (memory_percent t);
    Float64.gt (stats_disk_percent s) (disk_percent t) ].

Lemma round_half_even_nearest (n d : Z) :
  0 < d ->
  let t := Float64.round_half_even n d in
  2 * Z.abs (n - t * d) <= d /\ (2 * Z.abs (n - t * d) = d -> Z.even t = true).
Proof.
  intros Hd. cbv zeta. unfold Float64.round_half_even.
  pose proof (Z.div_mod n d ltac:(lia)) as Hn.
  pose proof (Z.mod_pos_bound n d Hd) as Hr.
  set (q := n / d) in *. set (r := n mod d) in *.
  destruct (Z.compare_spec (2 * r) d) as [He | Hl | Hg].
  - destruct (Z.even q) eqn:Hq.
    + replace (n - q * d) with r by lia. split; [lia | intros _; exact Hq].
    + replace (n - (q + 1) * d) with (r - d) by lia. split; [lia|]. intros _.
      rewrite Z.even_add, Hq. reflexivity.
  - replace (n - q * d) with r by lia. split; lia.
  - replace (n - (q + 1) * d) with (r - d) by lia. split; lia.
Qed.

Lemma tenths_nearest (m : positive) (e : Z) :
  nearest_tenth m e (Float64.tenths m e).
Proof.
  unfold nearest_tenth, Float64.tenths. cbv zeta. destruct e as [|p|p].
  - change (2 ^ Z.max (- 0) 0) with 1. change (2 ^ Z.max 0 0) with 1.
    match goal with |- context [Z.abs ?x] => replace x with 0 by lia end.
    rewrite Z.abs_0. split; lia.
  - replace (Z.max (- Z.pos p) 0) with 0 by lia.
    replace (Z.max (Z.pos p) 0) with (Z.pos p) by lia. change (2 ^ 0) with 1.
    match goal with |- context [Z.abs ?x] => replace x with 0 by lia end.
    rewrite Z.abs_0. split; lia.
  - replace (Z.max (- Z.neg p) 0) with (Z.pos p) by lia.
    replace (Z.max (Z.neg p) 0) with 0 by lia. change (2 ^ 0) with 1.
    rewrite Z.mul_1_r.
    apply round_half_even_nearest. apply Z.pow_pos_nonneg; lia.
Qed.

Lemma nearest_tenth_unique (m : positive) (e t1 t2 : Z) :
  nearest_tenth m e t1 -> nearest_tenth m e t2 -> t1 = t2.
Proof.
  unfold nearest_tenth. cbv zeta.
  assert (Hs : 0 < 2 ^ Z.max (- e) 0) by (apply Z.pow_pos_nonneg; lia).
  set (scale := 2 ^ Z.max (- e) 0) in *.
  set (v := 10 * (Z.pos m * 2 ^ Z.max e 0)).
  intros [H1 E1] [H2 E2].
  assert (Hd : - 1 <= t1 - t2 <= 1) by nia.
  destruct (Z.eq_dec t1 t2) as [|Hne]; [assumption|].
  assert (G1 : 2 * Z.abs (v - t1 * scale) = scale) by nia.
  assert (G2 : 2 * Z.abs (v - t2 * scale) = scale) by nia.
  specialize (E1 G1). specialize (E2 G2).
  assert (Hc : t1 = t2 + 1 \/ t2 = t1 + 1) by lia.
  destruct Hc as [-> | ->].
  - rewrite Z.even_add, E2 in E1. discriminate.
  - rewrite Z.even_add, E1 in E2. discriminate.
Qed.

(** The text [format_1f] gives is the one the specification asks for, and
    there is no other. *)
Lemma one_decimal_format (x : spec_float) (text : string) :
  one_decimal x text <-> text = Float64.format_1f x.
Proof.
  destruct x as [s | s | | s m e]; cbn [one_decimal Float64.format_1f].
  - destruct s; reflexivity.
  - destruct s; reflexivity.
  - reflexivity.
  - split.
    + intros (t & Ht & ->).
      rewrite (nearest_tenth_unique m e t _ Ht (tenths_nearest m e)).
      destruct s; reflexivity.
    + intros ->. exists (Float64.tenths m e). split; [apply tenths_nearest|].
      destruct s; reflexivity.
Qed.

Lemma breach_alert_format (sev cat : string) (value : spec_float) (a : alert) :
  breach_alert sev cat value a
  <-> a = {| severity := sev; category := cat;
             message := cat +:+ " usage critical: "
                        +:+ Float64.format_1f value +:+ "%" |}.
Proof.
  unfold breach_alert. split.
  - intros (Hs & Hc & text & Ht & Hm). apply one_decimal_format in Ht. subst text.
    destruct a as [sv ct msg]. cbn in *. congruence.
  - intros ->. cbn. repeat split. eexists. split; [apply one_decimal_format|]; reflexivity.
Qed.

End Thresholds.

(** The snapshot cpu 95.0, memory 50.0, disk 50.0. *)
Definition busy_cpu : BlueTeam.stats :=
  {| BlueTeam.stats_cpu_percent := Float64.float_of_int 95;
     BlueTeam.stats_memory_percent := Float64.float_of_int 50;
     BlueTeam.stats_disk_percent := Float64.float_of_int 50;
     BlueTeam.network_connections := 0; BlueTeam.running_processes := 0 |}.

(** The float Python reads from a literal with two digits after the point,
    [n] being the literal without its point. *)
Definition hundredths (n : Z) : spec_float :=
  match Float64.truediv n 100 with
  | inr x => x
  | inl _ => S754_nan
  end.

(** The snapshot cpu 87.25, memory 99.96, disk 90.35: the first lies half
    way between two texts, the second rounds up to the next unit. *)
Definition busy_machine : BlueTeam.stats :=
  {| BlueTeam.stats_cpu_percent := hundredths 8725;
     BlueTeam.stats_memory_percent := hundredths 9996;
     BlueTeam.stats_disk_percent := hundredths 9035;
     BlueTeam.network_connections := 0; BlueTeam.running_processes := 0 |}.

(** C5. For every snapshot and threshold set the evaluator emits, in the
    order CPU, Memory, Disk, exactly one alert for each metric whose value is
    strictly above its threshold and none for the others: HIGH for CPU and
    for Memory, CRITICAL for Disk, the message carrying the value to one
    decimal place, that is the decimal with one digit after the point that
    is nearest to the value. Simultaneous breaches are not coalesced: there
    are as many alerts as breaches. A value equal to its threshold raises
    nothing. With cpu 95.0, memory 50.0, disk 50.0 against 80, 85, 90 the
    result is the single alert HIGH, "CPU", "CPU usage critical: 95.0%"; with
    87.25, 99.96 and 90.35 there are three alerts, showing 87.2, 100.0 and
    90.3. [check_thresholds] is this evaluation on the dictionary the thread
    is bound to. *)
Theorem evaluator_alerts_per_breach (t : BlueTeam.thresholds) (s : BlueTeam.stats) :
  (forall a, a ∈ BlueTeam.evaluate t s <->
     (Float64.gt (BlueTeam.stats_cpu_percent s) (BlueTeam.cpu_percent t) = true
      /\ breach_alert "HIGH" "CPU" (BlueTeam.stats_cpu_percent s) a)
     \/ (Float64.gt (BlueTeam.stats_memory_percent s) (BlueTeam.memory_percent t) = true
         /\ breach_alert "HIGH" "Memory" (BlueTeam.stats_memory_percent s) a)
     \/ (Float64.gt (BlueTeam.stats_disk_percent s) (BlueTeam.disk_percent t) = true
         /\ breach_alert "CRITICAL" "Disk" (BlueTeam.stats_disk_percent s) a))
  /\ length (BlueTeam.evaluate t s)
     = length (filter (fun b : bool => b) (breaches t s))
  /\ NoDup (BlueTeam.category <$> BlueTeam.evaluate t s)
  /\ BlueTeam.evaluate
       {| BlueTeam.cpu_percent := BlueTeam.stats_cpu_percent s;
          BlueTeam.memory_percent := BlueTeam.stats_memory_percent s;
          BlueTeam.disk_percent := BlueTeam.stats_disk_percent s |} s = []
  /\ (forall (h : BlueTeam.store) th,
        h !! BlueTeam.thresholds_ref th
        = Some {| BlueTeam.cpu_percent := Float64.float_of_int 80;
                  BlueTeam.memory_percent := Float64.float_of_int 85;
                  BlueTeam.disk_percent := Float64.float_of_int 90 |} ->
        BlueTeam.check_thresholds h th busy_cpu
        = [ {| BlueTeam.severity := "HIGH"; BlueTeam.category := "CPU";
               BlueTeam.message := "CPU usage critical: 95.0%" |} ]
        /\ BlueTeam.check_thresholds h th busy_machine
           = [ {| BlueTeam.severity := "HIGH"; BlueTeam.category := "CPU";
                  BlueTeam.message := "CPU usage critical: 87.2%" |};
               {| BlueTeam.severity := "HIGH"; BlueTeam.category := "Memory";
                  BlueTeam.message := "Memory usage critical: 100.0%" |};
               {| BlueTeam.severity := "CRITICAL"; BlueTeam.category := "Disk";
                  BlueTeam.message := "Disk usage critical: 90.3%" |} ])
  /\ (forall (h : BlueTeam.store) th,
        BlueTeam.check_thresholds h th s
        = from_option (fun t => BlueTeam.evaluate t s) [] (h !! BlueTeam.thresholds_ref th)).
Proof.
  split; [| split; [| split; [| split; [| split]]]].
  - intros a. rewrite !breach_alert_format. unfold BlueTeam.evaluate.
    destruct (Float64.gt (BlueTeam.stats_cpu_percent s) (BlueTeam.cpu_percent t));
      destruct (Float64.gt (BlueTeam.stats_memory_percent s) (BlueTeam.memory_percent t));
      destruct (Float64.gt (BlueTeam.stats_disk_percent s) (BlueTeam.disk_percent t));
      cbn [app]; rewrite ?elem_of_cons, ?elem_of_nil; intuition congruence.
  - unfold BlueTeam.evaluate, breaches.
    destruct (Float64.gt (BlueTeam.stats_cpu_percent s) (BlueTeam.cpu_percent t));
      destruct (Float64.gt (BlueTeam.stats_memory_percent s) (BlueTeam.memory_percent t));
      destruct (Float64.gt (BlueTeam.stats_disk_percent s) (BlueTeam.disk_percent t));
      reflexivity.
  - unfold BlueTeam.evaluate.
    destruct (Float64.gt (BlueTeam.stats_cpu_percent s) (BlueTeam.cpu_percent t));
      destruct (Float64.gt (BlueTeam.stats_memory_percent s) (BlueTeam.memory_percent t));
      destruct (Float64.gt (BlueTeam.stats_disk_percent s) (BlueTeam.disk_percent t));
      cbn; repeat constructor; rewrite ?elem_of_cons, ?elem_of_nil;
      intuition discriminate.
  - unfold BlueTeam.evaluate. cbn [BlueTeam.cpu_percent BlueTeam.memory_percent
                                     BlueTeam.disk_percent].
    rewrite !gt_irrefl. reflexivity.
  - intros h th Hh. unfold BlueTeam.check_thresholds. rewrite Hh.
    split; vm_compute; reflexivity.
  - intros h th. unfold BlueTeam.check_thresholds.
    destruct (h !! BlueTeam.thresholds_ref th); reflexivity.
Qed.

Lemma evaluator_alerts_per_breach_witness :
  let h := (BlueTeam.init 5 ∅).2 in
  let th := (BlueTeam.init 5 ∅).1 in
  h !! BlueTeam.thresholds_ref th
  = Some {| BlueTeam.cpu_percent := Float64.float_of_int 80;
            BlueTeam.memory_percent := Float64.float_of_int 85;
            BlueTeam.disk_percent := Float64.float_of_int 90 |}
  /\ BlueTeam.check_thresholds h th busy_cpu
     = [ {| BlueTeam.severity := "HIGH"; BlueTeam.category := "CPU";
            BlueTeam.message := "CPU usage critical: 95.0%" |} ]
  /\ (BlueTeam.message <$> BlueTeam.check_thresholds h th busy_machine)
     = [ "CPU usage critical: 87.2%"; "Memory usage critical: 100.0%";
         "Disk usage critical: 90.3%" ]%string.
Proof.
  intros h th.
  assert (Hh : h !! BlueTeam.thresholds_ref th
               = Some {| BlueTeam.cpu_percent := Float64.float_of_int 80;
                         BlueTeam.memory_percent := Float64.float_of_int 85;
                         BlueTeam.disk_percent := Float64.float_of_int 90 |})
    by (vm_compute; reflexivity).
  destruct (evaluator_alerts_per_breach BlueTeam.default_thresholds busy_cpu)
    as (_ & _ & _ & _ & Hex & _).
  destruct (Hex h th Hh) as [H1 H2].
  split; [exact Hh | split; [exact H1|]].
  rewrite H2. reflexivity.
Defined.


(** ** The process monitor *)

(** What the specification asks of a name, said without [str.lower]: two
    characters are the same letter when they are equal or when one is a
    capital and the other the small letter 32 places after it; a name
    mentions a fragment when some stretch of it has the letters of the
    fragment, one by one, whatever their case. *)
Definition capital (c : ascii) : Prop :=
  (65 <= nat_of_ascii c <= 90)%nat.

Definition same_letter (a b : ascii) : Prop :=
  a = b
  \/ (capital a /\ nat_of_ascii b = (nat_of_ascii a + 32)%nat)
  \/ (capital b /\ nat_of_ascii a = (nat_of_ascii b + 32)%nat).

Definition same_ignoring_case (s1 s2 : string) : Prop :=
  Forall2 same_letter (list_ascii_of_string s1) (list_ascii_of_string s2).

Definition mentions (fragment process_name : string) : Prop :=
  exists before middle after,
    process_name = before +:+ middle +:+ after /\ same_ignoring_case fragment middle.

Definition suspicious_name (process_name : string) : Prop :=
  Exists (fun fragment => mentions fragment process_name) BlueTeam.suspicious_keywords.

Section Processes.
Import BlueTeam.

(** *** Matching whatever the case *)

Lemma lower_ascii_same_letter (a b : ascii) :
  ~ capital a -> (lower_ascii b = a <-> same_letter a b).
Proof.
  intros Ha. unfold lower_ascii, same_letter, capital in *.
  destruct ((65 <=? nat_of_ascii b) && (nat_of_ascii b <=? 90))%nat eqn:Hb.
  - apply andb_true_iff in Hb as [H1 H2].
    apply Nat.leb_le in H1. apply Nat.leb_le in H2.
    pose proof (nat_ascii_bounded b) as Hbb.
    split.
    + intros <-. right. right. split; [lia|].
      apply nat_ascii_embedding. lia.
    + intros [<- | [[Hc _] | [_ He]]]; [lia | lia |].
      rewrite <- He. apply ascii_nat_embedding.
  - assert (Hnb : ~ (65 <= nat_of_ascii b <= 90)%nat).
    { intros [H1 H2]. apply Nat.leb_le in H1. apply Nat.leb_le in H2.
      rewrite H1, H2 in Hb. discriminate. }
    split.
    + intros <-. left. reflexivity.
    + intros [<- | [[Hc _] | [Hc _]]]; [reflexivity | lia | lia].
Qed.

Definition no_capital (s : string) : Prop :=
  Forall (fun c => ~ capital c) (list_ascii_of_string s).

Lemma lower_same_ignoring_case (fragment middle : string) :
  no_capital fragment -> (lower middle = fragment <-> same_ignoring_case fragment middle).
Proof.
  unfold no_capital, same_ignoring_case.
  revert middle. induction fragment as [|a f IH]; intros middle Hf.
  - destruct middle as [|b m]; cbn; split; intros H;
      [constructor | reflexivity | discriminate | inversion H].
  - cbn in Hf. apply Forall_cons in Hf as [Ha Hf].
    destruct middle as [|b m]; cbn.
    + split; intros H; [discriminate | inversion H].
    + split.
      * intros [= H1 H2]. constructor.
        -- apply lower_ascii_same_letter; assumption.
        -- apply IH; assumption.
      * intros H. apply Forall2_cons in H as [H1 H2]. f_equal.
        -- apply lower_ascii_same_letter; assumption.
        -- apply IH; assumption.
Qed.

Lemma append_cons (c : ascii) (s1 s2 : string) :
  String c s1 +:+ s2 = String c (s1 +:+ s2).
Proof. reflexivity. Qed.

Lemma lower_app (s1 s2 : string) : lower (s1 +:+ s2) = lower s1 +:+ lower s2.
Proof.
  induction s1 as [|c s1 IH]; [reflexivity|].
  rewrite append_cons. cbn [lower]. now rewrite IH, append_cons.
Qed.

(** A text cut in two is the lower-case form of a name cut in two. *)
Lemma lower_split (process_name x y : string) :
  lower process_name = x +:+ y ->
  exists a b, process_name = a +:+ b /\ lower a = x /\ lower b = y.
Proof.
  revert process_name. induction x as [|c x IH]; intros process_name H.
  - exists ""%string, process_name. auto.
  - destruct process_name as [|d n]; [discriminate|].
    rewrite append_cons in H. cbn [lower] in H.
    injection H as Hc Hn. destruct (IH n Hn) as (a & b & -> & Ha & Hb).
    exists (String d a), b. rewrite append_cons. cbn [lower]. rewrite Hc, Ha. auto.
Qed.

Lemma prefix_split (needle haystack : string) :
  String.prefix needle haystack = true <-> exists after, haystack = needle +:+ after.
Proof.
  revert haystack. induction needle as [|a n IH]; intros haystack.
  - destruct haystack; cbn; (split; [intros _; eexists; reflexivity | reflexivity]).
  - destruct haystack as [|b h]; cbn [String.prefix].
    + split; [discriminate | intros [after H]; discriminate].
    + destruct (ascii_dec a b) as [<- | Hne].
      * rewrite IH. split; intros [after H]; exists after.
        -- rewrite append_cons. now rewrite H.
        -- rewrite append_cons in H. now injection H.
      * split; [discriminate|]. intros [after H]. rewrite append_cons in H.
        injection H as E _. congruence.
Qed.

Lemma contains_split (needle haystack : string) :
  contains needle haystack = true
  <-> exists before after, haystack = before +:+ needle +:+ after.
Proof.
  induction haystack as [|c h IH]; cbn [contains].
  - rewrite orb_false_r, prefix_split. split.
    + intros [after H]. exists ""%string, after. exact H.
    + intros (before & after & H). destruct before as [|d b]; [|discriminate].
      exists after. exact H.
  - rewrite orb_true_iff, prefix_split, IH. split.
    + intros [[after H] | (before & after & H)].
      * exists ""%string, after. exact H.
      * exists (String c before), after. rewrite append_cons. now rewrite H.
    + intros (before & after & H). destruct before as [|d b].
      * left. exists after. exact H.
      * right. rewrite append_cons in H. injection H as _ H. eauto.
Qed.

Lemma contains_lower_mentions (fragment process_name : string) :
  no_capital fragment ->
  (contains fragment (lower process_name) = true <-> mentions fragment process_name).
Proof.
  intros Hf. rewrite contains_split. unfold mentions. split.
  - intros (x & y & H).
    apply lower_split in H as (before & rest & -> & _ & H).
    apply lower_split in H as (middle & after & -> & H & _).
    exists before, middle, after. split; [reflexivity|].
    now apply lower_same_ignoring_case.
  - intros (before & middle & after & -> & H).
    apply lower_same_ignoring_case in H; [|exact Hf].
    exists (lower before), (lower after). now rewrite !lower_app, H.
Qed.

Lemma keywords_no_capital : Forall no_capital suspicious_keywords.
Proof.
  unfold suspicious_keywords, no_capital, capital.
  apply (bool_decide_unpack _). vm_compute. exact I.
Qed.

(** [is_suspicious] decides what the specification asks. *)
Lemma is_suspicious_spec (process_name : string) :
  is_suspicious process_name = true <-> suspicious_name process_name.
Proof.
  unfold is_suspicious, suspicious_name.
  rewrite existsb_exists, Exists_exists. split.
  - intros (fragment & Hin & H). exists fragment. apply list_elem_of_In in Hin.
    split; [exact Hin|]. apply contains_lower_mentions; [|exact H].
    exact (proj1 (Forall_forall _ _) keywords_no_capital fragment Hin).
  - intros (fragment & Hin & H). exists fragment.
    split; [now apply list_elem_of_In|]. apply contains_lower_mentions; [|exact H].
    exact (proj1 (Forall_forall _ _) keywords_no_capital fragment Hin).
Qed.

#[local] Instance suspicious_name_dec (process_name : string) :
  Decision (suspicious_name process_name).
Proof.
  refine (cast_if (decide (is_suspicious process_name = true)));
    abstract (rewrite <- is_suspicious_spec; assumption).
Defined.

(** *** The alerts of a tick *)

(** The signal a process gives rise to when it is new and suspicious, and
    the alert the controller makes of it. *)
Definition new_process_signal (p : process) : string * string :=
  (name p, "New process detected"%string).

Definition process_alert (p : process) : alert :=
  {| severity := "HIGH"; category := "Process";
     message := "Suspicious: " +:+ name p +:+ " - New process detected" |}.












End Processes.






(** ** Thresholds of a running monitor *)

(** C8 (as the code has it). A monitor task starts with the built-in
    thresholds 80, 85, 90, held in a dictionary of its own that nothing else
    refers to, so assignments to any other dictionary leave its alert
    decisions unchanged. [update_thresholds], however, copies nothing: it
    rebinds the running task to the caller's dictionary, and from then on
    the task decides by that dictionary as it is at the time of each check,
    later assignments to it included. *)
Theorem thresholds_follow_the_bound_dictionary (interval : Z) (h : BlueTeam.store) :
  let th := (BlueTeam.init interval h).1 in
  let h1 := (BlueTeam.init interval h).2 in
  h !! BlueTeam.thresholds_ref th = None
  /\ (forall s, BlueTeam.check_thresholds h1 th s
                = BlueTeam.evaluate BlueTeam.default_thresholds s)
  /\ (forall r k v s, r <> BlueTeam.thresholds_ref th ->
        BlueTeam.check_thresholds (BlueTeam.setitem r k v h1) th s
        = BlueTeam.check_thresholds h1 th s)
  /\ (forall r t s (h2 : BlueTeam.store), h2 !! r = Some t ->
        BlueTeam.check_thresholds h2 (BlueTeam.update_thresholds th r) s
        = BlueTeam.evaluate t s)
  /\ (forall r k v t s (h2 : BlueTeam.store), h2 !! r = Some t ->
        BlueTeam.check_thresholds (BlueTeam.setitem r k v h2)
          (BlueTeam.update_thresholds th r) s
        = BlueTeam.evaluate (BlueTeam.assign k v t) s).
Proof.
  intros th h1. subst th h1. unfold BlueTeam.init.
  cbn [fst snd BlueTeam.thresholds_ref].
  split; [| split; [| split; [| split]]].
  - apply not_elem_of_dom, is_fresh.
  - intros s. unfold BlueTeam.check_thresholds. cbn [BlueTeam.thresholds_ref].
    rewrite lookup_insert_eq. reflexivity.
  - intros r k v s Hne. unfold BlueTeam.check_thresholds, BlueTeam.setitem.
    cbn [BlueTeam.thresholds_ref]. rewrite lookup_alter_ne by exact Hne. reflexivity.
  - intros r t s h2 Hr. unfold BlueTeam.check_thresholds. cbn [BlueTeam.update_thresholds
      BlueTeam.thresholds_ref]. rewrite Hr. reflexivity.
  - intros r k v t s h2 Hr. unfold BlueTeam.check_thresholds, BlueTeam.setitem.
    cbn [BlueTeam.update_thresholds BlueTeam.thresholds_ref].
    rewrite lookup_alter_eq, Hr. reflexivity.
Qed.

(** The caller's dictionary, with the CPU threshold at 99. *)
Definition lenient : BlueTeam.thresholds :=
  {| BlueTeam.cpu_percent := Float64.float_of_int 99;
     BlueTeam.memory_percent := Float64.float_of_int 85;
     BlueTeam.disk_percent := Float64.float_of_int 90 |}.

Lemma thresholds_follow_the_bound_dictionary_witness :
  let h : BlueTeam.store := {[ 1%positive := lenient ]} in
  let th := (BlueTeam.init 5 h).1 in
  h !! 1%positive = Some lenient
  /\ BlueTeam.check_thresholds h (BlueTeam.update_thresholds th 1) busy_cpu = []
  /\ BlueTeam.check_thresholds
       (BlueTeam.setitem 1 BlueTeam.key_cpu (Float64.float_of_int 90) h)
       (BlueTeam.update_thresholds th 1) busy_cpu
     = [ {| BlueTeam.severity := "HIGH"; BlueTeam.category := "CPU";
            BlueTeam.message := "CPU usage critical: 95.0%" |} ].
Proof.
  intros h th.
  assert (Hh : h !! 1%positive = Some lenient) by reflexivity.
  destruct (thresholds_follow_the_bound_dictionary 5 h) as (_ & _ & _ & Hu & Ha).
  subst th. split; [exact Hh | split].
  - rewrite (Hu 1%positive lenient busy_cpu h Hh). vm_compute. reflexivity.
  - rewrite (Ha 1%positive BlueTeam.key_cpu (Float64.float_of_int 90) lenient busy_cpu h Hh).
    vm_compute. reflexivity.
Defined.

(** C8 (as stated) fails: a monitor that has started raises the CPU alert
    for the snapshot; after the caller passes its dictionary to
    [update_thresholds] the same snapshot raises nothing; and after the
    caller then assigns 90 to the CPU key of that dictionary, without
    touching the task, the alert is raised again. *)
Lemma running_monitor_sees_threshold_changes :
  let h : BlueTeam.store := {[ 1%positive := lenient ]} in
  let th := (BlueTeam.init 5 h).1 in
  let h1 := (BlueTeam.init 5 h).2 in
  let th' := BlueTeam.update_thresholds th 1 in
  let h2 := BlueTeam.setitem 1 BlueTeam.key_cpu (Float64.float_of_int 90) h1 in
  BlueTeam.check_thresholds h1 th busy_cpu
  = [ {| BlueTeam.severity := "HIGH"; BlueTeam.category := "CPU";
         BlueTeam.message := "CPU usage critical: 95.0%" |} ]
  /\ BlueTeam.check_thresholds h1 th' busy_cpu = []
  /\ BlueTeam.check_thresholds h2 th' busy_cpu
     = [ {| BlueTeam.severity := "HIGH"; BlueTeam.category := "CPU";
            BlueTeam.message := "CPU usage critical: 95.0%" |} ].
Proof.
  vm_compute. repeat split; reflexivity.
Qed.

(** * Further properties of the code *)

(** ** The audit logger *)
Section AuditLogFacts.
Import AuditLog.

Lemma with_lock_held {A} (body : AuditLogger -> outcome A) (lg : AuditLogger) :
  lock lg = true -> with_lock body lg = blocks lg.
Proof. intros H. unfold with_lock. now rewrite H. Qed.

Lemma log_event_held (cat msg lvl : string) extra (lg : AuditLogger) :
  lock lg = true -> log_event cat msg lvl extra lg = blocks lg.
Proof. apply with_lock_held. Qed.

Lemma log_event_nested_held (cat msg lvl : string) (lg : AuditLogger) :
  lock lg = true -> log_event_nested cat msg lvl lg = blocks lg.
Proof. apply with_lock_held. Qed.

(** Whatever [log_event] its body is run over, as long as that one waits
    on a held lock. *)
Lemma log_event_with_held
    (f : string -> string -> string -> AuditLogger -> outcome unit)
    (cat msg lvl : string) extra (lg : AuditLogger) :
  (forall c m l lg', lock lg' = true -> f c m l lg' = blocks lg') ->
  log_event_with f cat msg lvl extra lg
  = log_event_with (fun _ _ _ lg' => blocks lg') cat msg lvl extra lg.
Proof.
  intros Hf. unfold log_event_with, with_lock.
  destruct (lock lg) eqn:Hl; [reflexivity|].
  cbv zeta. unfold check_rotation_with.
  match goal with |- context [file_size ?x] => destruct (file_size x) as [size|] eqn:Hs end;
    [|reflexivity].
  destruct (_ <=? size); [|reflexivity].
  unfold rotate_log_file_with, setup_logger_with.
  rewrite Hf by reflexivity. reflexivity.
Qed.

(** The equation of the source: [log_event] is its body run over
    [log_event] itself. *)
Lemma log_event_unfold (cat msg lvl : string) extra (lg : AuditLogger) :
  log_event cat msg lvl extra lg
  = log_event_with (fun c m l => log_event c m l None) cat msg lvl extra lg.
Proof.
  unfold log_event at 1.
  rewrite (log_event_with_held log_event_nested)
    by (intros; now apply log_event_nested_held).
  rewrite (log_event_with_held (fun c m l => log_event c m l None))
    by (intros; now apply log_event_held).
  reflexivity.
Qed.

Lemma set_lock_same (lg : AuditLogger) :
  lock lg = false -> set_lock false (set_lock true lg) = lg.
Proof. destruct lg; cbn. now intros ->. Qed.

(** What a [log_event] call that finds the lock free does. *)
Lemma log_event_free (cat msg lvl : string) extra (lg : AuditLogger) :
  lock lg = false ->
  let e := entry_of (cat, msg, lvl, extra) in
  let buf := memory_buffer lg ++ [e] in
  let buf' := if max_memory_logs lg <? Z.of_nat (length buf) then drop 1 buf else buf in
  let size := Z.add (record_bytes (level e) cat msg) <$> file_size lg in
  log_event cat msg lvl extra lg
  = if full lg size
    then blocks {| log_file := log_file lg; max_size_bytes := max_size_bytes lg;
                   lock := true; memory_buffer := buf';
                   max_memory_logs := max_memory_logs lg; file_size := Some 0 |}
    else returns tt {| log_file := log_file lg; max_size_bytes := max_size_bytes lg;
                       lock := false; memory_buffer := buf';
                       max_memory_logs := max_memory_logs lg; file_size := size |}.
Proof.
  intros Hl e buf buf' size.
  unfold log_event, log_event_with, with_lock. rewrite Hl. cbv zeta.
  unfold check_rotation_with, full, size, write, set_buffer, set_lock, set_file.
  cbn [file_size max_size_bytes memory_buffer max_memory_logs log_file lock].
  destruct (file_size lg) as [s0|]; cbn [fmap option_fmap option_map]; [|reflexivity].
  change (level e) with (if bool_decide (lvl ∈ LEVELS) then lvl else "INFO"%string).
  destruct (max_size_bytes lg <=? _) eqn:Hm; [|reflexivity].
  unfold rotate_log_file_with, setup_logger_with.
  rewrite log_event_nested_held by reflexivity. reflexivity.
Qed.

End AuditLogFacts.

Lemma perform_held (c : log_call) (lg : AuditLog.AuditLogger) :
  AuditLog.lock lg = true -> perform c lg = AuditLog.blocks lg.
Proof.
  intros H. destruct c; cbn;
    unfold AuditLog.log_security_event, AuditLog.log_user_action,
      AuditLog.log_network_activity, AuditLog.log_system_change, AuditLog.log_error;
    now apply log_event_held.
Qed.

(** X1. [clear_logs] never returns. It takes [self.lock] and, still holding
    it, calls [setup_logger], whose [log_event] waits for that same lock.
    Called on a logger whose lock is free, it leaves the buffer empty, a new
    empty log file and the lock held, so that every later logging call,
    [get_recent_logs] and [get_statistics] wait for ever as well. *)
Theorem clear_logs_never_returns (lg : AuditLog.AuditLogger) :
  exists lg',
    AuditLog.clear_logs lg = AuditLog.blocks lg'
    /\ AuditLog.lock lg' = true
    /\ (AuditLog.lock lg = false ->
        AuditLog.memory_buffer lg' = [] /\ AuditLog.file_size lg' = Some 0)
    /\ (forall c, perform c lg' = AuditLog.blocks lg')
    /\ (forall limit cat lvl,
          AuditLog.get_recent_logs limit cat lvl lg' = AuditLog.blocks lg')
    /\ AuditLog.get_statistics lg' = AuditLog.blocks lg'.
Proof.
  unfold AuditLog.clear_logs, AuditLog.with_lock.
  destruct (AuditLog.lock lg) eqn:Hl.
  - exists lg. repeat split; try discriminate; try assumption; intros;
      try (now apply perform_held); now apply with_lock_held.
  - unfold AuditLog.setup_logger, AuditLog.setup_logger_with.
    rewrite log_event_held by (destruct (AuditLog.file_size _); reflexivity).
    eexists. split; [reflexivity|].
    assert (Hk : AuditLog.lock (AuditLog.open_file
              match AuditLog.file_size (AuditLog.set_buffer [] (AuditLog.set_lock true lg)) with
              | Some _ => AuditLog.rename (AuditLog.set_buffer [] (AuditLog.set_lock true lg))
              | None => AuditLog.set_buffer [] (AuditLog.set_lock true lg)
              end) = true)
      by (destruct (AuditLog.file_size _); reflexivity).
    repeat split; intros; try (now apply perform_held); try (now apply with_lock_held);
      try exact Hk; destruct lg as [? ? ? ? ? [?|]]; reflexivity.
Qed.

(** X2. A [log_event] call made with the lock free returns, the lock
    released, as long as the record it writes leaves the log file below
    [max_size_bytes]. The call that brings the file to that size or beyond
    never returns: [check_rotation] runs inside the [with] block,
    [rotate_log_file] renames the file and calls [setup_logger], whose
    [log_event] waits for the lock its caller holds. The lock stays held, a
    new empty file is left, and every later logging call waits too. *)
Theorem log_event_blocks_at_rotation (lg : AuditLog.AuditLogger)
    (cat msg lvl : string) (extra : option (gmap string string)) (size : Z) :
  AuditLog.lock lg = false -> AuditLog.file_size lg = Some size ->
  let bytes := AuditLog.record_bytes
                 (AuditLog.level (entry_of (cat, msg, lvl, extra))) cat msg in
  (size + bytes < AuditLog.max_size_bytes lg ->
   exists lg', AuditLog.log_event cat msg lvl extra lg = AuditLog.returns tt lg'
               /\ AuditLog.lock lg' = false
               /\ AuditLog.file_size lg' = Some (size + bytes))
  /\ (AuditLog.max_size_bytes lg <= size + bytes ->
      exists lg', AuditLog.log_event cat msg lvl extra lg = AuditLog.blocks lg'
                  /\ AuditLog.lock lg' = true
                  /\ AuditLog.file_size lg' = Some 0
                  /\ forall c, perform c lg' = AuditLog.blocks lg').
Proof.
  intros Hl Hs bytes. pose proof (log_event_free cat msg lvl extra lg Hl) as H.
  cbv zeta in H. rewrite Hs in H. cbn [fmap option_fmap option_map full] in H.
  fold bytes in H. split; intros Hb.
  - rewrite (proj2 (Z.leb_gt _ _)) in H by lia.
    eexists. split; [exact H|]. split; [reflexivity|]. cbn. f_equal. lia.
  - rewrite (proj2 (Z.leb_le _ _)) in H by lia.
    eexists. split; [exact H|]. split; [reflexivity|]. split; [reflexivity|].
    intros c. now apply perform_held.
Qed.

Lemma last_n_all {A} (n : Z) (l : list A) :
  Z.of_nat (length l) <= n -> last_n n l = l.
Proof. intros H. unfold last_n. replace (Z.to_nat _) with 0%nat by lia. reflexivity. Qed.

Lemma last_n_length {A} (n : Z) (l : list A) :
  0 <= n -> Z.of_nat (length (last_n n l)) = Z.min n (Z.of_nat (length l)).
Proof. intros H. unfold last_n. rewrite length_drop. lia. Qed.

Lemma last_n_app {A} (n : Z) (l r : list A) :
  0 <= n -> last_n n (last_n n l ++ r) = last_n n (l ++ r).
Proof.
  intros Hn. destruct (Z.le_gt_cases (Z.of_nat (length l)) n) as [H|H].
  - now rewrite (last_n_all n l).
  - unfold last_n. rewrite !length_app, length_drop.
    set (k := Z.to_nat (Z.of_nat (length l) - n)).
    replace (Z.to_nat (Z.of_nat (length l - k + length r) - n)) with (length r) by lia.
    replace (Z.to_nat (Z.of_nat (length l + length r) - n)) with (k + length r)%nat by lia.
    rewrite <- drop_drop. f_equal.
    rewrite drop_app_le by lia. reflexivity.
Qed.

(** One [log_event]: the buffer after it, when it was within its bound. *)
Lemma push_last_n {A} (n : Z) (b : list A) (e : A) :
  Z.of_nat (length b) <= n ->
  (if n <? Z.of_nat (length (b ++ [e])) then drop 1 (b ++ [e]) else b ++ [e])
  = last_n n (b ++ [e]).
Proof.
  intros H. rewrite length_app. cbn [length]. unfold last_n. rewrite length_app. cbn [length].
  destruct (n <? _) eqn:E.
  - apply Z.ltb_lt in E. replace (Z.to_nat _) with 1%nat by lia. reflexivity.
  - apply Z.ltb_ge in E. replace (Z.to_nat _) with 0%nat by lia. reflexivity.
Qed.

(** X3. The memory buffer holds the newest entries. After a sequence of
    [log_event] calls that have all returned, on a buffer that was within
    [max_memory_logs], the buffer is the last [max_memory_logs] entries of the
    old buffer followed by the entries logged, each with its level replaced
    by ['INFO'] when it was not a key of [LEVELS]; so its length is the
    smaller of [max_memory_logs] and the number of these entries. *)
Theorem buffer_keeps_newest
    (calls : list (string * string * string * option (gmap string string)))
    (lg lg' : AuditLog.AuditLogger) :
  log_events calls lg = AuditLog.returns tt lg' ->
  Z.of_nat (length (AuditLog.memory_buffer lg)) <= AuditLog.max_memory_logs lg ->
  AuditLog.memory_buffer lg'
  = last_n (AuditLog.max_memory_logs lg)
      (AuditLog.memory_buffer lg ++ (entry_of <$> calls))
  /\ Z.of_nat (length (AuditLog.memory_buffer lg'))
     = Z.min (AuditLog.max_memory_logs lg)
         (Z.of_nat (length (AuditLog.memory_buffer lg) + length calls)).
Proof.
  intros Hr Hb.
  assert (H0 : 0 <= AuditLog.max_memory_logs lg) by lia.
  enough (AuditLog.memory_buffer lg'
          = last_n (AuditLog.max_memory_logs lg)
              (AuditLog.memory_buffer lg ++ (entry_of <$> calls))) as ->.
  { split; [reflexivity|]. rewrite last_n_length, length_app, length_fmap by lia.
    reflexivity. }
  revert lg Hr Hb H0. induction calls as [|[[[cat msg] lvl] extra] rest IH]; intros lg Hr Hb H0.
  - cbn in Hr. injection Hr as <-. rewrite app_nil_r. now rewrite last_n_all.
  - cbn [log_events] in Hr.
    destruct (AuditLog.lock lg) eqn:Hl.
    { rewrite log_event_held in Hr by assumption. discriminate. }
    rewrite log_event_free in Hr by assumption. cbv zeta in Hr.
    destruct (full lg _); [discriminate|].
    cbn [AuditLog.and_then] in Hr. apply IH in Hr; cbn [AuditLog.memory_buffer AuditLog.max_memory_logs] in *.
    + rewrite Hr, push_last_n by assumption.
      rewrite last_n_app by assumption. rewrite fmap_cons.
      now rewrite <- app_assoc.
    + rewrite push_last_n, last_n_length by assumption. lia.
    + assumption.
Qed.

Lemma log_event_levels (cat msg lvl : string) extra (lg : AuditLog.AuditLogger) :
  Forall (fun e => AuditLog.level e ∈ AuditLog.LEVELS) (AuditLog.memory_buffer lg) ->
  Forall (fun e => AuditLog.level e ∈ AuditLog.LEVELS)
    (AuditLog.memory_buffer (AuditLog.state_of (AuditLog.log_event cat msg lvl extra lg))).
Proof.
  intros H. destruct (AuditLog.lock lg) eqn:Hl.
  - now rewrite log_event_held.
  - rewrite log_event_free by assumption. cbv zeta.
    assert (Hb : Forall (fun e => AuditLog.level e ∈ AuditLog.LEVELS)
                   (AuditLog.memory_buffer lg ++ [entry_of (cat, msg, lvl, extra)])).
    { apply Forall_app. split; [assumption|]. constructor; [|constructor].
      cbn. case_bool_decide; [assumption|]. unfold AuditLog.LEVELS. set_solver. }
    destruct (full lg _); cbn [AuditLog.state_of AuditLog.memory_buffer];
      (destruct (_ <? _); [now apply Forall_drop | assumption]).
Qed.

Lemma perform_levels (c : log_call) (lg : AuditLog.AuditLogger) :
  Forall (fun e => AuditLog.level e ∈ AuditLog.LEVELS) (AuditLog.memory_buffer lg) ->
  Forall (fun e => AuditLog.level e ∈ AuditLog.LEVELS)
    (AuditLog.memory_buffer (AuditLog.state_of (perform c lg))).
Proof.
  intros H. destruct c; cbn;
    unfold AuditLog.log_security_event, AuditLog.log_user_action,
      AuditLog.log_network_activity, AuditLog.log_system_change, AuditLog.log_error;
    now apply log_event_levels.
Qed.

Lemma perform_all_levels (cs : list log_call) (lg : AuditLog.AuditLogger) :
  Forall (fun e => AuditLog.level e ∈ AuditLog.LEVELS) (AuditLog.memory_buffer lg) ->
  Forall (fun e => AuditLog.level e ∈ AuditLog.LEVELS)
    (AuditLog.memory_buffer (AuditLog.state_of (perform_all cs lg))).
Proof.
  revert lg. induction cs as [|c cs IH]; intros lg H; [exact H|].
  cbn [perform_all]. pose proof (perform_levels c lg H) as Hc.
  destruct (perform c lg) as [[] lg1|lg1]; cbn [AuditLog.and_then AuditLog.state_of] in *.
  - now apply IH.
  - assumption.
Qed.

(** X4. No entry of the buffer ever carries a level outside [LEVELS],
    whatever is logged after construction through [log_event],
    [log_security_event], [log_user_action], [log_network_activity],
    [log_system_change] or [log_error], and at whatever call the sequence
    stops returning. *)
Theorem stored_levels_are_valid (file : string) (max_size_mb : Z)
    (on_disk : option Z) (cs : list log_call) :
  Forall (fun e => AuditLog.level e ∈ AuditLog.LEVELS)
    (AuditLog.memory_buffer
       (AuditLog.state_of
          (AuditLog.and_then (AuditLog.init file max_size_mb on_disk)
             (fun _ => perform_all cs)))).
Proof.
  unfold AuditLog.init, AuditLog.setup_logger, AuditLog.setup_logger_with.
  match goal with |- context [AuditLog.log_event ?c ?m ?l ?x ?g] =>
    pose proof (log_event_levels c m l x g) as H;
    destruct (AuditLog.log_event c m l x g) as [[] lg1|lg1]
  end; cbn [AuditLog.and_then AuditLog.state_of] in *.
  - apply perform_all_levels, H. constructor.
  - apply H. constructor.
Qed.

Lemma slice_from_neg {A} (limit : Z) (l : list A) :
  slice_from (- limit) l
  = if 0 <? limit then last_n limit l else drop (Z.to_nat (- limit)) l.
Proof.
  unfold slice_from, last_n. destruct (0 <? limit) eqn:E.
  - apply Z.ltb_lt in E. rewrite (proj2 (Z.ltb_lt _ _)) by lia. f_equal. lia.
  - apply Z.ltb_ge in E. rewrite (proj2 (Z.ltb_ge _ _)) by lia.
    destruct (Z.le_gt_cases (- limit) (Z.of_nat (length l))).
    + f_equal. lia.
    + rewrite !drop_ge by lia. reflexivity.
Qed.

Lemma recent_passes (limit : Z) (cat lvl : option string)
    (buf : list AuditLog.log_entry) :
  AuditLog.recent limit cat lvl buf
  = slice_from (- limit) (filter (fun e => passes cat lvl e) buf).
Proof.
  unfold AuditLog.recent. f_equal. unfold passes.
  destruct (truthy cat), (truthy lvl); cbn [negb orb].
  - rewrite list_filter_filter. apply list_filter_iff. intros e.
    rewrite andb_True, !bool_decide_spec. tauto.
  - apply list_filter_iff. intros e. rewrite andb_true_r, bool_decide_spec. tauto.
  - apply list_filter_iff. intros e. cbn [andb]. rewrite bool_decide_spec. tauto.
  - induction buf as [|e buf IH]; [reflexivity|].
    rewrite filter_cons_True by exact I. now rewrite <- IH.
Qed.

(** X5. [get_recent_logs], called with the lock free, leaves the logger as it
    was and returns the lines of the buffered entries that pass the filters
    (a filter that is [None] or [''] lets everything pass), oldest first:
    for [limit > 0] the last [limit] of them, hence [min limit n] lines of
    [n]; for [limit = 0] all of them and not none, [logs[-0:]] being the whole
    list; for [limit < 0] all but the first [- limit]. *)
Theorem get_recent_logs_selects (lg : AuditLog.AuditLogger) (limit : Z)
    (cat lvl : option string) :
  AuditLog.lock lg = false ->
  let matching := filter (fun e => passes cat lvl e) (AuditLog.memory_buffer lg) in
  AuditLog.get_recent_logs limit cat lvl lg
  = AuditLog.returns
      (AuditLog.format_log
         <$> (if 0 <? limit then last_n limit matching
              else drop (Z.to_nat (- limit)) matching)) lg
  /\ (limit = 0 ->
      AuditLog.get_recent_logs limit cat lvl lg
      = AuditLog.returns (AuditLog.format_log <$> matching) lg)
  /\ (0 < limit ->
      exists lines,
        AuditLog.get_recent_logs limit cat lvl lg = AuditLog.returns lines lg
        /\ Z.of_nat (length lines) = Z.min limit (Z.of_nat (length matching))).
Proof.
  intros Hl matching.
  assert (H : AuditLog.get_recent_logs limit cat lvl lg
              = AuditLog.returns
                  (AuditLog.format_log
                     <$> (if 0 <? limit then last_n limit matching
                          else drop (Z.to_nat (- limit)) matching)) lg).
  { unfold AuditLog.get_recent_logs, AuditLog.with_lock. rewrite Hl.
    rewrite set_lock_same by assumption.
    cbn [AuditLog.memory_buffer AuditLog.set_lock].
    now rewrite recent_passes, slice_from_neg. }
  split; [exact H|]. split.
  - intros ->. rewrite H. reflexivity.
  - intros Hp. eexists. split; [exact H|].
    rewrite (proj2 (Z.ltb_lt _ _)) by assumption.
    rewrite length_fmap, last_n_length by lia. reflexivity.
Qed.

Lemma occurrences_cons (k k' : string) (keys : list string) :
  occurrences k (k' :: keys)
  = (if decide (k' = k) then 1 else 0) + occurrences k keys.
Proof.
  unfold occurrences. rewrite filter_cons.
  destruct (decide (k' = k)); cbn [length]; lia.
Qed.

Lemma occurrences_nonneg (k : string) (keys : list string) : 0 <= occurrences k keys.
Proof. unfold occurrences. lia. Qed.

(** Counting with [d[k] = d.get(k, 0) + 1]. *)
Lemma count_up_lookup (keys : list string) : forall (m : gmap string Z) (k : string),
  foldl (fun m k' => AuditLog.count_up k' m) m keys !! k
  = match m !! k with
    | Some v => Some (v + occurrences k keys)
    | None => if occurrences k keys =? 0 then None else Some (occurrences k keys)
    end.
Proof.
  induction keys as [|k' keys IH]; intros m k.
  - cbn. unfold occurrences. cbn. destruct (m !! k); [f_equal; lia | reflexivity].
  - cbn [foldl]. rewrite IH, occurrences_cons. unfold AuditLog.count_up.
    pose proof (occurrences_nonneg k keys).
    destruct (decide (k' = k)) as [->|Hne].
    + rewrite lookup_insert_eq. destruct (m !! k); cbn [default from_option id].
      * f_equal. lia.
      * rewrite (proj2 (Z.eqb_neq _ _)) by lia. reflexivity.
    + rewrite lookup_insert_ne by assumption. destruct (m !! k); [f_equal; lia | reflexivity].
Qed.

Lemma statistics_fold (buf : list AuditLog.log_entry) : forall st,
  foldl (fun st e =>
           {| AuditLog.total_logs := AuditLog.total_logs st;
              AuditLog.by_category :=
                AuditLog.count_up (AuditLog.category e) (AuditLog.by_category st);
              AuditLog.by_level :=
                AuditLog.count_up (AuditLog.level e) (AuditLog.by_level st) |}) st buf
  = {| AuditLog.total_logs := AuditLog.total_logs st;
       AuditLog.by_category :=
         foldl (fun m k => AuditLog.count_up k m) (AuditLog.by_category st)
           (AuditLog.category <$> buf);
       AuditLog.by_level :=
         foldl (fun m k => AuditLog.count_up k m) (AuditLog.by_level st)
           (AuditLog.level <$> buf) |}.
Proof.
  induction buf as [|e buf IH]; intros st; [now destruct st|].
  cbn [foldl fmap list_fmap]. now rewrite IH.
Qed.

(** X6. [get_statistics], called with the lock free, leaves the logger as it
    was and returns the length of the buffer as ['total_logs'] and two
    dictionaries whose keys are exactly the categories, respectively the
    levels, that occur in the buffer, each with the number of its entries. *)
Theorem get_statistics_counts (lg : AuditLog.AuditLogger) :
  AuditLog.lock lg = false ->
  exists st,
    AuditLog.get_statistics lg = AuditLog.returns st lg
    /\ AuditLog.total_logs st = Z.of_nat (length (AuditLog.memory_buffer lg))
    /\ (forall k,
          let n := occurrences k (AuditLog.category <$> AuditLog.memory_buffer lg) in
          AuditLog.by_category st !! k = if n =? 0 then None else Some n)
    /\ (forall k,
          let n := occurrences k (AuditLog.level <$> AuditLog.memory_buffer lg) in
          AuditLog.by_level st !! k = if n =? 0 then None else Some n).
Proof.
  intros Hl. unfold AuditLog.get_statistics, AuditLog.with_lock. rewrite Hl.
  rewrite set_lock_same by assumption. eexists. split; [reflexivity|].
  cbn [AuditLog.memory_buffer AuditLog.set_lock]. rewrite statistics_fold.
  cbn [AuditLog.total_logs AuditLog.by_category AuditLog.by_level].
  split; [reflexivity|].
  split; intros k; cbv zeta; rewrite count_up_lookup, lookup_empty; reflexivity.
Qed.

(** A logger as [AuditLogger()] leaves it when no log file existed. *)
Definition fresh_logger : AuditLog.AuditLogger :=
  AuditLog.state_of (AuditLog.init "cybertool_audit.log" 10 None).

(** A logger whose buffer holds two entries and whose file is 60 bytes short
    of a rotation size of 200 bytes. *)
Definition small_logger : AuditLog.AuditLogger :=
  {| AuditLog.log_file := "cybertool_audit.log"; AuditLog.max_size_bytes := 200;
     AuditLog.lock := false;
     AuditLog.memory_buffer :=
       [ {| AuditLog.category := "SYSTEM"; AuditLog.level := "INFO";
            AuditLog.message := "Audit logger initialized";
            AuditLog.extra_data := None |};
         {| AuditLog.category := "RED_TEAM"; AuditLog.level := "ERROR";
            AuditLog.message := "Scan error"; AuditLog.extra_data := None |} ];
     AuditLog.max_memory_logs := 2; AuditLog.file_size := Some 140 |}.

Lemma clear_logs_never_returns_witness :
  AuditLog.lock fresh_logger = false
  /\ length (AuditLog.memory_buffer fresh_logger) = 1%nat
  /\ exists lg', AuditLog.clear_logs fresh_logger = AuditLog.blocks lg'
                 /\ AuditLog.memory_buffer lg' = []
                 /\ AuditLog.log_event "SYSTEM" "Audit logs cleared by user" "WARNING"
                      None lg' = AuditLog.blocks lg'.
Proof.
  assert (Hl : AuditLog.lock fresh_logger = false) by (vm_compute; reflexivity).
  split; [exact Hl|]. split; [vm_compute; reflexivity|].
  destruct (clear_logs_never_returns fresh_logger) as (lg' & Hc & _ & Hb & Hp & _).
  exists lg'. split; [exact Hc|]. split; [apply Hb, Hl|].
  exact (Hp (call_event "SYSTEM" "Audit logs cleared by user" "WARNING" None)).
Defined.

Lemma log_event_blocks_at_rotation_witness :
  (AuditLog.lock small_logger = false /\ AuditLog.file_size small_logger = Some 140
   /\ AuditLog.max_size_bytes small_logger <= 140 + 62)
  /\ exists lg', AuditLog.log_event "SYSTEM" "Application started" "INFO" None
                   small_logger = AuditLog.blocks lg'
                 /\ AuditLog.file_size lg' = Some 0.
Proof.
  assert (Hl : AuditLog.lock small_logger = false) by reflexivity.
  assert (Hs : AuditLog.file_size small_logger = Some 140) by reflexivity.
  assert (Hm : AuditLog.max_size_bytes small_logger <= 140 + 62) by (vm_compute; discriminate).
  split; [split; [exact Hl | split; [exact Hs | exact Hm]]|].
  destruct (log_event_blocks_at_rotation small_logger "SYSTEM" "Application started"
              "INFO" None 140 Hl Hs) as [_ Hb].
  destruct Hb as (lg' & H & _ & Hf & _); [exact Hm|].
  exists lg'. split; [exact H | exact Hf].
Defined.

Lemma buffer_keeps_newest_witness :
  let lg := AuditLog.set_file None small_logger in
  let calls := [ ("RED_TEAM", "Port scan started", "NOTICE", None);
                 ("BLUE_TEAM", "Alert", "WARNING", None) ]%string in
  let lg' := AuditLog.state_of (log_events calls lg) in
  (log_events calls lg = AuditLog.returns tt lg'
   /\ Z.of_nat (length (AuditLog.memory_buffer lg)) <= AuditLog.max_memory_logs lg)
  /\ AuditLog.memory_buffer lg'
     = [ {| AuditLog.category := "RED_TEAM"; AuditLog.level := "INFO";
            AuditLog.message := "Port scan started"; AuditLog.extra_data := None |};
         {| AuditLog.category := "BLUE_TEAM"; AuditLog.level := "WARNING";
            AuditLog.message := "Alert"; AuditLog.extra_data := None |} ].
Proof.
  intros lg calls lg'.
  assert (Hr : log_events calls lg = AuditLog.returns tt lg') by (vm_compute; reflexivity).
  assert (Hb : Z.of_nat (length (AuditLog.memory_buffer lg)) <= AuditLog.max_memory_logs lg)
    by (vm_compute; discriminate).
  split; [split; [exact Hr | exact Hb]|].
  destruct (buffer_keeps_newest calls lg lg' Hr Hb) as [-> _].
  vm_compute. reflexivity.
Defined.

Lemma get_recent_logs_selects_witness :
  AuditLog.lock small_logger = false
  /\ AuditLog.get_recent_logs 0 None None small_logger
     = AuditLog.returns
         [ " | INFO     | SYSTEM       | Audit logger initialized";
           " | ERROR    | RED_TEAM     | Scan error" ]%string small_logger
  /\ AuditLog.get_recent_logs 1 None None small_logger
     = AuditLog.returns [ " | ERROR    | RED_TEAM     | Scan error"%string ] small_logger
  /\ AuditLog.get_recent_logs 1 (Some "SYSTEM"%string) (Some ""%string) small_logger
     = AuditLog.returns
         [ " | INFO     | SYSTEM       | Audit logger initialized"%string ] small_logger.
Proof.
  assert (Hl : AuditLog.lock small_logger = false) by reflexivity.
  split; [exact Hl|].
  split; [|split].
  - destruct (get_recent_logs_selects small_logger 0 None None Hl) as (_ & -> & _);
      reflexivity.
  - destruct (get_recent_logs_selects small_logger 1 None None Hl) as (-> & _).
    vm_compute. reflexivity.
  - destruct (get_recent_logs_selects small_logger 1 (Some "SYSTEM"%string)
                (Some ""%string) Hl) as (-> & _).
    vm_compute. reflexivity.
Defined.

Lemma get_statistics_counts_witness :
  AuditLog.lock small_logger = false
  /\ exists st, AuditLog.get_statistics small_logger = AuditLog.returns st small_logger
                /\ AuditLog.total_logs st = 2
                /\ AuditLog.by_category st !! "SYSTEM"%string = Some 1
                /\ AuditLog.by_level st !! "WARNING"%string = None.
Proof.
  assert (Hl : AuditLog.lock small_logger = false) by reflexivity.
  split; [exact Hl|].
  destruct (get_statistics_counts small_logger Hl) as (st & H & Ht & Hc & Hv).
  exists st. split; [exact H|]. split; [exact Ht|]. split.
  - rewrite Hc. vm_compute. reflexivity.
  - rewrite Hv. vm_compute. reflexivity.
Defined.

(** ** The web job store, over all the states it reaches *)
Lemma job_name_inj (k k' : Z) : job_name k = job_name k' -> k = k'.
Proof.
  unfold job_name. intros H. apply String.app_inj in H. now apply pretty_Z_inj in H.
Qed.

Lemma web_run_snoc (net : network) (db0 : Database.DatabaseManager)
    (lg0 : Logger.AuditLogger) (es : list WebUI.event) (e : WebUI.event) :
  web_run net db0 lg0 (es ++ [e])
  = WebUI.apply_event net (web_run net db0 lg0 es) e.
Proof. unfold web_run. now rewrite foldl_app. Qed.

Lemma filter_none (sid : Z) (rows : list Database.scan_result_row) :
  Forall (fun r => Database.sr_session_id r <> sid) rows ->
  filter (fun r => Database.sr_session_id r = sid) rows = [].
Proof.
  induction 1 as [|r rows Hr _ IH]; [reflexivity|].
  now rewrite filter_cons_False.
Qed.

Section JobRegistry.
Import WebUI.
Variable net : network.
Variable db0 : Database.DatabaseManager.
Variable lg0 : Logger.AuditLogger.

(** The jobs are those numbered 1 to [job_counter], each with its worker
    and a session of its own, those of [db0] coming first. *)
Definition registry (s : state) : Prop :=
  let n0 := Z.of_nat (length (Database.sessions db0)) in
  0 <= job_counter s
  /\ Z.of_nat (length (Database.sessions (db s))) = n0 + job_counter s
  /\ (forall k, 1 <= k <= job_counter s ->
        exists j w, jobs s !! job_name k = Some j
                    /\ workers s !! job_name k = Some w
                    /\ session_id j = n0 + k /\ w_session_id w = n0 + k)
  /\ (forall job_id, is_Some (jobs s !! job_id) \/ is_Some (workers s !! job_id) ->
        exists k, 1 <= k <= job_counter s /\ job_id = job_name k).

Lemma registry_start_state : registry (web_start db0 lg0).
Proof.
  repeat split; cbn; try lia.
  intros job_id [[? H]|[? H]]; rewrite lookup_empty in H; discriminate.
Qed.

Lemma registry_start (req : request) (s : state) :
  registry s -> registry (api_start_scan req s).2.
Proof.
  intros (H0 & Hlen & Hall & Honly). unfold api_start_scan.
  destruct (String.eqb _ _); [repeat split; assumption|].
  unfold Database.create_session. cbn [snd]. fold (job_name (job_counter s + 1)).
  assert (Hfresh : forall k, 1 <= k <= job_counter s ->
                             job_name (job_counter s + 1) <> job_name k).
  { intros k Hk E. apply job_name_inj in E. lia. }
  repeat split; cbn [job_counter db jobs workers Database.sessions]; try lia.
  - rewrite length_app. cbn [length]. lia.
  - intros k Hk. destruct (decide (k = job_counter s + 1)) as [->|Hne].
    + rewrite !lookup_insert_eq. do 2 eexists. repeat split; cbn; lia.
    + rewrite !lookup_insert_ne by (apply Hfresh; lia). apply Hall. lia.
  - intros job_id H. destruct (decide (job_name (job_counter s + 1) = job_id)) as [<-|Hne].
    + exists (job_counter s + 1). split; [lia | reflexivity].
    + rewrite !lookup_insert_ne in H by assumption.
      destruct (Honly job_id H) as (k & Hk & ->). exists k. split; [lia | reflexivity].
Qed.

Lemma registry_worker (job_id : string) (s : state) :
  registry s -> registry (worker_step net job_id s).
Proof.
  intros (H0 & Hlen & Hall & Honly).
  assert (Hkeep : forall (f : job -> job) (w' : worker) (d : Database.DatabaseManager)
                    (l : Logger.AuditLogger) w,
             workers s !! job_id = Some w ->
             (forall j, session_id (f j) = session_id j) ->
             w_session_id w' = w_session_id w ->
             Database.sessions d = Database.sessions (db s) ->
             registry {| db := d; logger := l; jobs := alter f job_id (jobs s);
                         job_counter := job_counter s;
                         workers := <[job_id := w']> (workers s) |}).
  { intros f w' d l w Hw Hf Hsid Hd.
    repeat split; cbn [job_counter db jobs workers]; try lia.
    - now rewrite Hd.
    - intros k Hk. destruct (Hall k Hk) as (j & w0 & Hj & Hw0 & Hsj & Hsw).
      destruct (decide (job_id = job_name k)) as [->|Hne].
      + rewrite lookup_alter_eq, lookup_insert_eq, Hj. cbn.
        do 2 eexists. repeat split. * now rewrite Hf. * congruence.
      + rewrite lookup_alter_ne, lookup_insert_ne by assumption. eauto 10.
    - intros jid H. apply Honly.
      destruct (decide (job_id = jid)) as [<-|Hne].
      + right. eauto.
      + now rewrite lookup_alter_ne, lookup_insert_ne in H by assumption. }
  unfold worker_step.
  destruct (workers s !! job_id) as [w|] eqn:Hw; [|repeat split; assumption].
  destruct (returned w); [repeat split; assumption|].
  destruct (next_port w <=? w_end_port w).
  - destruct (progress_percent _ _) as [e|p].
    + rewrite <- (alter_id id (jobs s) job_id) at 1 by reflexivity.
      eapply Hkeep; eauto. destruct (attempt _ _ _) as [[|]|]; reflexivity.
    + eapply Hkeep; eauto. destruct (attempt _ _ _) as [[|]|]; reflexivity.
  - eapply Hkeep; eauto.
Qed.

Lemma registry_reachable (es : list event) : registry (web_run net db0 lg0 es).
Proof.
  induction es as [|e es IH] using rev_ind.
  - apply registry_start_state.
  - rewrite web_run_snoc. destruct e as [req | job_id]; cbn [apply_event].
    + apply registry_start, IH.
    + apply registry_worker, IH.
Qed.

Lemma job_counter_accepted (es : list event) :
  job_counter (web_run net db0 lg0 es)
  = Z.of_nat (length (filter (fun e => accepted e) es)).
Proof.
  induction es as [|e es IH] using rev_ind; [reflexivity|].
  rewrite web_run_snoc, filter_app, length_app.
  destruct e as [req | job_id]; cbn [apply_event].
  - unfold api_start_scan. rewrite filter_cons. cbn [accepted].
    destruct (String.eqb _ _); cbn [negb].
    + rewrite decide_False by exact id. cbn. lia.
    + rewrite decide_True by exact I. cbn [snd job_counter length filter].
      rewrite IH. destruct (Database.create_session _ _ _ _). cbn. lia.
  - rewrite filter_cons_False by exact id. cbn [length filter].
    rewrite Nat.add_0_r, <- IH. unfold worker_step.
    destruct (workers _ !! job_id) as [w|]; [|reflexivity].
    destruct (returned w); [reflexivity|].
    destruct (next_port w <=? w_end_port w); [|reflexivity].
    destruct (progress_percent _ _); reflexivity.
Qed.

Lemma tracks_worker_web_run (es : list event) :
  tracks_worker (web_run net db0 lg0 es).
Proof.
  induction es as [|e es IH] using rev_ind.
  - intros job_id w H. cbn in H. rewrite lookup_empty in H. discriminate.
  - rewrite web_run_snoc. destruct e as [req | job_id]; cbn [apply_event].
    + apply tracks_worker_start, IH.
    + apply tracks_worker_step, IH.
Qed.

(** What the web interface adds to the tables: sessions that stay as they
    were created, no alert, and hits that belong to those sessions. *)
Definition web_rows (s : state) : Prop :=
  let n0 := Z.of_nat (length (Database.sessions db0)) in
  (exists new,
     Database.sessions (db s) = Database.sessions db0 ++ new
     /\ Forall (fun r => Database.session_type r = "red_team"%string
                         /\ Database.status r = "active"%string
                         /\ Database.results r = None) new)
  /\ Database.alerts (db s) = Database.alerts db0
  /\ exists hits,
       Database.scan_results (db s) = Database.scan_results db0 ++ hits
       /\ Forall (fun r => Database.sr_service r = "unknown"%string
                           /\ Database.sr_status r = "open"%string
                           /\ n0 < Database.sr_session_id r <= n0 + job_counter s)
            hits.

Lemma web_rows_reachable (es : list event) : web_rows (web_run net db0 lg0 es).
Proof.
  induction es as [|e es IH] using rev_ind.
  - split; [|split]; [exists [] | reflexivity | exists []]; cbn;
      (split; [now rewrite app_nil_r | constructor]).
  - pose proof (registry_reachable es) as (H0 & Hlen & Hall & Honly).
    rewrite web_run_snoc.
    set (s := web_run net db0 lg0 es) in *.
    destruct IH as ((new & Hs & Hnew) & Ha & (hits & Hr & Hhits)).
    destruct e as [req | job_id]; cbn [apply_event].
    + unfold api_start_scan.
      destruct (String.eqb _ _); [split; [|split]; eauto|].
      unfold Database.create_session. cbn [snd].
      split; [|split]; cbn [db job_counter Database.sessions Database.alerts
                             Database.scan_results].
      * eexists. rewrite Hs, <- app_assoc. split; [reflexivity|].
        apply Forall_app. split; [assumption|]. repeat constructor.
      * exact Ha.
      * exists hits. split; [exact Hr|].
        eapply Forall_impl; [exact Hhits|]. cbn. intros r (? & ? & ?).
        repeat split; try assumption; lia.
    + unfold worker_step.
      destruct (workers s !! job_id) as [w|] eqn:Hw; [|split; [|split]; eauto].
      destruct (returned w); [split; [|split]; eauto|].
      assert (Hk : Z.of_nat (length (Database.sessions db0)) < w_session_id w
                   <= Z.of_nat (length (Database.sessions db0)) + job_counter s).
      { destruct (Honly job_id) as (k & Hk & ->); [right; eauto|].
        destruct (Hall k Hk) as (j & w0 & _ & Hw0 & _ & Hsw).
        assert (w0 = w) as -> by congruence. lia. }
      assert (Hdb : forall d, d = db s
                 \/ d = Database.store_scan_result (db s) (w_session_id w)
                          (next_port w) "unknown" "open" ->
               forall l js ws,
                 web_rows {| db := d; logger := l; jobs := js;
                             job_counter := job_counter s; workers := ws |}).
      { intros d [->| ->] l js ws; (split; [|split]);
          cbn [db job_counter Database.sessions Database.alerts Database.scan_results
               Database.store_scan_result]; eauto.
        eexists. rewrite Hr, <- app_assoc. split; [reflexivity|].
        apply Forall_app. split; [assumption|]. repeat constructor; cbn; lia. }
      destruct (next_port w <=? w_end_port w); [|split; [|split]; eauto].
      destruct (progress_percent _ _) as [ex|p];
        apply Hdb; destruct (attempt _ _ _) as [[|]|]; auto.
Qed.

Lemma attempt_same (w w' : worker) (port : Z) :
  w_timeout w' = w_timeout w -> w_target w' = w_target w ->
  attempt net w' port = attempt net w port.
Proof. intros Ht Hg. unfold attempt. now rewrite Ht, Hg. Qed.

(** What a worker has found is what answered among the ports it has tried,
    it is what the table holds for its session, and it is what a completed
    job shows. *)
Definition results_ok (s : state) : Prop :=
  forall job_id w j,
    workers s !! job_id = Some w -> jobs s !! job_id = Some j ->
    0 <= w_scanned w
    /\ w_open_ports w
       = filter (fun p => attempt net w p = Some true)
           (seqZ (w_start_port w) (w_scanned w))
    /\ rows_of (w_session_id w) (db s) = hit_row (w_session_id w) <$> w_open_ports w
    /\ (status j = "running"%string \/ status j = "completed"%string)
    /\ (status j = "completed"%string ->
        open_ports j = w_open_ports w /\ finished j = true
        /\ returned w = true
        /\ w_scanned w = Z.max 0 (w_end_port w - w_start_port w + 1)).

Hypothesis db0_refers : results_refer_to_sessions db0.

Lemma results_ok_reachable (es : list event) : results_ok (web_run net db0 lg0 es).
Proof.
  induction es as [|e es IH] using rev_ind.
  - intros job_id w j H. cbn in H. rewrite lookup_empty in H. discriminate.
  - pose proof (registry_reachable es) as (H0 & Hlen & Hall & Honly).
    pose proof (web_rows_reachable es) as (_ & _ & (hits & Hrows & Hhits)).
    pose proof (tracks_worker_web_run es) as Htr.
    rewrite web_run_snoc.
    set (s := web_run net db0 lg0 es) in *.
    destruct e as [req | jid]; cbn [apply_event].
    + unfold api_start_scan. destruct (String.eqb _ _); [exact IH|].
      unfold Database.create_session. cbn [snd]. fold (job_name (job_counter s + 1)).
      intros job_id w j. cbn [workers jobs db].
      destruct (decide (job_name (job_counter s + 1) = job_id)) as [<-|Hne].
      * rewrite !lookup_insert_eq. intros [= <-] [= <-]. cbn.
        repeat split; try lia; try (now left); try discriminate.
        unfold rows_of. cbn [Database.scan_results]. rewrite Hrows, filter_app.
        rewrite !filter_none; [reflexivity| |].
        -- eapply Forall_impl; [exact Hhits|]. cbn. intros r (_ & _ & Hr). lia.
        -- eapply Forall_impl; [exact db0_refers|]. cbn. intros r Hr. lia.
      * rewrite !lookup_insert_ne by assumption. apply IH.
    + unfold worker_step.
      destruct (workers s !! jid) as [w|] eqn:Hw; [|exact IH].
      destruct (returned w) eqn:Hret; [exact IH|].
      destruct (Htr jid w Hw Hret) as (Hsc & Hnext & Hmax & j0 & Hj0 & Hst0 & _).
      destruct (IH jid w j0 Hw Hj0) as (_ & Hopen & Hres & _ & _).
      assert (Hsid : forall job_id w', job_id <> jid -> workers s !! job_id = Some w' ->
                                       w_session_id w' <> w_session_id w).
      { intros job_id w' Hne Hw' E.
        destruct (Honly job_id) as (k' & Hk' & ->); [right; eauto|].
        destruct (Honly jid) as (k & Hk & ->); [right; eauto|].
        destruct (Hall k Hk) as (_ & w1 & _ & Hw1 & _ & Hs1).
        destruct (Hall k' Hk') as (_ & w2 & _ & Hw2 & _ & Hs2).
        apply Hne. f_equal.
        assert (w1 = w) as -> by congruence. assert (w2 = w') as -> by congruence.
        lia. }
      (* the loop body, whatever becomes of the progress *)
      assert (Hbody : forall (f : job -> job) (np : Z) (rt : bool),
                 (forall j, status (f j) = status j) ->
                 results_ok
                   {| db := match attempt net w (next_port w) with
                            | Some true =>
                                Database.store_scan_result (db s) (w_session_id w)
                                  (next_port w) "unknown" "open"
                            | _ => db s
                            end;
                      logger := match attempt net w (next_port w) with
                                | None => Logger.log_event (logger s) "RED_TEAM"
                                            "Scan error" "ERROR"
                                | _ => logger s
                                end;
                      jobs := alter f jid (jobs s);
                      job_counter := job_counter s;
                      workers := <[jid :=
                        {| w_session_id := w_session_id w; w_target := w_target w;
                           w_start_port := w_start_port w; w_end_port := w_end_port w;
                           w_timeout := w_timeout w;
                           w_open_ports := match attempt net w (next_port w) with
                                           | Some true => w_open_ports w ++ [next_port w]
                                           | _ => w_open_ports w
                                           end;
                           w_scanned := w_scanned w + 1; next_port := np;
                           returned := rt |}]> (workers s) |}).
      { intros f np rt Hf job_id w' j. cbn [workers jobs db].
        destruct (decide (jid = job_id)) as [<-|Hne].
        - rewrite lookup_insert_eq, lookup_alter_eq, Hj0. cbn [fmap option_fmap option_map].
          intros [= <-] [= <-]. cbn [w_scanned w_open_ports w_start_port w_session_id
                                    w_end_port returned].
          rewrite Hf, Hst0. split; [lia|]. split; [|split; [|split; [now left | discriminate]]].
          + rewrite seqZ_app, filter_app by lia. rewrite <- Hnext.
            erewrite (list_filter_iff _ (fun p => attempt net w p = Some true));
              [|intros p; now rewrite (attempt_same w)].
            rewrite <- Hopen. cbn [seqZ]. change (seqZ (next_port w) 1) with [next_port w].
            rewrite filter_cons, filter_nil.
            repeat match goal with
                   | |- context [attempt net ?x ?p] =>
                       lazymatch x with
                       | w => fail
                       | _ => rewrite (attempt_same w x p) by reflexivity
                       end
                   end.
            destruct (attempt net w (next_port w)) as [[|]|] eqn:Ha.
            * rewrite decide_True by reflexivity. reflexivity.
            * rewrite decide_False by discriminate. now rewrite app_nil_r.
            * rewrite decide_False by discriminate. now rewrite app_nil_r.
          + destruct (attempt net w (next_port w)) as [[|]|]; try exact Hres.
            unfold rows_of, Database.store_scan_result.
            cbn [Database.scan_results]. rewrite filter_app, fmap_app.
            unfold rows_of in Hres. rewrite Hres.
            rewrite filter_cons_True by reflexivity. reflexivity.
        - rewrite lookup_insert_ne, lookup_alter_ne by assumption. intros Hw' Hj.
          destruct (IH job_id w' j Hw' Hj) as (? & ? & Hres' & ? & ?).
          repeat split; try assumption; try tauto.
          destruct (attempt net w (next_port w)) as [[|]|]; try exact Hres'.
          unfold rows_of, Database.store_scan_result.
          cbn [Database.scan_results]. rewrite filter_app.
          rewrite filter_cons_False, filter_nil, app_nil_r; [exact Hres'|].
          cbn. intros E. eapply Hsid; eauto. }
      destruct (next_port w <=? w_end_port w) eqn:Hle.
      * destruct (progress_percent _ _) as [ex|p].
        -- rewrite <- (alter_id id (jobs s) jid) at 1 by reflexivity.
           apply Hbody. reflexivity.
        -- apply Hbody. reflexivity.
      * apply Z.leb_gt in Hle.
        intros job_id w' j. cbn [workers jobs db].
        destruct (decide (jid = job_id)) as [<-|Hne].
        -- rewrite lookup_insert_eq, lookup_alter_eq, Hj0. cbn [fmap option_fmap option_map].
           intros [= <-] [= <-]. cbn.
           repeat split; try assumption; try (now right); lia.
        -- rewrite lookup_insert_ne, lookup_alter_ne by assumption. apply IH.
Qed.

(** The session row of a job is the one its request created. *)
Definition session_of_worker (s : state) : Prop :=
  forall job_id w, workers s !! job_id = Some w ->
    Database.get_session_by_id (db s) (w_session_id w)
    = Some {| Database.session_type := "red_team"; Database.target := w_target w;
              Database.config := (w_start_port w, w_end_port w);
              Database.results := None; Database.status := "active" |}.

Lemma session_of_worker_reachable (es : list event) :
  session_of_worker (web_run net db0 lg0 es).
Proof.
  induction es as [|e es IH] using rev_ind.
  - intros k w H. cbn in H. rewrite lookup_empty in H. discriminate.
  - pose proof (registry_reachable es) as (H0 & Hlen & Hall & Honly).
    rewrite web_run_snoc.
    set (s := web_run net db0 lg0 es) in *.
    destruct e as [req | jid]; cbn [apply_event].
    + unfold api_start_scan. destruct (String.eqb _ _); [exact IH|].
      unfold Database.create_session. cbn [snd]. fold (job_name (job_counter s + 1)).
      intros job_id w. cbn [workers db].
      destruct (decide (job_name (job_counter s + 1) = job_id)) as [<-|Hne].
      * rewrite lookup_insert_eq.
        intros [= <-]. unfold Database.get_session_by_id. cbn.
        rewrite (proj2 (Z.leb_le _ _)) by lia.
        now rewrite list_lookup_middle by lia.
      * rewrite lookup_insert_ne by assumption. intros Hw.
        destruct (Honly job_id) as (k' & Hk' & ->); [right; eauto|].
        destruct (Hall k' Hk') as (_ & w1 & _ & Hw1 & _ & Hs1).
        assert (w1 = w) as -> by congruence.
        specialize (IH _ w Hw). unfold Database.get_session_by_id in *. cbn.
        rewrite (proj2 (Z.leb_le _ _)) in * by lia.
        rewrite lookup_app_l by lia. exact IH.
    + assert (Hkeep : forall (d : Database.DatabaseManager) (l : Logger.AuditLogger)
                        (js : gmap string job) (w w' : worker),
                 workers s !! jid = Some w ->
                 Database.sessions d = Database.sessions (db s) ->
                 w_target w' = w_target w -> w_start_port w' = w_start_port w ->
                 w_end_port w' = w_end_port w -> w_session_id w' = w_session_id w ->
                 session_of_worker {| db := d; logger := l; jobs := js;
                                      job_counter := job_counter s;
                                      workers := <[jid := w']> (workers s) |}).
      { intros d l js w w' Hw Hd Ht Hs He Hi job_id w0. cbn [workers db].
        unfold Database.get_session_by_id. rewrite Hd.
        destruct (decide (jid = job_id)) as [<-|Hne].
        - rewrite lookup_insert_eq. intros [= <-]. rewrite Ht, Hs, He, Hi.
          now apply (IH jid).
        - rewrite lookup_insert_ne by assumption. apply IH. }
      unfold worker_step.
      destruct (workers s !! jid) as [w|] eqn:Hw; [|exact IH].
      destruct (returned w); [exact IH|].
      destruct (next_port w <=? w_end_port w).
      * destruct (progress_percent _ _) as [ex|p];
          (eapply Hkeep; [reflexivity | destruct (attempt _ _ _) as [[|]|]; reflexivity
                         | reflexivity ..]).
      * eapply Hkeep; [reflexivity | reflexivity ..].
Qed.

End JobRegistry.

(** X7. Jobs are numbered. Whatever the database and the audit log hold when
    the web interface is loaded, in every state it reaches [job_counter] is
    the number of creation requests accepted so far; the jobs are exactly
    ['job-1'] to ['job-n'], the status query of each being answered from its
    entry; a status query for any other identifier is answered 404; the next
    accepted request is given ['job-(n+1)'], which is not in use, and a
    request that is refused leaves everything as it is. *)
Theorem jobs_are_numbered (net : network) (db0 : Database.DatabaseManager)
    (lg0 : Logger.AuditLogger) (es : list WebUI.event) :
  let s := web_run net db0 lg0 es in
  WebUI.job_counter s = Z.of_nat (length (filter (fun e => accepted e) es))
  /\ (forall job_id,
        is_Some (WebUI.jobs s !! job_id)
        <-> exists k, 1 <= k <= WebUI.job_counter s /\ job_id = job_name k)
  /\ (forall k, 1 <= k <= WebUI.job_counter s ->
        exists j, WebUI.jobs s !! job_name k = Some j
                  /\ WebUI.api_scan_status (job_name k) s
                     = WebUI.status_of (WebUI.status j) (WebUI.progress j)
                         (WebUI.open_ports j))
  /\ (forall job_id,
        (forall k, 1 <= k <= WebUI.job_counter s -> job_id <> job_name k) ->
        WebUI.api_scan_status job_id s = WebUI.error 404 "job not found")
  /\ (forall req,
        accepted (WebUI.ev_start req) = true ->
        (WebUI.api_start_scan req s).1
        = WebUI.started (job_name (WebUI.job_counter s + 1))
        /\ WebUI.jobs s !! job_name (WebUI.job_counter s + 1) = None
        /\ WebUI.job_counter (WebUI.api_start_scan req s).2 = WebUI.job_counter s + 1)
  /\ (forall req,
        accepted (WebUI.ev_start req) = false ->
        (WebUI.api_start_scan req s).2 = s).
Proof.
  intros s. pose proof (registry_reachable net db0 lg0 es) as (H0 & Hlen & Hall & Honly).
  fold s in H0, Hlen, Hall, Honly.
  split; [apply job_counter_accepted|]. split; [|split; [|split; [|split]]].
  - intros job_id. split.
    + intros H. apply Honly. now left.
    + intros (k & Hk & ->). destruct (Hall k Hk) as (j & _ & Hj & _). eauto.
  - intros k Hk. destruct (Hall k Hk) as (j & w & Hj & _).
    exists j. unfold WebUI.api_scan_status. now rewrite Hj.
  - intros job_id Hno. unfold WebUI.api_scan_status.
    destruct (WebUI.jobs s !! job_id) as [j|] eqn:Hj; [|reflexivity].
    destruct (Honly job_id) as (k & Hk & ->); [left; eauto|].
    now destruct (Hno k Hk).
  - intros req Hacc. cbn [accepted] in Hacc. unfold WebUI.api_start_scan.
    destruct (String.eqb _ _); [discriminate|]. split; [reflexivity|].
    split; [|reflexivity].
    destruct (WebUI.jobs s !! job_name (WebUI.job_counter s + 1)) as [j|] eqn:Hj;
      [|reflexivity].
    destruct (Honly (job_name (WebUI.job_counter s + 1))) as (k & Hk & E); [left; eauto|].
    apply job_name_inj in E. lia.
  - intros req Hacc. cbn [accepted] in Hacc. unfold WebUI.api_start_scan.
    destruct (String.eqb _ _); [reflexivity | discriminate].
Qed.





(** X9. Whatever the database, its scan results belonging to its sessions,
    and the audit log hold when the web interface is loaded: in every state
    it reaches, a job whose status is ['completed'] lists exactly the ports
    of its range on which the connection attempt succeeded, in ascending
    order (none when the range is empty), and its ['finished_at'] is set;
    the table holds for its session one row per listed port, in that order,
    of service ['unknown'] and status ['open'], and no other; and, the
    identifier of the session being of 64 bits, [api_session] for it returns
    the session its request created (same target and range, still
    ['active']) with those rows, in some order. *)
Theorem completed_job_lists_answering_ports (net : network)
    (db0 : Database.DatabaseManager) (lg0 : Logger.AuditLogger)
    (es : list WebUI.event) (job_id : string) (j : WebUI.job) :
  results_refer_to_sessions db0 ->
  let s := web_run net db0 lg0 es in
  WebUI.jobs s !! job_id = Some j -> WebUI.status j = "completed"%string ->
  exists w,
    WebUI.workers s !! job_id = Some w
    /\ WebUI.open_ports j
       = filter (fun p => WebUI.attempt net w p = Some true)
           (seqZ (WebUI.w_start_port w)
              (WebUI.w_end_port w - WebUI.w_start_port w + 1))
    /\ WebUI.finished j = true
    /\ rows_of (WebUI.session_id j) (WebUI.db s)
       = hit_row (WebUI.session_id j) <$> WebUI.open_ports j
    /\ (WebUI.session_id j < 2 ^ 63 ->
        (exists reply, WebPages.api_session (WebUI.session_id j) s reply)
        /\ forall reply,
             WebPages.api_session (WebUI.session_id j) s reply ->
             exists results,
               results ≡ₚ hit_row (WebUI.session_id j) <$> WebUI.open_ports j
               /\ reply
                  = WebPages.session_json
                      {| Database.session_type := "red_team";
                         Database.target := WebUI.w_target w;
                         Database.config := (WebUI.w_start_port w, WebUI.w_end_port w);
                         Database.results := None; Database.status := "active" |}
                      results).
Proof.
  intros Href s Hj Hst.
  pose proof (registry_reachable net db0 lg0 es) as (H0 & Hlen & Hall & Honly).
  fold s in H0, Hlen, Hall, Honly.
  destruct (Honly job_id) as (k & Hk & ->); [left; eauto|].
  destruct (Hall k Hk) as (j' & w & Hj' & Hw & Hsj & Hsw).
  assert (j' = j) as -> by congruence.
  destruct (results_ok_reachable net db0 lg0 Href es _ w j Hw Hj)
    as (Hsc & Hopen & Hres & _ & Hdone).
  destruct (Hdone Hst) as (Hports & Hfin & _ & Hscanned).
  pose proof (session_of_worker_reachable net db0 lg0 es _ w Hw) as Hrow. fold s in Hrow.
  assert (Hsame : WebUI.w_session_id w = WebUI.session_id j) by lia.
  fold s in Hres. rewrite Hsame in Hres, Hrow. rewrite <- Hports in Hres.
  exists w. split; [exact Hw|]. split; [|split; [exact Hfin|split; [exact Hres|]]].
  - rewrite Hports, Hopen, Hscanned.
    destruct (Z.max_spec 0 (WebUI.w_end_port w - WebUI.w_start_port w + 1))
      as [[? ->]|[? ->]]; [reflexivity|].
    now rewrite !seqZ_nil by lia.
  - intros H64. unfold WebPages.api_session.
    rewrite (proj2 (Z.ltb_ge _ 0)) by lia.
    rewrite (proj2 (Z.ltb_lt _ _) H64), Hrow.
    unfold Database.get_session_results. fold (rows_of (WebUI.session_id j) (WebUI.db s)).
    rewrite Hres. split.
    + eexists. eexists. split; reflexivity.
    + intros reply (results & Hp & ->). eauto.
Qed.

(** X10. A creation request with a target and [start_port > end_port] is
    accepted by the web interface: the job is created running with progress
    0, and the first step of its worker completes it with no open port, its
    progress still 0, and nothing written to the scan results. *)
Theorem reversed_range_completes_empty (net : network) (req : WebUI.request)
    (s : WebUI.state) :
  accepted (WebUI.ev_start req) = true ->
  default 1024 (WebUI.body_end_port req) < default 1 (WebUI.body_start_port req) ->
  exists job_id,
    (WebUI.api_start_scan req s).1 = WebUI.started job_id
    /\ WebUI.api_scan_status job_id (WebUI.api_start_scan req s).2
       = WebUI.status_of "running" 0 []
    /\ WebUI.api_scan_status job_id
         (WebUI.worker_step net job_id (WebUI.api_start_scan req s).2)
       = WebUI.status_of "completed" 0 []
    /\ Database.scan_results
         (WebUI.db (WebUI.worker_step net job_id (WebUI.api_start_scan req s).2))
       = Database.scan_results (WebUI.db s).
Proof.
  intros Hacc Hrev. cbn [accepted] in Hacc. unfold WebUI.api_start_scan.
  destruct (String.eqb _ _); [discriminate|].
  unfold Database.create_session. cbn [fst snd]. eexists. split; [reflexivity|].
  unfold WebUI.api_scan_status, WebUI.worker_step. cbn [WebUI.jobs WebUI.workers].
  rewrite !lookup_insert_eq. cbn [WebUI.returned WebUI.next_port WebUI.w_end_port].
  rewrite (proj2 (Z.leb_gt _ _)) by lia. cbn [WebUI.jobs WebUI.db].
  rewrite lookup_alter_eq, lookup_insert_eq. repeat split.
Qed.

(** A scan of ports 22 and 23 of a host that serves port 22, followed to its
    end, with a refused request in between. *)
Definition ssh_request : WebUI.request :=
  {| WebUI.body_target := Some "10.0.0.5"%string; WebUI.body_start_port := Some 22;
     WebUI.body_end_port := Some 23; WebUI.body_timeout := None |}.

Definition ssh_scan : list WebUI.event :=
  [ WebUI.ev_start ssh_request;
    WebUI.ev_start {| WebUI.body_target := None; WebUI.body_start_port := None;
                      WebUI.body_end_port := None; WebUI.body_timeout := None |};
    WebUI.ev_worker "job-1"; WebUI.ev_worker "job-1"; WebUI.ev_worker "job-1" ].

(** The database file as an earlier run left it: a completed scan of port 80
    with its hit, and an alert. *)
Definition earlier_runs : Database.DatabaseManager :=
  {| Database.sessions :=
       [ {| Database.session_type := "red_team"; Database.target := "10.0.0.9";
            Database.config := (80, 80);
            Database.results :=
              Some {| res_target := "10.0.0.9"; res_start_port := 80;
                      res_end_port := 80; res_open_ports := [80] |};
            Database.status := "completed" |} ];
     Database.scan_results :=
       [ {| Database.sr_session_id := 1; Database.sr_port := 80;
            Database.sr_service := "http"; Database.sr_status := "open" |} ];
     Database.alerts :=
       [ {| Database.al_severity := "HIGH"; Database.al_category := "CPU";
            Database.al_message := "CPU usage critical: 95.0%" |} ] |}.

Lemma jobs_are_numbered_witness :
  let s := web_run (serving [22]) earlier_runs [] ssh_scan in
  WebUI.job_counter s = 1
  /\ WebUI.api_scan_status "job-1" s = WebUI.status_of "completed" 100 [22]
  /\ WebUI.api_scan_status "job-2" s = WebUI.error 404 "job not found"
  /\ (WebUI.api_start_scan ssh_request s).1 = WebUI.started "job-2".
Proof.
  intros s.
  destruct (jobs_are_numbered (serving [22]) earlier_runs [] ssh_scan)
    as (Hc & _ & Hk & Hno & Hnew & _).
  fold s in Hc, Hk, Hno, Hnew.
  assert (H1 : WebUI.job_counter s = 1) by (rewrite Hc; reflexivity).
  split; [exact H1|]. split; [|split].
  - destruct (Hk 1) as (j & Hj & Hst); [rewrite H1; lia|].
    change (WebUI.api_scan_status "job-1" s)
      with (WebUI.api_scan_status (job_name 1) s). rewrite Hst.
    assert (Hj' : WebUI.jobs s !! job_name 1
                  = Some {| WebUI.status := "completed"; WebUI.progress := 100;
                            WebUI.open_ports := [22]; WebUI.session_id := 2;
                            WebUI.finished := true |}) by (vm_compute; reflexivity).
    rewrite Hj' in Hj. injection Hj as <-. reflexivity.
  - apply Hno. intros k Hk1. rewrite H1 in Hk1.
    assert (k = 1) as -> by lia. vm_compute. discriminate.
  - destruct (Hnew ssh_request eq_refl) as [Hn _]. rewrite Hn, H1. reflexivity.
Defined.


Lemma completed_job_lists_answering_ports_witness :
  let s := web_run (serving [22]) earlier_runs [] ssh_scan in
  let j := {| WebUI.status := "completed"; WebUI.progress := 100;
              WebUI.open_ports := [22]; WebUI.session_id := 2;
              WebUI.finished := true |} in
  (results_refer_to_sessions earlier_runs
   /\ WebUI.jobs s !! "job-1"%string = Some j /\ WebUI.status j = "completed"%string)
  /\ rows_of 2 (WebUI.db s) = [hit_row 2 22]
  /\ forall reply,
       WebPages.api_session 2 s reply ->
       exists session,
         reply = WebPages.session_json session [hit_row 2 22]
         /\ Database.target session = "10.0.0.5"%string
         /\ Database.status session = "active"%string.
Proof.
  intros s j.
  assert (Href : results_refer_to_sessions earlier_runs).
  { repeat constructor. cbn. lia. }
  assert (Hj : WebUI.jobs s !! "job-1"%string = Some j) by (vm_compute; reflexivity).
  split; [split; [exact Href | split; [exact Hj | reflexivity]]|].
  destruct (completed_job_lists_answering_ports (serving [22]) earlier_runs []
              ssh_scan "job-1" j Href Hj eq_refl)
    as (w & Hw & _ & _ & Hrows & Hpage).
  fold s in Hw, Hrows, Hpage.
  assert (Hw' : WebUI.w_target <$> WebUI.workers s !! "job-1"%string
                = Some "10.0.0.5"%string) by (vm_compute; reflexivity).
  rewrite Hw in Hw'. injection Hw' as Ht.
  split; [exact Hrows|].
  intros reply Hr. destruct Hpage as [_ Hpage]; [reflexivity|].
  destruct (Hpage reply Hr) as (results & Hp & ->).
  apply Permutation_singleton_r in Hp. subst results.
  eexists. split; [reflexivity|]. split; [exact Ht | reflexivity].
Defined.

Lemma reversed_range_completes_empty_witness :
  let req := {| WebUI.body_target := Some "10.0.0.5"%string;
                WebUI.body_start_port := Some 10; WebUI.body_end_port := Some 5;
                WebUI.body_timeout := None |} in
  (accepted (WebUI.ev_start req) = true /\ 5 < 10)
  /\ exists job_id,
       (WebUI.api_start_scan req WebUI.initial).1 = WebUI.started job_id
       /\ WebUI.api_scan_status job_id
            (WebUI.worker_step (serving [7]) job_id
               (WebUI.api_start_scan req WebUI.initial).2)
          = WebUI.status_of "completed" 0 [].
Proof.
  intros req.
  assert (Ha : accepted (WebUI.ev_start req) = true) by reflexivity.
  assert (Hr : default 1024 (WebUI.body_end_port req)
               < default 1 (WebUI.body_start_port req)) by (vm_compute; reflexivity).
  split; [split; [exact Ha | exact Hr]|].
  destruct (reversed_range_completes_empty (serving [7]) req WebUI.initial Ha Hr)
    as (job_id & H1 & _ & H2 & _).
  exists job_id. split; [exact H1 | exact H2].
Defined.

(** ** The desktop controller *)
Section Recording.
Import RedTeam RedTeamModule.
Variable net : network.

Lemma last_cons_default {A} (d x : A) (l : list A) :
  default d (last (x :: l)) = default x (last l).
Proof.
  revert d x. induction l as [|a l IH]; intros d x; [reflexivity|].
  change (last (x :: a :: l)) with (last (a :: l)). now rewrite !(IH _ a).
Qed.

Lemma display_result_stores (tgt : string) (port : Z) (service : string) (m : t)
    (sid : Z) :
  current_session_id m = Some sid -> sid <> 0 ->
  display_result tgt port service m
  = with_db (fun db => Database.store_scan_result db sid port service "open")
      (with_display (fun d => d ++ ["[OPEN] " +:+ tgt +:+ ":" +:+ pretty port
                                    +:+ " - " +:+ service]) m).
Proof.
  intros Hm Hsid. unfold display_result. cbv zeta.
  change (current_session_id (with_display _ m)) with (current_session_id m).
  rewrite Hm. rewrite (proj2 (Z.eqb_neq _ _)) by assumption. reflexivity.
Qed.

(** What the slots make of the signals of a stretch of ports. *)
Lemma slots_port_signals (tgt : string) (sp total sid : Z) (ports : list Z) :
  sid <> 0 -> forall m : t,
  current_session_id m = Some sid ->
  let m' := foldl (fun acc s => slot s acc) m
              (ports ≫= port_signals net tgt sp total) in
  Database.scan_results (db_manager m')
  = Database.scan_results (db_manager m)
    ++ (open_row sid <$> filter (fun p => is_open net tgt p) ports)
  /\ Database.sessions (db_manager m') = Database.sessions (db_manager m)
  /\ Database.alerts (db_manager m') = Database.alerts (db_manager m)
  /\ current_session_id m' = Some sid
  /\ audit_logger m' = audit_logger m
  /\ scanner_thread m' = scanner_thread m
  /\ start_btn m' = start_btn m /\ stop_btn m' = stop_btn m
  /\ message_boxes m' = message_boxes m
  /\ progress_bar m'
     = default (progress_bar m)
         (last ((fun p => percent (p - sp + 1) total) <$> ports)).
Proof.
  intros Hsid. induction ports as [|p ports IH]; intros m Hm.
  - cbn. rewrite app_nil_r. repeat split. exact Hm.
  - cbn zeta. rewrite bind_cons, foldl_app, filter_cons, fmap_cons, last_cons_default.
    change (port_signals net tgt sp total p)
      with ((if is_open net tgt p
             then [result_update tgt p (identify_service p)] else [])
            ++ [progress_update (percent (p - sp + 1) total)]).
    destruct (is_open net tgt p) eqn:Ho.
    + rewrite decide_True by exact I. cbn [app foldl slot].
      match goal with |- context [foldl _ ?m1 (ports ≫= _)] =>
        destruct (IH m1) as (H1 & H2 & H3 & H4 & H5 & H6 & H7 & H8 & H9 & H10)
      end.
      { rewrite (display_result_stores _ _ _ _ sid) by assumption. exact Hm. }
      rewrite H1, H2, H3, H4, H5, H6, H7, H8, H9, H10.
      rewrite (display_result_stores _ _ _ _ sid) by assumption. cbn.
      rewrite <- app_assoc. repeat split.
    + rewrite decide_False by exact id. cbn [app foldl slot].
      match goal with |- context [foldl _ ?m1 (ports ≫= _)] =>
        destruct (IH m1) as (H1 & H2 & H3 & H4 & H5 & H6 & H7 & H8 & H9 & H10)
      end.
      { exact Hm. }
      rewrite H1, H2, H3, H4, H5, H6, H7, H8, H9, H10. repeat split.
Qed.

Lemma scan_finished_stores (res : ScanResults) (m : t) (sid : Z) :
  current_session_id m = Some sid -> sid <> 0 ->
  scan_finished res m
  = log "RED_TEAM"
      ("Port scan completed: " +:+ res_target res +:+ " - "
       +:+ pretty (Z.of_nat (length (res_open_ports res))) +:+ " open ports") "INFO"
      (with_db (fun db => Database.update_session db sid res)
         (with_display
            (fun d => d ++ ["Scan Complete! Target: " +:+ res_target res
                            +:+ " Ports Scanned: " +:+ pretty (res_start_port res)
                            +:+ "-" +:+ pretty (res_end_port res)
                            +:+ " Open Ports Found: "
                            +:+ pretty (Z.of_nat (length (res_open_ports res)))])
            (with_buttons true false m))).
Proof.
  intros Hm Hsid. unfold scan_finished. cbv zeta.
  change (current_session_id (with_display _ (with_buttons true false m)))
    with (current_session_id m).
  rewrite Hm. rewrite (proj2 (Z.eqb_neq _ _)) by assumption. reflexivity.
Qed.

(** The event loop on a thread that has emitted [sigs] and then
    [scan_complete], none of it delivered yet. *)
Lemma process_events_complete (m : t) (th : PortScannerThread)
    (sigs : list signal) (res : ScanResults) :
  scanner_thread m = Some th -> delivered m = 0%nat ->
  emitted th = sigs ++ [scan_complete res] ->
  let m1 := scan_finished res (foldl (fun acc s => slot s acc) m sigs) in
  process_events m
  = with_thread (scanner_thread m1)
      (match scanner_thread m1 with
       | Some th' => length (emitted th')
       | None => delivered m1
       end) m1.
Proof.
  intros Hth Hd He. unfold process_events, pending.
  rewrite Hth, Hd, He, drop_0, foldl_app. reflexivity.
Qed.

End Recording.

(** X11. A desktop scan started when no other is in flight, and left alone,
    is recorded in full. For a range [start <= end] of fewer than [2 ^ 53]
    ports, once the thread made by [start_scan] has run to its end and the
    event loop has delivered its signals: the current session is the one
    [create_session] made; its row is ['completed'] and holds the results of
    the scan (target stripped, range, ports found); the scan results table
    has gained exactly one row per port that accepted the connection, in
    ascending order, under that session and with the label of
    [identify_service]; the audit log has gained the start and the
    completion entries; the progress bar shows 100; the start button is
    enabled and the stop button disabled; no signal is left undelivered. *)
Theorem scan_is_recorded (net : network) (m : RedTeamModule.t) :
  let tgt := strip (RedTeamModule.target_input m) in
  let sp := RedTeamModule.start_port_box m in
  let ep := RedTeamModule.end_port_box m in
  idle m -> sp <= ep -> ep - sp + 1 < 2 ^ 53 ->
  let m' := finish_scan net (RedTeamModule.start_scan m) in
  let sid :=
    (Database.create_session (RedTeamModule.db_manager m) "red_team" tgt (sp, ep)).1 in
  let found := filter (fun p => net tgt p = connected) (seqZ sp (ep - sp + 1)) in
  let found_text := pretty (Z.of_nat (length found)) in
  RedTeamModule.current_session_id m' = Some sid
  /\ Database.scan_results (RedTeamModule.db_manager m')
     = Database.scan_results (RedTeamModule.db_manager m) ++ (open_row sid <$> found)
  /\ Database.sessions (RedTeamModule.db_manager m')
     = Database.sessions (RedTeamModule.db_manager m)
       ++ [ {| Database.session_type := "red_team"; Database.target := tgt;
               Database.config := (sp, ep);
               Database.results :=
                 Some {| res_target := tgt; res_start_port := sp;
                         res_end_port := ep; res_open_ports := found |};
               Database.status := "completed" |} ]
  /\ RedTeamModule.audit_logger m'
     = RedTeamModule.audit_logger m
       ++ [ {| Logger.category := "RED_TEAM";
               Logger.message := "Port scan started: " +:+ tgt +:+ " ports "
                                 +:+ pretty sp +:+ "-" +:+ pretty ep;
               Logger.level := "INFO" |};
            {| Logger.category := "RED_TEAM";
               Logger.message := "Port scan completed: " +:+ tgt +:+ " - "
                                 +:+ found_text +:+ " open ports";
               Logger.level := "INFO" |} ]
  /\ RedTeamModule.progress_bar m' = 100
  /\ RedTeamModule.start_btn m' = true /\ RedTeamModule.stop_btn m' = false
  /\ RedTeamModule.pending m' = [].
Proof.
  intros tgt sp ep _ Hle Htot m' sid0 found found_text.
  assert (Hfound : found = filter (fun p => is_open net tgt p) (seqZ sp (ep - sp + 1))).
  { apply list_filter_iff. intros p. symmetry. apply is_open_connected. }
  set (sid := Z.of_nat (length (Database.sessions (RedTeamModule.db_manager m))) + 1).
  change sid0 with sid. clear sid0.
  assert (Hsid : sid <> 0) by (unfold sid; lia).
  subst m'. unfold finish_scan, RedTeamModule.start_scan.
  fold tgt sp ep. rewrite (proj2 (Z.ltb_ge _ _)) by lia. cbv zeta.
  unfold Database.create_session. fold sid.
  cbn [RedTeamModule.db_manager RedTeamModule.with_progress RedTeamModule.with_display].
  match goal with |- context [RedTeamModule.process_events ?x] => set (ms := x) end.
  pose (th := RedTeam.run net (RedTeam.init tgt sp ep (RedTeamModule.timeout_input m))).
  assert (Hth : RedTeamModule.scanner_thread ms = Some th) by reflexivity.
  assert (He : RedTeam.emitted th
               = (seqZ sp (ep - sp + 1) ≫= port_signals net tgt sp (ep - sp + 1))
                 ++ [RedTeam.scan_complete
                       {| res_target := tgt; res_start_port := sp;
                          res_end_port := ep; res_open_ports := found |}]).
  { unfold th. rewrite run_closed_form by assumption. cbv zeta. now rewrite <- Hfound. }
  rewrite (process_events_complete ms th _ _ Hth eq_refl He). cbv zeta.
  destruct (slots_port_signals net tgt sp (ep - sp + 1) sid (seqZ sp (ep - sp + 1))
              Hsid ms eq_refl)
    as (H1 & H2 & H3 & H4 & H5 & H6 & H7 & H8 & H9 & H10).
  cbv zeta in *.
  set (m1 := foldl _ ms (seqZ sp _ ≫= _)) in *.
  rewrite <- Hfound in H1.
  rewrite (scan_finished_stores _ m1 sid) by assumption.
  cbn [RedTeamModule.current_session_id RedTeamModule.db_manager
       RedTeamModule.audit_logger RedTeamModule.progress_bar RedTeamModule.start_btn
       RedTeamModule.stop_btn RedTeamModule.scanner_thread RedTeamModule.delivered
       RedTeamModule.with_thread RedTeamModule.log RedTeamModule.with_db
       RedTeamModule.with_display RedTeamModule.with_buttons RedTeamModule.pending
       res_target res_open_ports Database.update_session Database.scan_results
       Database.sessions].
  rewrite H1, H2, H4, H5, H6, H10.
  split; [reflexivity|]. split; [reflexivity|]. split; [|split; [|split]].
  - cbn [ms RedTeamModule.db_manager RedTeamModule.with_thread RedTeamModule.with_display
         RedTeamModule.with_buttons RedTeamModule.log RedTeamModule.with_session
         RedTeamModule.with_db Database.sessions].
    rewrite (proj2 (Z.leb_le _ _)) by lia.
    replace (Z.to_nat (sid - 1))
      with (length (Database.sessions (RedTeamModule.db_manager m)) + 0)%nat by lia.
    rewrite alter_app_r. reflexivity.
  - unfold Logger.log_event. cbn. rewrite <- app_assoc. reflexivity.
  - replace (ep - sp + 1) with ((ep - sp) + 1) at 2 by lia.
    rewrite seqZ_app by lia.
    rewrite (seqZ_cons _ 1), (seqZ_nil _ (Z.pred 1)) by lia.
    rewrite fmap_app. cbn [fmap list_fmap]. rewrite last_snoc. cbn [default from_option id].
    etransitivity; [|apply (percent_full (ep - sp + 1)); lia]. f_equal. lia.
  - split; [reflexivity|]. split; [reflexivity|].
    rewrite Hth. unfold RedTeamModule.pending.
    cbn [RedTeamModule.scanner_thread RedTeamModule.delivered RedTeamModule.with_thread].
    apply drop_all.
Qed.

(** The controller with a target typed, consent given and ports 22 to 25
    chosen. *)
Definition ready_to_scan : RedTeamModule.t :=
  RedTeamModule.set_consent true
    (RedTeamModule.edit_target " 127.0.0.1 "
       (RedTeamModule.with_range 22 25 1 (RedTeamModule.init Database.empty []))).

Lemma scan_is_recorded_witness :
  let m' := finish_scan (serving [22; 25]) (RedTeamModule.start_scan ready_to_scan) in
  let m'' := finish_scan (serving [25]) (RedTeamModule.start_scan m') in
  (idle ready_to_scan /\ 22 <= 25 /\ 25 - 22 + 1 < 2 ^ 53)
  /\ Database.scan_results (RedTeamModule.db_manager m')
     = [ {| Database.sr_session_id := 1; Database.sr_port := 22;
            Database.sr_service := "SSH"; Database.sr_status := "open" |};
         {| Database.sr_session_id := 1; Database.sr_port := 25;
            Database.sr_service := "SMTP"; Database.sr_status := "open" |} ]
  /\ RedTeamModule.session_status m' = Some "completed"%string
  /\ RedTeamModule.progress_bar m' = 100
  /\ idle m'
  /\ RedTeamModule.current_session_id m'' = Some 2
  /\ Database.scan_results (RedTeamModule.db_manager m'')
     = Database.scan_results (RedTeamModule.db_manager m')
       ++ [ {| Database.sr_session_id := 2; Database.sr_port := 25;
               Database.sr_service := "SMTP"; Database.sr_status := "open" |} ].
Proof.
  intros m' m''.
  assert (H0 : idle ready_to_scan) by exact I.
  assert (H1 : RedTeamModule.start_port_box ready_to_scan
               <= RedTeamModule.end_port_box ready_to_scan) by (vm_compute; discriminate).
  assert (H2 : RedTeamModule.end_port_box ready_to_scan
               - RedTeamModule.start_port_box ready_to_scan + 1 < 2 ^ 53)
    by (vm_compute; reflexivity).
  destruct (scan_is_recorded (serving [22; 25]) ready_to_scan H0 H1 H2)
    as (Hsid & Hrows & Hsess & _ & Hp & _).
  fold m' in Hsid, Hrows, Hsess, Hp.
  assert (H0' : idle m') by (vm_compute; split; reflexivity).
  assert (H1' : RedTeamModule.start_port_box m' <= RedTeamModule.end_port_box m')
    by (vm_compute; discriminate).
  assert (H2' : RedTeamModule.end_port_box m' - RedTeamModule.start_port_box m' + 1
                < 2 ^ 53) by (vm_compute; reflexivity).
  destruct (scan_is_recorded (serving [25]) m' H0' H1' H2') as (Hsid' & Hrows' & _).
  fold m'' in Hsid', Hrows'.
  split; [split; [exact H0 | split; [exact H1 | exact H2]]|].
  split; [rewrite Hrows; vm_compute; reflexivity|].
  split; [|split; [exact Hp | split; [exact H0' | split]]].
  - unfold RedTeamModule.session_status, Database.get_session_by_id.
    rewrite Hsid, Hsess. vm_compute. reflexivity.
  - rewrite Hsid'. vm_compute. reflexivity.
  - rewrite Hrows'. vm_compute. reflexivity.
Defined.

(** X13. Clearing the alert display never removes a stored alert. Over any
    sequence of alerts added by [add_alert] and of clear requests, confirmed
    or declined: the alerts table gains one row per alert, in order; the
    audit log gains one WARNING entry per alert, in order, and no other
    WARNING entry; the list displayed is a suffix of what was displayed
    followed by the alerts added; and if the list displayed was a suffix of
    the table, it still is. *)
Theorem alerts_outlive_display (m : BlueTeam.module)
    (es : list BlueTeamModule.event) :
  let m' := foldl BlueTeamModule.handle m es in
  Database.alerts (BlueTeam.db_manager m')
  = Database.alerts (BlueTeam.db_manager m) ++ (alert_row_of <$> raised es)
  /\ filter (fun e => Logger.level e = "WARNING"%string)
       (BlueTeam.audit_logger m' : list Logger.log_entry)
     = filter (fun e => Logger.level e = "WARNING"%string)
         (BlueTeam.audit_logger m : list Logger.log_entry)
       ++ (alert_entry_of <$> raised es)
  /\ (BlueTeam.alerts m' `suffix_of` BlueTeam.alerts m ++ raised es)
  /\ ((alert_row_of <$> BlueTeam.alerts m)
        `suffix_of` Database.alerts (BlueTeam.db_manager m) ->
      (alert_row_of <$> BlueTeam.alerts m')
        `suffix_of` Database.alerts (BlueTeam.db_manager m')).
Proof.
  induction es as [|e es IH] using rev_ind.
  - cbn. rewrite !app_nil_r. repeat split; [reflexivity | tauto].
  - cbv zeta in *. rewrite foldl_app. cbn [foldl].
    set (m1 := foldl BlueTeamModule.handle m es) in *.
    destruct IH as (Hdb & Hlog & Hsuf & Hrows).
    unfold raised in *. rewrite bind_app, !fmap_app, !app_assoc.
    destruct e as [a | [|]]; cbn [BlueTeamModule.handle BlueTeamModule.clear_alerts
      BlueTeam.add_alert BlueTeam.alerts BlueTeam.db_manager BlueTeam.audit_logger
      mbind list_bind app fmap list_fmap Database.store_alert Database.alerts].
    + repeat split.
      * rewrite Hdb. reflexivity.
      * unfold Logger.log_event. rewrite filter_app, Hlog.
        rewrite filter_cons_True by reflexivity. reflexivity.
      * now apply suffix_app.
      * intros H. rewrite fmap_app. apply suffix_app. tauto.
    + rewrite !app_nil_r. repeat split.
      * exact Hdb.
      * unfold Logger.log_event. rewrite filter_app, Hlog.
        rewrite filter_cons_False by discriminate. now rewrite app_nil_r.
      * apply suffix_nil.
      * intros _. apply suffix_nil.
    + rewrite !app_nil_r. repeat split; assumption.
Qed.

(** X12. The end of a scan enables the start button whatever the consent
    box and the target field hold: after [scan_finished], [handle_error] or
    [stop_scan] the button is enabled, box and field unchanged. [start_scan]
    itself tests the range only: with [start <= end], a click then creates a
    session for the stripped target and starts a thread on it, be the box
    unticked and the target blank. *)
Theorem start_button_forgets_consent (net : network) (m m' : RedTeamModule.t)
    (res : ScanResults) (msg : string) :
  m' = RedTeamModule.scan_finished res m
  \/ m' = RedTeamModule.handle_error msg m
  \/ m' = RedTeamModule.stop_scan net m ->
  RedTeamModule.start_btn m' = true
  /\ RedTeamModule.consent_checkbox m' = RedTeamModule.consent_checkbox m
  /\ RedTeamModule.target_input m' = RedTeamModule.target_input m
  /\ (RedTeamModule.start_port_box m <= RedTeamModule.end_port_box m ->
      let tgt := strip (RedTeamModule.target_input m) in
      let sid := Z.of_nat (length (Database.sessions (RedTeamModule.db_manager m'))) + 1 in
      RedTeamModule.scanner_thread (RedTeamModule.start_scan m')
      = Some (RedTeam.start
                (RedTeam.init tgt (RedTeamModule.start_port_box m)
                   (RedTeamModule.end_port_box m) (RedTeamModule.timeout_input m)))
      /\ RedTeamModule.current_session_id (RedTeamModule.start_scan m') = Some sid
      /\ Database.get_session_by_id
           (RedTeamModule.db_manager (RedTeamModule.start_scan m')) sid
         = Some {| Database.session_type := "red_team"; Database.target := tgt;
                   Database.config := (RedTeamModule.start_port_box m,
                                       RedTeamModule.end_port_box m);
                   Database.results := None; Database.status := "active" |}).
Proof.
  intros H.
  assert (Hsame : RedTeamModule.start_btn m' = true
                  /\ RedTeamModule.consent_checkbox m' = RedTeamModule.consent_checkbox m
                  /\ RedTeamModule.target_input m' = RedTeamModule.target_input m
                  /\ RedTeamModule.start_port_box m' = RedTeamModule.start_port_box m
                  /\ RedTeamModule.end_port_box m' = RedTeamModule.end_port_box m
                  /\ RedTeamModule.timeout_input m' = RedTeamModule.timeout_input m).
  { destruct H as [-> | [-> | ->]].
    - unfold RedTeamModule.scan_finished. cbv zeta.
      destruct (RedTeamModule.current_session_id _) as [sid|]; [destruct (sid =? 0)|];
        repeat split.
    - repeat split.
    - unfold RedTeamModule.stop_scan. cbv zeta.
      destruct (RedTeamModule.scanner_thread m) as [th|];
        [destruct (RedTeam.isRunning th)|]; repeat split. }
  destruct Hsame as (Hb & Hc & Ht & Hs & He & Hm).
  split; [exact Hb|]. split; [exact Hc|]. split; [exact Ht|].
  intros Hle tgt sid. unfold RedTeamModule.start_scan.
  rewrite Hs, He, Hm, Ht. fold tgt. rewrite (proj2 (Z.ltb_ge _ _)) by lia.
  cbv zeta. unfold Database.create_session.
  cbn [RedTeamModule.scanner_thread RedTeamModule.current_session_id
       RedTeamModule.db_manager RedTeamModule.with_display RedTeamModule.with_buttons
       RedTeamModule.with_thread RedTeamModule.log RedTeamModule.with_session
       RedTeamModule.with_db RedTeamModule.with_progress].
  split; [reflexivity|]. split; [reflexivity|].
  unfold Database.get_session_by_id. cbn [Database.sessions]. fold sid.
  rewrite (proj2 (Z.leb_le _ _)) by (unfold sid; lia).
  rewrite list_lookup_middle; [reflexivity|]. unfold sid. lia.
Qed.

Lemma alerts_outlive_display_witness :
  let a := {| BlueTeam.severity := "HIGH"; BlueTeam.category := "CPU";
              BlueTeam.message := "CPU usage critical: 95.0%" |} in
  let b := {| BlueTeam.severity := "CRITICAL"; BlueTeam.category := "Disk";
              BlueTeam.message := "Disk usage critical: 97.5%" |} in
  let m := {| BlueTeam.alerts := []; BlueTeam.db_manager := Database.empty;
              BlueTeam.audit_logger := [] |} in
  let m' := foldl BlueTeamModule.handle m
              [ BlueTeamModule.ev_alert a; BlueTeamModule.ev_clear true;
                BlueTeamModule.ev_clear false; BlueTeamModule.ev_alert b ] in
  (alert_row_of <$> BlueTeam.alerts m) `suffix_of` Database.alerts (BlueTeam.db_manager m)
  /\ BlueTeam.alerts m' = [b]
  /\ Database.alerts (BlueTeam.db_manager m') = [alert_row_of a; alert_row_of b]
  /\ (alert_row_of <$> BlueTeam.alerts m')
       `suffix_of` Database.alerts (BlueTeam.db_manager m').
Proof.
  intros a b m m'.
  assert (H0 : (alert_row_of <$> BlueTeam.alerts m)
                 `suffix_of` Database.alerts (BlueTeam.db_manager m))
    by (exists []; reflexivity).
  destruct (alerts_outlive_display m
              [ BlueTeamModule.ev_alert a; BlueTeamModule.ev_clear true;
                BlueTeamModule.ev_clear false; BlueTeamModule.ev_alert b ])
    as (Hdb & _ & _ & Hsuf).
  split; [exact H0|]. split; [reflexivity|]. split; [exact Hdb | exact (Hsuf H0)].
Defined.

Lemma start_button_forgets_consent_witness :
  let m := RedTeamModule.init Database.empty [] in
  let res := {| res_target := "10.0.0.5"; res_start_port := 1; res_end_port := 2;
                res_open_ports := [] |} in
  let m' := RedTeamModule.scan_finished res m in
  (RedTeamModule.consent_checkbox m = false
   /\ RedTeamModule.target_input m = ""%string
   /\ RedTeamModule.start_port_box m <= RedTeamModule.end_port_box m)
  /\ RedTeamModule.start_btn m' = true
  /\ RedTeamModule.consent_checkbox m' = false
  /\ (RedTeam.isRunning <$> RedTeamModule.scanner_thread (RedTeamModule.start_scan m'))
     = Some true
  /\ (RedTeam.target <$> RedTeamModule.scanner_thread (RedTeamModule.start_scan m'))
     = Some ""%string.
Proof.
  intros m res m'.
  assert (Hle : RedTeamModule.start_port_box m <= RedTeamModule.end_port_box m)
    by (vm_compute; discriminate).
  destruct (start_button_forgets_consent (serving []) m m' res "" (or_introl eq_refl))
    as (Hb & Hc & _ & Hgo).
  destruct (Hgo Hle) as (Hth & _).
  split; [split; [reflexivity | split; [reflexivity | exact Hle]]|].
  split; [exact Hb|]. split; [rewrite Hc; reflexivity|].
  rewrite Hth. split; reflexivity.
Defined.

(** ** Removing old sessions *)
Lemma days_in_month_bounds (y m : Z) : 28 <= Retention.days_in_month y m <= 31.
Proof.
  unfold Retention.days_in_month.
  destruct (m =? 2); [destruct (Retention.is_leap y); lia|].
  destruct (_ || _); lia.
Qed.

(** X16. [delete_old_sessions] computes its cutoff by replacing the day of
    the month of the current time by that day minus [days], and
    [datetime.replace] accepts the days of that month only. Whenever [days]
    is at least the day of the month the call raises, before any statement
    is executed: [ValueError] as long as the difference fits a C [int],
    [OverflowError] beyond; with the default of 30 days it raises
    [ValueError] on every day of a month but the 31st. A negative [days]
    that leads past the end of the month raises in the same way. The call
    succeeds exactly when the difference is a day of the month. *)
Theorem delete_old_sessions_cutoff (now now' : Retention.datetime) (days : Z)
    (t : Retention.tables) :
  1 <= Retention.day now' <= 31 ->
  let new_day := Retention.day now' - days in
  let last_day := Retention.days_in_month (Retention.year now) (Retention.month now) in
  (Retention.day now' <= days <= Retention.day now' + 2 ^ 31 ->
   Retention.delete_old_sessions now now' days t = inl ValueError)
  /\ (Retention.day now' + 2 ^ 31 < days ->
      Retention.delete_old_sessions now now' days t = inl OverflowError)
  /\ (days = 30 -> Retention.day now' <> 31 ->
      Retention.delete_old_sessions now now' days t = inl ValueError)
  /\ (last_day < new_day < 2 ^ 31 ->
      Retention.delete_old_sessions now now' days t = inl ValueError)
  /\ (2 ^ 31 <= new_day ->
      Retention.delete_old_sessions now now' days t = inl OverflowError)
  /\ (1 <= new_day <= last_day <->
      exists n t', Retention.delete_old_sessions now now' days t = inr (n, t')).
Proof.
  intros Hd new_day last_day.
  pose proof (days_in_month_bounds (Retention.year now) (Retention.month now)) as Hm.
  fold last_day in Hm.
  unfold Retention.delete_old_sessions, Retention.replace_day.
  fold new_day last_day.
  destruct (Z.ltb_spec new_day (- 2 ^ 31)); destruct (Z.leb_spec (2 ^ 31) new_day);
    destruct (Z.leb_spec 1 new_day); destruct (Z.leb_spec new_day last_day);
    cbn [orb andb]; subst new_day;
    (repeat split; try (intros; first [reflexivity | lia]);
     try match goal with
         | H : exists _ _, _ = _ |- _ => destruct H as (? & ? & [=])
         end; eauto).
Qed.

(** X17. When [delete_old_sessions] succeeds, the sessions left are exactly
    those whose [start_time] does not compare below the text of the cutoff;
    the number returned is the number of sessions removed; a scan result is
    left only if it was there and every session of its identifier is left;
    so if every scan result belonged to a session of the table before, it
    does so afterwards. *)
Theorem delete_old_sessions_keeps_references (now now' : Retention.datetime)
    (days n : Z) (t t' : Retention.tables) :
  Retention.delete_old_sessions now now' days t = inr (n, t') ->
  exists cutoff,
    Retention.replace_day now (Retention.day now' - days) = inr cutoff
    /\ (forall s, s ∈ Retention.sessions t' <->
                  s ∈ Retention.sessions t
                  /\ String.ltb (Retention.start_time s) (Retention.isoformat cutoff)
                     = false)
    /\ n + Z.of_nat (length (Retention.sessions t'))
       = Z.of_nat (length (Retention.sessions t))
    /\ (forall r, r ∈ Retention.scan_results t' ->
                  r ∈ Retention.scan_results t
                  /\ forall s, s ∈ Retention.sessions t ->
                               Retention.id s = Database.sr_session_id r ->
                               s ∈ Retention.sessions t')
    /\ (referenced t -> referenced t').
Proof.
  unfold Retention.delete_old_sessions.
  destruct (Retention.replace_day now _) as [e|cutoff]; [discriminate|].
  intros [= <- <-]. exists cutoff. split; [reflexivity|].
  cbn [Retention.sessions Retention.scan_results].
  set (c := Retention.isoformat cutoff).
  assert (Hs : forall s,
    s ∈ filter (fun s => ¬ String.ltb (Retention.start_time s) c) (Retention.sessions t)
    <-> s ∈ Retention.sessions t /\ String.ltb (Retention.start_time s) c = false).
  { intros s. rewrite list_elem_of_filter.
    destruct (String.ltb (Retention.start_time s) c); cbn; intuition congruence. }
  assert (Hr : forall r,
    r ∈ filter (fun r => Database.sr_session_id r
                         ∉ Retention.id <$> filter (fun s => String.ltb (Retention.start_time s) c)
                                              (Retention.sessions t))
          (Retention.scan_results t) ->
    r ∈ Retention.scan_results t
    /\ forall s, s ∈ Retention.sessions t ->
                 Retention.id s = Database.sr_session_id r ->
                 s ∈ filter (fun s => ¬ String.ltb (Retention.start_time s) c)
                            (Retention.sessions t)).
  { intros r Hin. apply list_elem_of_filter in Hin as [Hnot Hin]. split; [exact Hin|].
    intros s Hsin Hid. apply Hs. split; [exact Hsin|].
    destruct (String.ltb (Retention.start_time s) c) eqn:E; [|reflexivity].
    exfalso. apply Hnot. rewrite <- Hid. apply list_elem_of_fmap.
    exists s. split; [reflexivity|]. apply list_elem_of_filter. rewrite E. now split. }
  split; [exact Hs|]. split; [|split; [exact Hr|]].
  - clear Hs Hr. induction (Retention.sessions t) as [|s l IH]; [reflexivity|].
    rewrite !filter_cons. destruct (String.ltb (Retention.start_time s) c); cbn [Is_true].
    + rewrite decide_True by exact I. rewrite decide_False by tauto.
      cbn [length]. lia.
    + rewrite decide_False by exact id. rewrite decide_True by tauto.
      cbn [length]. lia.
  - intros Href r Hin. destruct (Hr r Hin) as [Hin' Hkeep].
    destruct (Href r Hin') as (s & Hsin & Hid). exists s. split; [|exact Hid].
    now apply Hkeep.
Qed.

(** The third and the twentieth of November 2026, at ten past nine. *)
Definition third_of_november : Retention.datetime :=
  {| Retention.year := 2026; Retention.month := 11; Retention.day := 3;
     Retention.hour := 9; Retention.minute := 10; Retention.second := 0;
     Retention.microsecond := 0 |}.

Definition twentieth_of_november : Retention.datetime :=
  {| Retention.year := 2026; Retention.month := 11; Retention.day := 20;
     Retention.hour := 9; Retention.minute := 10; Retention.second := 0;
     Retention.microsecond := 0 |}.

Definition a_row : Database.session_row :=
  {| Database.session_type := "red_team"; Database.target := "10.0.0.5";
     Database.config := (1, 2); Database.results := None;
     Database.status := "active" |}.

Definition two_sessions : Retention.tables :=
  {| Retention.sessions :=
       [ {| Retention.id := 1; Retention.start_time := "2026-11-01T10:00:00.000001";
            Retention.columns := a_row |};
         {| Retention.id := 2; Retention.start_time := "2026-11-18T09:00:00.000001";
            Retention.columns := a_row |} ];
     Retention.scan_results :=
       [ {| Database.sr_session_id := 1; Database.sr_port := 22;
            Database.sr_service := "SSH"; Database.sr_status := "open" |};
         {| Database.sr_session_id := 2; Database.sr_port := 80;
            Database.sr_service := "HTTP"; Database.sr_status := "open" |} ] |}.

Lemma delete_old_sessions_cutoff_witness :
  1 <= Retention.day third_of_november <= 31
  /\ Retention.delete_old_sessions third_of_november third_of_november 30 two_sessions
     = inl ValueError
  /\ Retention.delete_old_sessions third_of_november third_of_november 3 two_sessions
     = inl ValueError
  /\ Retention.delete_old_sessions third_of_november third_of_november (2 ^ 31 + 4)
       two_sessions
     = inl OverflowError
  /\ Retention.delete_old_sessions third_of_november third_of_november (- 40)
       two_sessions
     = inl ValueError
  /\ exists n t', Retention.delete_old_sessions third_of_november third_of_november 2
                    two_sessions = inr (n, t').
Proof.
  assert (Hd : 1 <= Retention.day third_of_november <= 31) by (vm_compute; split; discriminate).
  split; [exact Hd|].
  split; [|split; [|split; [|split]]].
  - destruct (delete_old_sessions_cutoff third_of_november third_of_november 30
                two_sessions Hd) as (_ & _ & H & _).
    apply H; [reflexivity | vm_compute; discriminate].
  - destruct (delete_old_sessions_cutoff third_of_november third_of_november 3
                two_sessions Hd) as (H & _).
    apply H. vm_compute. split; discriminate.
  - destruct (delete_old_sessions_cutoff third_of_november third_of_november (2 ^ 31 + 4)
                two_sessions Hd) as (_ & H & _).
    apply H. vm_compute. reflexivity.
  - destruct (delete_old_sessions_cutoff third_of_november third_of_november (- 40)
                two_sessions Hd) as (_ & _ & _ & H & _).
    apply H. vm_compute. split; reflexivity.
  - destruct (delete_old_sessions_cutoff third_of_november third_of_november 2
                two_sessions Hd) as (_ & _ & _ & _ & _ & H).
    apply H. vm_compute. split; discriminate.
Defined.

Lemma delete_old_sessions_keeps_references_witness :
  let t' := {| Retention.sessions :=
                 [ {| Retention.id := 2;
                      Retention.start_time := "2026-11-18T09:00:00.000001";
                      Retention.columns := a_row |} ];
               Retention.scan_results :=
                 [ {| Database.sr_session_id := 2; Database.sr_port := 80;
                      Database.sr_service := "HTTP"; Database.sr_status := "open" |} ] |} in
  Retention.delete_old_sessions twentieth_of_november twentieth_of_november 5 two_sessions
  = inr (1, t')
  /\ (exists cutoff,
        Retention.replace_day twentieth_of_november 15 = inr cutoff
        /\ Retention.isoformat cutoff = "2026-11-15T09:10:00"%string)
  /\ (referenced two_sessions -> referenced t').
Proof.
  intros t'.
  assert (H : Retention.delete_old_sessions twentieth_of_november twentieth_of_november 5
                two_sessions = inr (1, t')) by (vm_compute; reflexivity).
  destruct (delete_old_sessions_keeps_references _ _ _ _ _ _ H)
    as (cutoff & Hc & _ & _ & _ & Href).
  split; [exact H|]. split; [|exact Href].
  exists cutoff. split; [exact Hc|].
  change (Retention.day twentieth_of_november - 5) with 15 in Hc.
  assert (Hc' : match Retention.replace_day twentieth_of_november 15 with
                | inr c => Retention.isoformat c
                | inl _ => ""%string
                end = "2026-11-15T09:10:00"%string) by (vm_compute; reflexivity).
  rewrite Hc in Hc'. exact Hc'.
Defined.

(** ** The tables as SQLite keeps them *)
Lemma int64_spec (n : Z) : Storage.int64 n = true <-> - 2 ^ 63 <= n < 2 ^ 63.
Proof. unfold Storage.int64. rewrite andb_true_iff, Z.leb_le, Z.ltb_lt. tauto. Qed.

Lemma largest_bounds (ids : list Z) (sequence : Z) :
  sequence <= foldr Z.max sequence ids
  /\ Forall (fun i => i <= foldr Z.max sequence ids) ids.
Proof.
  induction ids as [|i ids [IH1 IH2]]; cbn [foldr]; [split; [lia | constructor]|].
  split; [lia|]. constructor; [lia|].
  eapply Forall_impl; [exact IH2|]. cbn. intros. lia.
Qed.

Lemma largest_kept (ids : list Z) (sequence : Z) :
  Forall (fun i => i <= sequence) ids -> foldr Z.max sequence ids = sequence.
Proof.
  induction 1 as [|i ids Hi _ IH]; cbn [foldr]; [reflexivity|]. rewrite IH. lia.
Qed.

Lemma next_rowid_spec (ids : list Z) (sequence sid : Z) :
  Storage.next_rowid ids sequence = Some sid ->
  sequence < sid /\ sid < 2 ^ 63 /\ Forall (fun i => i < sid) ids.
Proof.
  unfold Storage.next_rowid. cbv zeta.
  destruct (largest_bounds ids sequence) as [H1 H2].
  destruct (Z.ltb_spec (foldr Z.max sequence ids) (2 ^ 63 - 1)); [|discriminate].
  intros [= <-]. split; [lia|]. split; [lia|].
  eapply Forall_impl; [exact H2|]. cbn. intros. lia.
Qed.

Lemma find_absent (sid : Z) (l : list Retention.session) :
  sid ∉ Retention.id <$> l -> List.find (fun s => Retention.id s =? sid) l = None.
Proof.
  induction l as [|s l IH]; [reflexivity|]. rewrite fmap_cons, not_elem_of_cons.
  intros [Hne Hl]. cbn [List.find].
  rewrite (proj2 (Z.eqb_neq _ _)) by congruence. now apply IH.
Qed.

Lemma find_app (sid : Z) (l1 l2 : list Retention.session) :
  List.find (fun s => Retention.id s =? sid) (l1 ++ l2)
  = match List.find (fun s => Retention.id s =? sid) l1 with
    | Some s => Some s
    | None => List.find (fun s => Retention.id s =? sid) l2
    end.
Proof.
  induction l1 as [|s l1 IH]; [reflexivity|]. cbn [app List.find].
  destruct (Retention.id s =? sid); [reflexivity | exact IH].
Qed.

Lemma find_fmap_other (f : Retention.session -> Retention.session) (sid k : Z)
    (l : list Retention.session) :
  (forall s, Retention.id (f s) = Retention.id s) -> k <> sid ->
  List.find (fun s => Retention.id s =? k)
    ((fun s => if Retention.id s =? sid then f s else s) <$> l)
  = List.find (fun s => Retention.id s =? k) l.
Proof.
  intros Hf Hne. induction l as [|s l IH]; [reflexivity|].
  rewrite fmap_cons. cbn [List.find].
  destruct (Z.eqb_spec (Retention.id s) sid) as [E | E].
  - rewrite Hf, E, (proj2 (Z.eqb_neq sid k)) by congruence. exact IH.
  - destruct (Retention.id s =? k); [reflexivity | exact IH].
Qed.

Lemma find_fmap_same (f : Retention.session -> Retention.session) (sid : Z)
    (l : list Retention.session) :
  (forall s, Retention.id (f s) = Retention.id s) ->
  List.find (fun s => Retention.id s =? sid)
    ((fun s => if Retention.id s =? sid then f s else s) <$> l)
  = f <$> List.find (fun s => Retention.id s =? sid) l.
Proof.
  intros Hf. induction l as [|s l IH]; [reflexivity|].
  rewrite fmap_cons. cbn [List.find].
  destruct (Z.eqb_spec (Retention.id s) sid) as [E | E].
  - now rewrite Hf, E, Z.eqb_refl.
  - rewrite (proj2 (Z.eqb_neq _ _)) by exact E. exact IH.
Qed.

Lemma Sorted_app_l {A} (R : relation A) (l1 l2 : list A) :
  Sorted R (l1 ++ l2) -> Sorted R l1.
Proof.
  induction l1 as [|a l1 IH]; [constructor|]. cbn [app]. intros H.
  apply Sorted_inv in H as [Hs Hh]. constructor; [now apply IH|].
  destruct l1; [constructor|]. cbn in Hh. apply HdRel_inv in Hh. now constructor.
Qed.

Lemma Sorted_middle {A} (R : relation A) (l1 l2 : list A) (x y : A) :
  Sorted R (l1 ++ x :: y :: l2) -> R x y.
Proof.
  induction l1 as [|a l1 IH]; cbn [app]; intros H; apply Sorted_inv in H as [Hs Hh].
  - now apply HdRel_inv in Hh.
  - now apply IH.
Qed.

Lemma leb_ltb (a b : string) : String.leb a b = true -> String.ltb b a = true -> False.
Proof.
  unfold String.leb, String.ltb. rewrite (String.compare_antisym b a).
  destruct (String.compare a b); cbn; discriminate.
Qed.

#[local] Instance by_timestamp_dec (a b : string * Z * string * string) :
  Decision (Storage.by_timestamp a b).
Proof. unfold Storage.by_timestamp. apply _. Defined.

#[local] Instance by_timestamp_total : Total Storage.by_timestamp.
Proof. intros a b. apply String.leb_total. Qed.

(** The call always has an answer. *)
Lemma get_session_results_answers (sid : Z) (st : Storage.t) :
  exists out, Storage.get_session_results sid st out.
Proof.
  unfold Storage.get_session_results. destruct (Storage.int64 sid); [|eauto].
  eexists. exists (merge_sort Storage.by_timestamp
                     (Storage.selected
                        <$> filter (fun r => Database.sr_session_id (Storage.columns r) = sid)
                              (Storage.scan_results st))).
  split; [reflexivity|]. split; [apply merge_sort_Permutation | apply Sorted_merge_sort, _].
Qed.

Lemma well_kept_ids (st : Storage.t) :
  well_kept st ->
  foldr Z.max (Storage.sessions_sequence st) (Retention.id <$> Storage.sessions st)
  = Storage.sessions_sequence st.
Proof.
  intros (_ & _ & H). apply largest_kept. apply Forall_fmap.
  eapply Forall_impl; [exact H|]. cbn. intros. lia.
Qed.

Lemma delete_old_sessions_tables (now now' : Retention.datetime) (days : Z)
    (st : Storage.t) :
  Retention.delete_old_sessions now now' days (Storage.tables_of st)
  = match Storage.delete_old_sessions now now' days st with
    | inl e => inl e
    | inr (n, st') => inr (n, Storage.tables_of st')
    end.
Proof.
  unfold Retention.delete_old_sessions, Storage.delete_old_sessions.
  destruct (Retention.replace_day now _) as [e|cutoff]; [reflexivity|].
  cbv zeta. unfold Storage.tables_of. cbn [Retention.sessions Retention.scan_results
    Storage.sessions Storage.scan_results]. do 3 f_equal.
  induction (Storage.scan_results st) as [|r l IH]; [reflexivity|].
  rewrite fmap_cons, !filter_cons. rewrite IH.
  destruct (decide (_ ∉ _)); reflexivity.
Qed.

(** X14. Sessions by identifier, in the tables as SQLite keeps them. In a
    store as [DatabaseManager] keeps it, [create_session] fails only when
    the largest integer has been given out; otherwise it returns the
    identifier after the largest the table has ever held, which is above
    every identifier of the table; afterwards [get_session_by_id] finds the
    new row under it, ['active'] and without results, and under every other
    identifier what it found before; [update_session] on it makes that row
    ['completed'] with the results given and leaves the other rows; the
    store is still as [DatabaseManager] keeps it. In a store from which
    nothing was ever deleted the identifier returned is the number of
    sessions plus one; after [delete_old_sessions] it is still above every
    identifier the table held before the deletion, so that no identifier
    comes back. [get_session_by_id] and [update_session] raise
    [OverflowError] for an identifier beyond 64 bits. *)
Theorem session_ids_never_come_back (st : Storage.t) (now ty tgt : string)
    (cfg : Z * Z) (res : ScanResults) (k : Z) :
  well_kept st ->
  let row sid :=
    {| Retention.id := sid; Retention.start_time := now;
       Retention.columns :=
         {| Database.session_type := ty; Database.target := tgt;
            Database.config := cfg; Database.results := None;
            Database.status := "active" |} |} in
  match Storage.create_session now ty tgt cfg st with
  | inl e => e = Storage.database_full /\ Storage.sessions_sequence st = 2 ^ 63 - 1
  | inr (sid, st') =>
      sid = Storage.sessions_sequence st + 1
      /\ Forall (fun s => Retention.id s < sid) (Storage.sessions st)
      /\ Storage.get_session_by_id sid st = inr None
      /\ Storage.get_session_by_id k st'
         = (if decide (k = sid) then inr (Some (row sid))
            else Storage.get_session_by_id k st)
      /\ (exists st'',
            Storage.update_session sid res st' = inr st''
            /\ Storage.get_session_by_id k st''
               = (if decide (k = sid) then inr (Some (Storage.finish res (row sid)))
                  else Storage.get_session_by_id k st)
            /\ well_kept st'')
      /\ well_kept st'
      /\ (never_deleted st ->
          sid = Z.of_nat (length (Storage.sessions st)) + 1 /\ never_deleted st')
  end
  /\ (forall (t1 t2 : Retention.datetime) (days n : Z) (st_del : Storage.t),
        Storage.delete_old_sessions t1 t2 days st = inr (n, st_del) ->
        well_kept st_del
        /\ forall sid st', Storage.create_session now ty tgt cfg st_del = inr (sid, st') ->
                           Forall (fun s => Retention.id s < sid) (Storage.sessions st))
  /\ (Storage.int64 k = false ->
      Storage.get_session_by_id k st = inl Storage.integer_overflow
      /\ Storage.update_session k res st = inl Storage.integer_overflow).
Proof.
  intros Hwk row. pose proof Hwk as (Hnd & Hseq & Hids).
  split; [|split].
  - unfold Storage.create_session, Storage.next_rowid. cbv zeta.
    rewrite (well_kept_ids st Hwk).
    destruct (Z.ltb_spec (Storage.sessions_sequence st) (2 ^ 63 - 1)) as [Hlt | Hge].
    2: { split; [reflexivity | lia]. }
    set (sid := Storage.sessions_sequence st + 1). fold (row sid).
    assert (Hfresh : Forall (fun s => Retention.id s < sid) (Storage.sessions st)).
    { eapply Forall_impl; [exact Hids|]. cbn. unfold sid. intros. lia. }
    assert (Habsent : sid ∉ Retention.id <$> Storage.sessions st).
    { intros Hin. apply list_elem_of_fmap in Hin as (s & E & Hs).
      rewrite Forall_forall in Hfresh. specialize (Hfresh s Hs). lia. }
    assert (H64 : Storage.int64 sid = true) by (apply int64_spec; unfold sid; lia).
    assert (Hwk' : well_kept
              {| Storage.sessions := Storage.sessions st ++ [row sid];
                 Storage.sessions_sequence := sid;
                 Storage.scan_results := Storage.scan_results st;
                 Storage.scan_results_sequence := Storage.scan_results_sequence st |}).
    { split; [|split]; cbn [Storage.sessions Storage.sessions_sequence].
      - rewrite fmap_app. apply NoDup_app. split; [exact Hnd|]. split.
        + intros x Hx Hx'. apply list_elem_of_singleton in Hx'. cbn in Hx'. now subst x.
        + apply NoDup_singleton.
      - unfold sid. lia.
      - apply Forall_app. split.
        + eapply Forall_impl; [exact Hids|]. cbn. unfold sid. intros. lia.
        + repeat constructor; cbn; unfold sid; lia. }
    assert (Hget : forall k',
      Storage.get_session_by_id k'
        {| Storage.sessions := Storage.sessions st ++ [row sid];
           Storage.sessions_sequence := sid;
           Storage.scan_results := Storage.scan_results st;
           Storage.scan_results_sequence := Storage.scan_results_sequence st |}
      = (if decide (k' = sid) then inr (Some (row sid))
         else Storage.get_session_by_id k' st)).
    { intros k'. unfold Storage.get_session_by_id. cbn [Storage.sessions].
      destruct (decide (k' = sid)) as [-> | Hne].
      - rewrite H64, find_app, (find_absent sid _ Habsent). cbn.
        now rewrite Z.eqb_refl.
      - destruct (Storage.int64 k'); [|reflexivity]. rewrite find_app. f_equal.
        destruct (List.find _ (Storage.sessions st)); [reflexivity|]. cbn.
        now rewrite (proj2 (Z.eqb_neq sid k')) by congruence. }
    split; [reflexivity|]. split; [exact Hfresh|]. split.
    { unfold Storage.get_session_by_id. rewrite H64. f_equal.
      now apply find_absent. }
    split; [apply Hget|]. split; [|split; [exact Hwk'|]].
    + unfold Storage.update_session. rewrite H64. eexists. split; [reflexivity|].
      split.
      * unfold Storage.get_session_by_id. cbn [Storage.sessions].
        destruct (decide (k = sid)) as [-> | Hne].
        -- rewrite H64, find_fmap_same by reflexivity.
           rewrite find_app, (find_absent sid _ Habsent). cbn.
           now rewrite Z.eqb_refl.
        -- destruct (Storage.int64 k) eqn:Hk; [|reflexivity].
           rewrite find_fmap_other by (reflexivity || assumption).
           pose proof (Hget k) as Hk'. unfold Storage.get_session_by_id in Hk'.
           cbn [Storage.sessions] in Hk'. rewrite Hk, decide_False in Hk' by assumption.
           exact Hk'.
      * destruct Hwk' as (Hnd' & Hseq' & Hids').
        cbn [Storage.sessions Storage.sessions_sequence] in *.
        split; [|split]; cbn [Storage.sessions Storage.sessions_sequence].
        -- rewrite <- list_fmap_compose.
           erewrite list_fmap_ext; [exact Hnd'|]. intros i s _. cbn.
           destruct (Retention.id s =? sid); reflexivity.
        -- exact Hseq'.
        -- apply Forall_fmap. eapply Forall_impl; [exact Hids'|]. cbn. intros s Hs.
           destruct (Retention.id s =? sid); exact Hs.
    + intros [Hdense Hlen]. split; [unfold sid; lia|].
      split; cbn [Storage.sessions Storage.sessions_sequence].
      * rewrite fmap_app, length_app, Hdense. cbn [length fmap list_fmap].
        rewrite Nat2Z.inj_add, seqZ_app by lia. f_equal.
        change (Z.of_nat 1) with 1.
        rewrite (seqZ_cons _ 1) by lia. rewrite seqZ_nil by lia.
        unfold sid, row. rewrite Hlen. cbn [fmap list_fmap Retention.id]. f_equal. lia.
      * rewrite length_app. cbn. unfold sid. lia.
  - intros t1 t2 days n st_del. unfold Storage.delete_old_sessions.
    destruct (Retention.replace_day t1 _) as [e|cutoff]; [discriminate|].
    cbv zeta. intros [= <- <-].
    assert (Hwd : well_kept
              {| Storage.sessions :=
                   filter (fun s => ¬ String.ltb (Retention.start_time s)
                                       (Retention.isoformat cutoff)) (Storage.sessions st);
                 Storage.sessions_sequence := Storage.sessions_sequence st;
                 Storage.scan_results :=
                   filter (fun r => Database.sr_session_id (Storage.columns r)
                                    ∉ Retention.id
                                        <$> filter (fun s => String.ltb (Retention.start_time s)
                                                               (Retention.isoformat cutoff))
                                              (Storage.sessions st))
                     (Storage.scan_results st);
                 Storage.scan_results_sequence := Storage.scan_results_sequence st |}).
    { split; [|split]; cbn [Storage.sessions Storage.sessions_sequence].
      - eapply sublist_NoDup; [exact Hnd | apply fmap_sublist, sublist_filter].
      - exact Hseq.
      - apply Forall_forall. intros s Hs. apply list_elem_of_filter in Hs as [_ Hs].
        rewrite Forall_forall in Hids. now apply Hids. }
    split; [exact Hwd|]. intros sid st'.
    unfold Storage.create_session, Storage.next_rowid. cbv zeta.
    rewrite (well_kept_ids _ Hwd). cbn [Storage.sessions_sequence].
    destruct (Z.ltb_spec (Storage.sessions_sequence st) (2 ^ 63 - 1)); [|discriminate].
    intros [= <- _]. eapply Forall_impl; [exact Hids|]. cbn. intros. lia.
  - intros Hk. unfold Storage.get_session_by_id, Storage.update_session.
    now rewrite Hk.
Qed.

Lemma results_after_store (st st' : Storage.t) (now : string) (sid port : Z)
    (service status : string) :
  Storage.store_scan_result now sid port service status st = inr st' ->
  Storage.int64 sid = true
  /\ Storage.sessions st' = Storage.sessions st
  /\ forall k,
       Storage.selected
         <$> filter (fun r => Database.sr_session_id (Storage.columns r) = k)
               (Storage.scan_results st')
       = (Storage.selected
            <$> filter (fun r => Database.sr_session_id (Storage.columns r) = k)
                  (Storage.scan_results st))
         ++ (if decide (k = sid) then [(now, port, service, status)] else []).
Proof.
  unfold Storage.store_scan_result.
  destruct (Storage.int64 sid) eqn:Hsid; [|discriminate].
  destruct (Storage.int64 port); [|discriminate].
  destruct (Storage.next_rowid _ _) as [rid|]; [|discriminate].
  cbn [andb]. intros [= <-]. split; [reflexivity|]. split; [reflexivity|].
  intros k. cbn [Storage.scan_results].
  rewrite filter_app, fmap_app, filter_cons, filter_nil.
  cbn [Storage.columns Database.sr_session_id].
  destruct (decide (sid = k)) as [-> | Hne].
  - now rewrite decide_True.
  - now rewrite decide_False by congruence.
Qed.

(** X15. Scan results by session, in the tables as SQLite keeps them.
    [store_scan_result] raises [OverflowError], and stores nothing, when the
    session identifier or the port is beyond 64 bits; so does
    [get_session_results] for such an identifier. Otherwise
    [get_session_results] always has an answer: the rows of the session in
    the order of their time stamps. After a row has been stored, what it
    returns for that session is, up to the order, what it returned before
    and the new row, and for any other session it returns what it could
    return before; the sessions are untouched. When the new row bears a time
    stamp after those of all the rows of its session, it comes last: the
    answer is an answer from before, followed by the new row. *)
Theorem scan_results_by_time (st : Storage.t) (now : string) (sid port : Z)
    (service status : string) (k : Z) :
  (Storage.int64 sid && Storage.int64 port = false ->
   Storage.store_scan_result now sid port service status st
   = inl Storage.integer_overflow)
  /\ (Storage.int64 k = false ->
      forall out, Storage.get_session_results k st out
                  <-> out = inl Storage.integer_overflow)
  /\ (exists out, Storage.get_session_results k st out)
  /\ (forall st',
        Storage.store_scan_result now sid port service status st = inr st' ->
        let new := (now, port, service, status) in
        Storage.sessions st' = Storage.sessions st
        /\ (forall rows rows',
              Storage.get_session_results k st (inr rows) ->
              Storage.get_session_results k st' (inr rows') ->
              rows' ≡ₚ rows ++ (if decide (k = sid) then [new] else []))
        /\ (k <> sid ->
            forall out, Storage.get_session_results k st' out
                        <-> Storage.get_session_results k st out)
        /\ (Forall (fun r => Database.sr_session_id (Storage.columns r) = sid ->
                             String.ltb (Storage.timestamp r) now = true)
              (Storage.scan_results st) ->
            forall rows',
              Storage.get_session_results sid st' (inr rows') ->
              exists rows, rows' = rows ++ [new]
                           /\ Storage.get_session_results sid st (inr rows))).
Proof.
  split; [|split; [|split]].
  - intros H. unfold Storage.store_scan_result. now rewrite H.
  - intros Hk out. unfold Storage.get_session_results. now rewrite Hk.
  - apply get_session_results_answers.
  - intros st' Hst new.
    destruct (results_after_store st st' now sid port service status Hst)
      as (H64 & Hs & Hrows).
    split; [exact Hs|]. split; [|split].
    + intros rows rows'. unfold Storage.get_session_results.
      destruct (Storage.int64 k); [|discriminate].
      intros (r & [= <-] & Hp & _) (r' & [= <-] & Hp' & _).
      rewrite Hp', Hrows, Hp. reflexivity.
    + intros Hne out. unfold Storage.get_session_results.
      rewrite Hrows, decide_False, app_nil_r by exact Hne. reflexivity.
    + intros Hclock rows'. unfold Storage.get_session_results. rewrite H64.
      intros (r' & [= <-] & Hp' & Hsorted).
      rewrite Hrows, decide_True in Hp' by reflexivity. fold new in Hp'.
      set (old := Storage.selected
                    <$> filter (fun r => Database.sr_session_id (Storage.columns r) = sid)
                          (Storage.scan_results st)) in *.
      assert (Hold : Forall (fun o => String.ltb o.1.1.1 now = true) old).
      { unfold old. apply Forall_fmap, Forall_forall. intros r Hr.
        apply list_elem_of_filter in Hr as [Hr Hin]. cbn.
        rewrite Forall_forall in Hclock. now apply Hclock. }
      assert (Hin : new ∈ rows').
      { rewrite Hp'. apply elem_of_app. right. now apply list_elem_of_singleton. }
      apply list_elem_of_split in Hin as (l1 & l2 & ->).
      assert (Hrest : l1 ++ l2 ≡ₚ old).
      { apply (Permutation_cons_inv (a := new)).
        rewrite Permutation_middle, Hp'. symmetry. apply Permutation_cons_append. }
      destruct l2 as [|h l2].
      * exists l1. split; [reflexivity|]. eexists. split; [reflexivity|].
        rewrite app_nil_r in Hrest. split; [exact Hrest|].
        now apply Sorted_app_l in Hsorted.
      * exfalso. apply Sorted_middle in Hsorted. unfold Storage.by_timestamp in Hsorted.
        assert (Hh : h ∈ old)
          by (rewrite <- Hrest; apply elem_of_app; right; left).
        rewrite Forall_forall in Hold. specialize (Hold h Hh).
        exact (leb_ltb _ _ Hsorted Hold).
Qed.

(** A store from which session 2 has been deleted, and which holds two scan
    results of session 1 with the same time stamp. *)
Definition after_a_deletion : Storage.t :=
  {| Storage.sessions :=
       [ {| Retention.id := 1; Retention.start_time := "2026-11-01T10:00:00.000001";
            Retention.columns := a_row |};
         {| Retention.id := 3; Retention.start_time := "2026-11-18T09:00:00.000001";
            Retention.columns := a_row |} ];
     Storage.sessions_sequence := 3;
     Storage.scan_results :=
       [ {| Storage.result_id := 1; Storage.timestamp := "2026-11-01T10:00:01";
            Storage.columns :=
              {| Database.sr_session_id := 1; Database.sr_port := 22;
                 Database.sr_service := "SSH"; Database.sr_status := "open" |} |};
         {| Storage.result_id := 2; Storage.timestamp := "2026-11-01T10:00:01";
            Storage.columns :=
              {| Database.sr_session_id := 1; Database.sr_port := 80;
                 Database.sr_service := "HTTP"; Database.sr_status := "open" |} |} ];
     Storage.scan_results_sequence := 2 |}.

Lemma after_a_deletion_well_kept : well_kept after_a_deletion.
Proof.
  split; [|split].
  - apply (bool_decide_unpack _). vm_compute. exact I.
  - vm_compute. split; [discriminate | reflexivity].
  - repeat constructor; vm_compute; discriminate.
Qed.

Lemma session_ids_never_come_back_witness :
  well_kept after_a_deletion
  /\ length (Storage.sessions after_a_deletion) = 2%nat
  /\ exists st',
       Storage.create_session "2026-11-20T08:00:00" "red_team" "10.0.0.5" (1, 2)
         after_a_deletion = inr (4, st')
       /\ (Retention.id <$> Storage.sessions st') = [1; 3; 4]
       /\ Storage.get_session_by_id 3 st'
          = Storage.get_session_by_id 3 after_a_deletion
       /\ well_kept st'.
Proof.
  pose proof (session_ids_never_come_back after_a_deletion "2026-11-20T08:00:00"
                "red_team" "10.0.0.5" (1, 2)
                {| res_target := "10.0.0.5"; res_start_port := 1; res_end_port := 2;
                   res_open_ports := [] |} 3 after_a_deletion_well_kept) as [H _].
  split; [exact after_a_deletion_well_kept|]. split; [reflexivity|].
  destruct (Storage.create_session _ _ _ _ after_a_deletion) as [e | [sid st']] eqn:Hc.
  - vm_compute in Hc. discriminate.
  - destruct H as (Hsid & _ & _ & Hget & _ & Hwk & _).
    assert (sid = 4) as -> by (rewrite Hsid; reflexivity).
    exists st'. split; [reflexivity|].
    split; [vm_compute in Hc; injection Hc as <-; reflexivity|].
    split; [exact Hget | exact Hwk].
Defined.

Lemma scan_results_by_time_witness :
  let ssh := ("2026-11-01T10:00:01", 22, "SSH", "open")%string in
  let http := ("2026-11-01T10:00:01", 80, "HTTP", "open")%string in
  let smtp := ("2026-11-01T10:00:02", 25, "SMTP", "open")%string in
  Storage.get_session_results 1 after_a_deletion (inr [ssh; http])
  /\ Storage.get_session_results 1 after_a_deletion (inr [http; ssh])
  /\ Storage.store_scan_result "2026-11-01T10:00:02" (2 ^ 63) 25 "SMTP" "open"
       after_a_deletion
     = inl Storage.integer_overflow
  /\ exists st',
       Storage.store_scan_result "2026-11-01T10:00:02" 1 25 "SMTP" "open"
         after_a_deletion = inr st'
       /\ forall rows',
            Storage.get_session_results 1 st' (inr rows') ->
            rows' = [ssh; http; smtp] \/ rows' = [http; ssh; smtp].
Proof.
  intros ssh http smtp.
  assert (H1 : Storage.get_session_results 1 after_a_deletion (inr [ssh; http])).
  { eexists. split; [reflexivity|]. split; [reflexivity|].
    repeat constructor. }
  assert (H2 : Storage.get_session_results 1 after_a_deletion (inr [http; ssh])).
  { eexists. split; [reflexivity|]. split; [apply perm_swap|].
    repeat constructor. }
  split; [exact H1|]. split; [exact H2|].
  destruct (scan_results_by_time after_a_deletion "2026-11-01T10:00:02" (2 ^ 63) 25
              "SMTP" "open" 1) as (Hover & _).
  split; [apply Hover; reflexivity|].
  destruct (Storage.store_scan_result "2026-11-01T10:00:02" 1 25 "SMTP" "open"
              after_a_deletion) as [e | st'] eqn:Hst; [vm_compute in Hst; discriminate|].
  exists st'. split; [reflexivity|]. intros rows' Hrows'.
  destruct (scan_results_by_time after_a_deletion "2026-11-01T10:00:02" 1 25
              "SMTP" "open" 1) as (_ & _ & _ & Hafter).
  destruct (Hafter st' Hst) as (_ & _ & _ & Hlast).
  destruct (Hlast ltac:(repeat constructor) rows' Hrows') as (rows & -> & Hrows).
  destruct Hrows as (r & [= <-] & Hp & _).
  change (rows ≡ₚ [ssh; http]) in Hp. symmetry in Hp.
  apply Permutation_length_2_inv in Hp as [-> | ->]; [left | right]; reflexivity.
Defined.

(** ** A tick of the process monitor, on any list *)
Lemma examine_sound (processes : list BlueTeam.process) (p : Z) (sig : string * string) :
  sig ∈ BlueTeam.examine processes p ->
  exists proc, proc ∈ processes /\ BlueTeam.pid proc = p
               /\ BlueTeam.is_suspicious (BlueTeam.name proc) = true
               /\ sig = new_process_signal proc.
Proof.
  unfold BlueTeam.examine.
  destruct (List.find _ processes) as [proc|] eqn:Hf; [|intros H; now apply elem_of_nil in H].
  apply find_some in Hf as [Hin Hp].
  destruct (BlueTeam.is_suspicious (BlueTeam.name proc)) eqn:Hs;
    [|intros H; now apply elem_of_nil in H].
  intros H. apply list_elem_of_singleton in H. subst sig.
  exists proc. split; [now apply list_elem_of_In|]. split; [now apply Z.eqb_eq|].
  split; [exact Hs | reflexivity].
Qed.

Lemma examine_length (processes : list BlueTeam.process) (l : list Z) :
  (length (l ≫= BlueTeam.examine processes) <= length l)%nat.
Proof.
  induction l as [|p l IH]; [reflexivity|].
  rewrite bind_cons, length_app. cbn [length].
  assert (length (BlueTeam.examine processes p) <= 1)%nat; [|lia].
  unfold BlueTeam.examine. destruct (List.find _ processes) as [proc|]; [|cbn; lia].
  destruct (BlueTeam.is_suspicious _); cbn; lia.
Qed.

(** X18. Whatever list of processes a tick of the process monitor is given,
    also one that repeats an identifier: every alert it raises is the alert
    of a listed process whose identifier was not known and whose name is
    suspicious, and there are no more alerts than identifiers that were not
    known. A tick given the empty list raises nothing and erases the
    baseline, so that the tick after it raises nothing either, whatever it
    lists. *)
Theorem process_tick_sound (processes : list BlueTeam.process)
    (th : BlueTeam.ProcessMonitorThread) :
  let alerts := (BlueTeam.process_tick processes th).1 in
  let new_pids : gset Z :=
    list_to_set (BlueTeam.pid <$> processes) ∖ BlueTeam.known_processes th in
  (forall a, a ∈ alerts ->
     exists p, p ∈ processes /\ (BlueTeam.pid p ∉ BlueTeam.known_processes th)
               /\ BlueTeam.is_suspicious (BlueTeam.name p) = true
               /\ a = process_alert p)
  /\ (length alerts <= size new_pids)%nat
  /\ (processes = [] ->
      alerts = []
      /\ forall after,
           (BlueTeam.process_tick after (BlueTeam.process_tick processes th).2).1 = []).
Proof.
  intros alerts new_pids. subst alerts.
  unfold BlueTeam.process_tick, BlueTeam.detect_new_processes. cbn [fst snd].
  fold new_pids. split; [|split].
  - intros a Ha. apply list_elem_of_fmap in Ha as (sig & -> & Hsig).
    destruct (_ && _); [|now apply elem_of_nil in Hsig].
    apply list_elem_of_bind in Hsig as (p & Hsig & Hp).
    apply elem_of_elements, elem_of_difference in Hp as [_ Hnew].
    apply examine_sound in Hsig as (proc & Hin & Hpid & Hs & ->).
    exists proc. rewrite Hpid. repeat split; assumption.
  - rewrite length_fmap. destruct (_ && _); [|cbn; lia].
    etransitivity; [apply examine_length|]. reflexivity.
  - intros ->. split.
    + replace new_pids with (∅ : gset Z).
      2: { symmetry. apply elem_of_equiv_empty_L. intros x Hx.
           apply elem_of_difference in Hx as [Hx _]. now apply not_elem_of_empty in Hx. }
      rewrite (bool_decide_eq_false_2 (∅ ≠ ∅)) by (intros H; now apply H).
      now rewrite andb_false_r.
    + intros after. cbn [BlueTeam.known_processes fmap list_fmap list_to_set foldr].
      rewrite (bool_decide_eq_false_2 (∅ ≠ ∅)) by (intros H; now apply H).
      reflexivity.
Qed.

Lemma process_tick_sound_witness :
  let shell := {| BlueTeam.pid := 1; BlueTeam.name := "bash"; BlueTeam.user := "root";
                  BlueTeam.memory := None |} in
  let tool := {| BlueTeam.pid := 7; BlueTeam.name := "KeyLogger.exe";
                 BlueTeam.user := "root"; BlueTeam.memory := None |} in
  let th := (BlueTeam.process_tick [shell] (BlueTeam.pm_init 10)).2 in
  (BlueTeam.process_tick [shell; tool] th).1 = [process_alert tool]
  /\ (BlueTeam.process_tick [shell; tool] (BlueTeam.process_tick [] th).2).1 = [].
Proof.
  intros shell tool th.
  destruct (process_tick_sound [] th) as (_ & _ & H).
  destruct (H eq_refl) as [_ Hafter].
  split; [vm_compute; reflexivity | apply Hafter].
Defined.
